(** * Paste-image-rename: name generation and deduplication

    A shallow embedding of the pure name logic of the plugin
    ([main.ts]: [getActualExtension], [parseFileName], [isNameMeaningful],
    [deduplicateNewName]; [utils.ts]: [path.basename], [sanitizer],
    [escapeRegExp]) and the properties the specification states about it,
    followed by what surrounds that logic ([main.ts]: the handler of the
    create event, [generateNewName], [startRenameProcess], [renameFile],
    [updateLinkInEditor], the rename modal and the image test of the batch
    rename; [utils.ts]: [path.join], [path.extension],
    [createElementTree]) and the properties the code itself shows.

    JavaScript strings are sequences of UTF-16 code units, numbers are
    IEEE-754 doubles, and a [RegExp] is built from a pattern source at run
    time.  The embedding keeps all three: strings are lists of code units,
    the numbers this code computes with (integers and the special values)
    carry their rounding, and the pattern sources the code assembles are
    parsed and run by a backtracking matcher.  What belongs to the
    ECMAScript host and has no bearing on the plugin's own logic (the
    Unicode tables, the part of the pattern language the plugin never writes
    itself, the number of arguments a call takes) is a field of the class
    [Host]. *)

From Stdlib Require Import List NArith ZArith Bool Ascii String Lia Permutation.
From Stdlib Require DecimalString DecimalN DecimalPos.
From Stdlib Require Import Floats.SpecFloat.
Import ListNotations.

(** ** Strings *)

Definition jsstring := list N.

(** The code unit of an ASCII character, and the string of a literal. *)
Definition ch (a : ascii) : N := N_of_ascii a.
Definition str (s : string) : jsstring := map N_of_ascii (list_ascii_of_string s).

(** [a === b] on strings. *)
Fixpoint streq (a b : jsstring) : bool :=
  match a, b with
  | [], [] => true
  | x :: a', y :: b' => N.eqb x y && streq a' b'
  | _, _ => false
  end.

(** Truthiness of a string: [!s] holds of the empty string only. *)
Definition isEmpty (s : jsstring) : bool :=
  match s with [] => true | _ :: _ => false end.

Definition inRange (lo hi c : N) : bool := N.leb lo c && N.leb c hi.

Definition isDigit (c : N) : bool := inRange 48 57 c.

(** [WhiteSpace] and [LineTerminator] of ECMAScript: what [\s] matches and
    what [trim] removes. *)
Definition isWhiteSpace (c : N) : bool :=
  existsb (N.eqb c)
    [9; 10; 11; 12; 13; 32; 160; 5760; 8232; 8233; 8239; 8287; 12288; 65279]%N
  || inRange 8192 8202 c.

Definition isHighSurrogate (c : N) : bool := inRange 55296 56319 c.
Definition isLowSurrogate (c : N) : bool := inRange 56320 57343 c.
Definition isSurrogate (c : N) : bool := inRange 55296 57343 c.

(** The code point of a surrogate pair. *)
Definition codePoint (hi lo : N) : N :=
  (65536 + (hi - 55296) * 1024 + (lo - 56320))%N.

(** ** Errors *)

Inductive error :=
| SyntaxError
| RangeError.

Inductive result (A : Type) :=
| Ok (a : A)
| Throw (e : error).
Arguments Ok {A} a.
Arguments Throw {A} e.

(** ** The ECMAScript host *)

Class Host := {
  (** General_Category = Letter ([\p{L}]) for code points above U+007F
      that are not surrogates. *)
  unicodeLetter : N -> bool;
  (** [String.prototype.toLowerCase] on a string that holds a code unit
      above U+007F. *)
  unicodeToLowerCase : jsstring -> jsstring;
  (** [new RegExp(source)] followed by [exec] for a source outside the
      fragment parsed below: [None] is a SyntaxError; otherwise the function
      maps a subject to [None] (no match) or to the value of [match[1]]
      ([None] there is [undefined]). *)
  hostRegExp : jsstring -> option (jsstring -> option (option jsstring));
  (** [name.replace(new RegExp(source, 'gm'), '')] for a class source
      outside the fragment parsed below: [None] is a SyntaxError. *)
  hostReplace : jsstring -> option (jsstring -> jsstring);
  (** [Number::toString] of a finite integer of magnitude above 2^53. *)
  hostNumberToString : Z -> jsstring;
  (** The number of arguments the engine passes to a call at most: a
      spread call [f(...l)] of a longer [l] throws a RangeError. *)
  maxArguments : positive
}.

(** A host with empty tables, whose calls take 65536 arguments, for running
    the model on ASCII inputs. *)
Definition asciiHost : Host := {|
  unicodeLetter := fun _ => false;
  unicodeToLowerCase := fun s => s;
  hostRegExp := fun _ => None;
  hostReplace := fun _ => None;
  hostNumberToString := fun _ => [];
  maxArguments := 65536
|}.

(** ** Settings and files *)

Record PluginSettings := {
  imageNamePattern : jsstring;
  dupNumberAtStart : bool;
  dupNumberDelimiter : jsstring;
  dupNumberAlways : bool;
  autoRename : bool;
  handleAllAttachments : bool;
  excludeExtensionPattern : jsstring;
  disableRenameNotice : bool;
  pngToJpeg : bool;
  pngToWebp : bool;
  quality : jsstring
}.

Definition DEFAULT_SETTINGS : PluginSettings := {|
  imageNamePattern := str "{{fileName}}";
  dupNumberAtStart := false;
  dupNumberDelimiter := str "-";
  dupNumberAlways := false;
  autoRename := false;
  handleAllAttachments := false;
  excludeExtensionPattern := [];
  disableRenameNotice := false;
  pngToJpeg := false;
  pngToWebp := false;
  quality := str "0.8"
|}.

(** The two fields of the host's [TFile] that the name logic reads. *)
Module TFile.
Record t := { name : jsstring; extension : jsstring }.
End TFile.

(** What [parseFileName] returns. *)
Module Parsed.
Record t := { stem : jsstring; extension : jsstring }.
End Parsed.

(** [NameObj] of utils.ts. *)
Module NameObj.
Record t := { name : jsstring; stem : jsstring; extension : jsstring }.
End NameObj.

Section Model.
Context {host : Host}.

(** ** String.prototype methods *)

Definition isAscii (c : N) : bool := N.ltb c 128.

Definition asciiLower (c : N) : N := if inRange 65 90 c then (c + 32)%N else c.

(** [s.toLowerCase()]: on an ASCII string the letters A-Z are mapped to a-z;
    the Unicode case mapping of anything else is the host's. *)
Definition toLowerCase (s : jsstring) : jsstring :=
  if forallb isAscii s then map asciiLower s else unicodeToLowerCase s.

(** [s.lastIndexOf(c)]: the index of the last occurrence of [c], or -1. *)
Fixpoint lastIndexOfFrom (c : N) (s : jsstring) (i found : Z) : Z :=
  match s with
  | [] => found
  | h :: t => lastIndexOfFrom c t (i + 1) (if N.eqb h c then i else found)
  end.

Definition lastIndexOf (s : jsstring) (c : N) : Z := lastIndexOfFrom c s 0 (-1).

(** [s.slice(from, to)] and [s.slice(from)]: a negative index counts from
    the end, and both are clamped to the string. *)
Definition clampIndex (len i : Z) : Z :=
  if (i <? 0)%Z then Z.max (len + i) 0 else Z.min i len.

Definition slice (s : jsstring) (from to : Z) : jsstring :=
  let len := Z.of_nat (List.length s) in
  let a := clampIndex len from in
  let b := clampIndex len to in
  firstn (Z.to_nat (b - a)) (skipn (Z.to_nat a) s).

Definition sliceFrom (s : jsstring) (from : Z) : jsstring :=
  slice s from (Z.of_nat (List.length s)).

(** [s.trim()]. *)
Fixpoint trimStart (s : jsstring) : jsstring :=
  match s with
  | c :: t => if isWhiteSpace c then trimStart t else s
  | [] => []
  end.

Definition trimEnd (s : jsstring) : jsstring := rev (trimStart (rev s)).

Definition trim (s : jsstring) : jsstring := trimEnd (trimStart s).

(** ** getActualExtension *)

Definition getActualExtension (extension : jsstring) (settings : PluginSettings)
  : jsstring :=
  let ext := toLowerCase extension in
  if streq ext (str "png") then
    if pngToWebp settings then str "webp"
    else if pngToJpeg settings then str "jpeg"
    else ext
  else ext.

(** ** parseFileName *)

Definition parseFileName (fileName : jsstring) : Parsed.t :=
  if isEmpty fileName then {| Parsed.stem := []; Parsed.extension := [] |}
  else
    let lastDotIndex := lastIndexOf fileName (ch ".") in
    if (lastDotIndex =? -1)%Z then
      {| Parsed.stem := fileName; Parsed.extension := [] |}
    else if (lastDotIndex =? 0)%Z then
      {| Parsed.stem := []; Parsed.extension := toLowerCase (sliceFrom fileName 1) |}
    else
      {| Parsed.stem := slice fileName 0 lastDotIndex;
         Parsed.extension := toLowerCase (sliceFrom fileName (lastDotIndex + 1)) |}.

End Model.

(** ** utils.ts: path, sanitizer, escapeRegExp *)

Module path.

(** [s.split(sep)] for a one-character separator: never empty. *)
Fixpoint split (sep : N) (s : jsstring) : list jsstring :=
  match s with
  | [] => [[]]
  | c :: t =>
    if N.eqb c sep then [] :: split sep t
    else match split sep t with
         | h :: r => (c :: h) :: r
         | [] => [[c]]
         end
  end.

(** The last part of a path. *)
Definition basename (fullpath : jsstring) : jsstring :=
  last (split (ch "/") fullpath) [].

(** [parts.join(sep)]. *)
Fixpoint joinWith (sep : jsstring) (parts : list jsstring) : jsstring :=
  match parts with
  | [] => []
  | a :: parts' =>
    match parts' with
    | [] => a
    | _ :: _ => a ++ sep ++ joinWith sep parts'
    end
  end.

(** A path command that is kept: not empty and not ["."]. *)
Definition pushed (part : jsstring) : bool :=
  negb (isEmpty part || streq part (str ".")).

(** [path.join(...partSegments)]: the segments of all the arguments, the
    empty ones and the ["."] ones left out, joined by slashes; an initial
    slash is kept. *)
Definition join (partSegments : list jsstring) : jsstring :=
  let parts := flat_map (split (ch "/")) partSegments in
  let newParts := filter pushed parts in
  let newParts :=
    match parts with
    | first :: _ => if isEmpty first then [] :: newParts else newParts
    | [] => newParts
    end in
  joinWith (str "/") newParts.

(** The indices of the matches of [/\./gi] in a string that starts at
    index [i]. *)
Fixpoint dotPositions (s : jsstring) (i : Z) : list Z :=
  match s with
  | [] => []
  | c :: t =>
    if N.eqb c (ch ".") then i :: dotPositions t (i + 1)
    else dotPositions t (i + 1)
  end.

(** [path.extension]: the text after the last dot.  Without a dot the last
    position is [undefined], [undefined + 1] is NaN, and [slice(NaN)] starts
    at index 0. *)
Definition extension (fullpath : jsstring) : jsstring :=
  let positions := dotPositions fullpath 0 in
  match rev positions with
  | lastPosition :: _ => sliceFrom fullpath (lastPosition + 1)
  | [] => sliceFrom fullpath 0
  end.

End path.

(** The characters [filenameNotAllowedChars] leaves alone:
    [\p{L}], [0-9] and the listed punctuation (34 is the double quote). *)
Definition allowedPunctuation : jsstring :=
  str "~`!@$&*()-_=+{};',<.>? " ++ [34%N].

Module sanitizer.
Section WithHost.
Context {host : Host}.

Definition isLetter (cp : N) : bool :=
  if N.ltb cp 128 then inRange 65 90 cp || inRange 97 122 cp
  else if isSurrogate cp then false
  else unicodeLetter cp.

Definition allowed (cp : N) : bool :=
  isLetter cp || isDigit cp || existsb (N.eqb cp) allowedPunctuation.

(** [s.replace(filenameNotAllowedChars, '')].  The pattern has the [u]
    flag, so it reads the string by code point: a high surrogate followed
    by a low one is one character, any other surrogate stands alone. *)
Fixpoint removeNotAllowed (s : jsstring) : jsstring :=
  match s with
  | [] => []
  | c :: t =>
    match t with
    | d :: t' =>
      if isHighSurrogate c && isLowSurrogate d then
        if allowed (codePoint c d) then c :: d :: removeNotAllowed t'
        else removeNotAllowed t'
      else if allowed c then c :: removeNotAllowed t
      else removeNotAllowed t
    | [] => if allowed c then [c] else []
    end
  end.

Definition filename (s : jsstring) : jsstring := trim (removeNotAllowed s).

Definition delimiter (s : jsstring) : jsstring :=
  let s := filename s in
  if isEmpty s then str "-" else s.

End WithHost.
End sanitizer.

(** The characters [escapeRegExp] puts a backslash before. *)
Definition regExpSpecial : jsstring := str ".*+?^${}()|[]\".

Definition isRegExpSpecial (c : N) : bool := existsb (N.eqb c) regExpSpecial.

Definition escapeRegExp (s : jsstring) : jsstring :=
  flat_map (fun c => if isRegExpSpecial c then [ch "\"; c] else [c]) s.

(** ** Numbers

    The numbers of this code are parsed digit strings, their maximum and
    that maximum plus one: integers, the infinities and NaN.  [Finite z] is
    the double of integer value [z] ([Finite 0] stands for both zeros, which
    nothing here tells apart).  An integer that needs more than 53 bits is
    rounded to the nearest double, ties to even, and to infinity from
    2^1024 - 2^970 on. *)

Inductive number :=
| NaN
| Infinity (negative : bool)
| Finite (z : Z).

Definition roundToDouble (z : Z) : number :=
  let a := Z.abs z in
  let k := (Z.log2 a + 1 - 53)%Z in
  if (k <=? 0)%Z then Finite z
  else
    let q := Z.shiftr a k in
    let r := (a - Z.shiftl q k)%Z in
    let half := Z.shiftl 1 (k - 1) in
    let q' := if (half <? r)%Z || ((r =? half)%Z && Z.odd q) then (q + 1)%Z else q in
    let v := Z.shiftl q' k in
    if (Z.shiftl 1 1024 <=? v)%Z then Infinity (z <? 0)%Z
    else Finite (Z.sgn z * v).

Definition isNaN (x : number) : bool :=
  match x with NaN => true | _ => false end.

(** [x + y] on numbers. *)
Definition add (x y : number) : number :=
  match x, y with
  | NaN, _ | _, NaN => NaN
  | Infinity a, Infinity b => if Bool.eqb a b then Infinity a else NaN
  | Infinity a, Finite _ | Finite _, Infinity a => Infinity a
  | Finite a, Finite b => roundToDouble (a + b)
  end.

Definition max2 (x y : number) : number :=
  match x, y with
  | NaN, _ | _, NaN => NaN
  | Infinity false, _ | _, Infinity false => Infinity false
  | Infinity true, v | v, Infinity true => v
  | Finite a, Finite b => Finite (Z.max a b)
  end.

(** The value of [Math.max] called with the arguments [l]: minus infinity
    of no argument, NaN if one is NaN.  Whether the spread call
    [Math.max(...l)] can pass them is [spreads] below. *)
Definition Math_max (l : list number) : number :=
  fold_left max2 l (Infinity true).

Fixpoint takeDigits (s : jsstring) : jsstring :=
  match s with
  | c :: t => if isDigit c then c :: takeDigits t else []
  | [] => []
  end.

Fixpoint digitsValue (acc : Z) (ds : jsstring) : Z :=
  match ds with
  | [] => acc
  | d :: t => digitsValue (10 * acc + Z.of_N (d - 48)) t
  end.

(** The decimal digits of a natural number. *)
Definition decimal (n : N) : jsstring :=
  str (DecimalString.NilZero.string_of_uint (N.to_uint n)).

Section Numbers.
Context {host : Host}.

(** [parseInt(s, 10)]: leading white space, a sign, then the longest run of
    digits; NaN when there is no digit.  The value is the digits' integer
    rounded to a double. *)
Definition parseInt (s : jsstring) : number :=
  let s := trimStart s in
  let '(negative, s) :=
    match s with
    | c :: t =>
      if N.eqb c (ch "-") then (true, t)
      else if N.eqb c (ch "+") then (false, t)
      else (false, s)
    | [] => (false, s)
    end in
  match takeDigits s with
  | [] => NaN
  | ds => roundToDouble (if negative then - digitsValue 0 ds else digitsValue 0 ds)
  end.

(** A number in a template literal ([Number::toString]).  An integer up to
    2^53 is printed digit for digit.  Above, the digits printed are the
    fewest that read back as the same double, followed by zeros or, from
    1e21 on, by an exponent: that search is the host's. *)
Definition numberToString (x : number) : jsstring :=
  match x with
  | NaN => str "NaN"
  | Infinity false => str "Infinity"
  | Infinity true => str "-Infinity"
  | Finite z =>
    if (Z.abs z <=? 2 ^ 53)%Z then
      if (z <? 0)%Z then ch "-" :: decimal (Z.abs_N z) else decimal (Z.abs_N z)
    else hostNumberToString z
  end.

End Numbers.

(** ** Regular expressions

    [deduplicateNewName] builds its pattern from the escaped stem, the
    escaped delimiter and the extension as it is.  The fragment below is
    what such a source can hold when the extension brings in nothing but
    pattern characters, groups, [|], [.], [^], [$] and the greedy
    quantifiers [*], [+], [?]: it is parsed and run here.  A source with
    anything else ([[], [{], a lazy quantifier, a group specifier, another
    escape) goes to the host. *)

Inductive token :=
| TChar (c : N)
| TDigit
| TDot
| TBol
| TEol
| TOpen
| TClose
| TBar
| TStar
| TPlus
| TOpt.

(** [SyntaxCharacter] of the pattern grammar. *)
Definition isSyntaxCharacter (c : N) : bool :=
  existsb (N.eqb c) (str "^$\.*+?()[]{}|").

Definition startsWith (c : N) (s : jsstring) : bool :=
  match s with
  | h :: _ => N.eqb h c
  | [] => false
  end.

(** The tokens of a source, [None] when it leaves the fragment. *)
Fixpoint tokenize (src : jsstring) : option (list token) :=
  match src with
  | [] => Some []
  | c :: t =>
    if N.eqb c (ch "\") then
      match t with
      | e :: t' =>
        if isSyntaxCharacter e then option_map (cons (TChar e)) (tokenize t')
        else if N.eqb e (ch "d") then option_map (cons TDigit) (tokenize t')
        else None
      | [] => None
      end
    else if existsb (N.eqb c) (str "[]{}") then None
    else if existsb (N.eqb c) (str "(*+?") && startsWith (ch "?") t then None
    else
      option_map
        (cons (if N.eqb c (ch "^") then TBol
               else if N.eqb c (ch "$") then TEol
               else if N.eqb c (ch ".") then TDot
               else if N.eqb c (ch "(") then TOpen
               else if N.eqb c (ch ")") then TClose
               else if N.eqb c (ch "|") then TBar
               else if N.eqb c (ch "*") then TStar
               else if N.eqb c (ch "+") then TPlus
               else if N.eqb c (ch "?") then TOpt
               else TChar c))
        (tokenize t)
  end.

Inductive regex :=
| Empty
| Char (c : N)
| Digit
| Dot
| Bol
| Eol
| Group (n : nat) (r : regex)
| Seq (r1 r2 : regex)
| Alt (r1 r2 : regex)
| Star (r : regex)
| Plus (r : regex)
| Opt (r : regex).

(** An open group (or the whole pattern) while it is being read: the
    alternatives already closed by a [|], the terms of the current one
    (both latest first), and the group's number. *)
Record frame := {
  alts : list regex;
  terms : list regex;
  number_ : nat
}.

Definition seqOf (terms_rev : list regex) : regex :=
  fold_left (fun acc r => Seq r acc) terms_rev Empty.

Definition disjunction (f : frame) : regex :=
  fold_left (fun acc a => Alt a acc) (alts f) (seqOf (terms f)).

Definition pushTerm (r : regex) (f : frame) : frame :=
  {| alts := alts f; terms := r :: terms f; number_ := number_ f |}.

(** Only an atom takes a quantifier: not an assertion and not a term that
    has one already. *)
Definition quantifiable (r : regex) : bool :=
  match r with
  | Char _ | Digit | Dot | Group _ _ => true
  | _ => false
  end.

Definition quantify (q : regex -> regex) (f : frame) : option frame :=
  match terms f with
  | a :: rest =>
    if quantifiable a
    then Some {| alts := alts f; terms := q a :: rest; number_ := number_ f |}
    else None
  | [] => None
  end.

(** The pattern of a token list, [None] for a SyntaxError (a group left
    open, a [)] without its [(], a quantifier with nothing to repeat).
    Groups are numbered from 1 in the order of their [(]. *)
Fixpoint parseTokens (ts : list token) (next : nat) (top : frame)
  (open : list frame) : option regex :=
  match ts with
  | [] =>
    match open with
    | [] => Some (disjunction top)
    | _ :: _ => None
    end
  | tok :: ts' =>
    match tok with
    | TChar c => parseTokens ts' next (pushTerm (Char c) top) open
    | TDigit => parseTokens ts' next (pushTerm Digit top) open
    | TDot => parseTokens ts' next (pushTerm Dot top) open
    | TBol => parseTokens ts' next (pushTerm Bol top) open
    | TEol => parseTokens ts' next (pushTerm Eol top) open
    | TOpen =>
      parseTokens ts' (S next) {| alts := []; terms := []; number_ := next |}
        (top :: open)
    | TClose =>
      match open with
      | parent :: open' =>
        parseTokens ts' next
          (pushTerm (Group (number_ top) (disjunction top)) parent) open'
      | [] => None
      end
    | TBar =>
      parseTokens ts' next
        {| alts := seqOf (terms top) :: alts top; terms := [];
           number_ := number_ top |} open
    | TStar =>
      match quantify Star top with
      | Some top' => parseTokens ts' next top' open
      | None => None
      end
    | TPlus =>
      match quantify Plus top with
      | Some top' => parseTokens ts' next top' open
      | None => None
      end
    | TOpt =>
      match quantify Opt top with
      | Some top' => parseTokens ts' next top' open
      | None => None
      end
    end
  end.

Definition parsePattern (ts : list token) : option regex :=
  parseTokens ts 1 {| alts := []; terms := []; number_ := 0 |} [].

(** The state of a match: the index reached, the input left from there and
    the captures made so far. *)
Record mstate := {
  pos : nat;
  rest : jsstring;
  caps : list (nat * jsstring)
}.

Definition advance (x : mstate) (t : jsstring) : mstate :=
  {| pos := S (pos x); rest := t; caps := caps x |}.

Fixpoint groupsOf (r : regex) : list nat :=
  match r with
  | Group n r' => n :: groupsOf r'
  | Seq a b | Alt a b => groupsOf a ++ groupsOf b
  | Star a | Plus a | Opt a => groupsOf a
  | _ => []
  end.

(** Each round of a quantified atom starts with the atom's captures undone. *)
Definition clearCaps (r : regex) (x : mstate) : mstate :=
  {| pos := pos x; rest := rest x;
     caps := filter (fun c => negb (existsb (Nat.eqb (fst c)) (groupsOf r))) (caps x) |}.

Definition setCap (n : nat) (from to : mstate) : mstate :=
  {| pos := pos to; rest := rest to;
     caps := (n, firstn (pos to - pos from) (rest from)) :: caps to |}.

Definition isLineTerminator (c : N) : bool :=
  existsb (N.eqb c) [10; 13; 8232; 8233]%N.

Definition matchChar (p : N -> bool) (x : mstate)
  (k : mstate -> option mstate) : option mstate :=
  match rest x with
  | h :: t => if p h then k (advance x t) else None
  | [] => None
  end.

Definition orElse (a b : option mstate) : option mstate :=
  match a with
  | Some _ => a
  | None => b
  end.

(** The backtracking matcher of the language definition, in
    continuation-passing style: [k] is what has to match after [r].  A
    round of [*] that consumes nothing is given up, so the rounds are
    bounded by the input that is left. *)
Fixpoint matcher (r : regex) (x : mstate) (k : mstate -> option mstate)
  {struct r} : option mstate :=
  match r with
  | Empty => k x
  | Char c => matchChar (N.eqb c) x k
  | Digit => matchChar isDigit x k
  | Dot => matchChar (fun h => negb (isLineTerminator h)) x k
  | Bol => if Nat.eqb (pos x) 0 then k x else None
  | Eol => if isEmpty (rest x) then k x else None
  | Group n r' => matcher r' x (fun y => k (setCap n x y))
  | Seq a b => matcher a x (fun y => matcher b y k)
  | Alt a b => orElse (matcher a x k) (matcher b x k)
  | Opt a =>
    orElse
      (matcher a (clearCaps a x)
         (fun y => if Nat.eqb (pos y) (pos x) then None else k y))
      (k x)
  | Star a =>
    (fix rounds (fuel : nat) (x : mstate) : option mstate :=
       match fuel with
       | O => k x
       | S fuel' =>
         orElse
           (matcher a (clearCaps a x)
              (fun y => if Nat.eqb (pos y) (pos x) then None else rounds fuel' y))
           (k x)
       end) (List.length (rest x)) x
  | Plus a =>
    matcher a (clearCaps a x)
      (fun y =>
         (fix rounds (fuel : nat) (x : mstate) : option mstate :=
            match fuel with
            | O => k x
            | S fuel' =>
              orElse
                (matcher a (clearCaps a x)
                   (fun y => if Nat.eqb (pos y) (pos x) then None else rounds fuel' y))
                (k x)
            end) (List.length (rest y)) y)
  end.

(** [re.exec(s)] of a pattern without flags: the first index from 0 at
    which the pattern matches. *)
Fixpoint execFrom (r : regex) (i : nat) (s : jsstring) : option mstate :=
  match matcher r {| pos := i; rest := s; caps := [] |} Some with
  | Some y => Some y
  | None =>
    match s with
    | _ :: t => execFrom r (S i) t
    | [] => None
    end
  end.

Fixpoint lookupCap (n : nat) (cs : list (nat * jsstring)) : option jsstring :=
  match cs with
  | (m, v) :: cs' => if Nat.eqb m n then Some v else lookupCap n cs'
  | [] => None
  end.

Inductive RegExp :=
| Pattern (r : regex)
| HostPattern (exec : jsstring -> option (option jsstring)).

(** [re.exec(s)] as far as the callers read it: [None] for [null],
    otherwise [match[1]] ([None] for [undefined]). *)
Definition exec (re : RegExp) (s : jsstring) : option (option jsstring) :=
  match re with
  | Pattern r => option_map (fun y => lookupCap 1 (caps y)) (execFrom r 0 s)
  | HostPattern f => f s
  end.

Section RegExpConstructor.
Context {host : Host}.

(** [new RegExp(source)]. *)
Definition newRegExp (source : jsstring) : result RegExp :=
  match tokenize source with
  | Some ts =>
    match parsePattern ts with
    | Some r => Ok (Pattern r)
    | None => Throw SyntaxError
    end
  | None =>
    match hostRegExp source with
    | Some f => Ok (HostPattern f)
    | None => Throw SyntaxError
    end
  end.

End RegExpConstructor.

(** ** isNameMeaningful

    The pattern is the class [[<delimiter>\s]] with the delimiter put in as
    it is.  Inside a class a character, a hyphen and a character make a
    range (a SyntaxError when it is out of order), a leading [^] negates the
    class, and a hyphen that is last before [\s] stands for itself.  A
    delimiter with a backslash or a closing bracket changes what the source
    is a pattern of, and is the host's. *)

Inductive classItem :=
| One (c : N)
| Range (lo hi : N).

Fixpoint classRanges (body : jsstring) : option (list classItem) :=
  match body with
  | [] => Some []
  | a :: t =>
    match t with
    | h :: b :: t' =>
      if N.eqb h (ch "-") then
        if N.ltb b a then None
        else option_map (cons (Range a b)) (classRanges t')
      else option_map (cons (One a)) (classRanges t)
    | _ => option_map (cons (One a)) (classRanges t)
    end
  end.

Definition inItem (c : N) (it : classItem) : bool :=
  match it with
  | One a => N.eqb c a
  | Range lo hi => inRange lo hi c
  end.

(** Membership in the items or in [\s]. *)
Definition inClass (items : list classItem) (c : N) : bool :=
  existsb (inItem c) items || isWhiteSpace c.

Section Meaningful.
Context {host : Host}.

Definition isNameMeaningful (name delimiter : jsstring) : result bool :=
  if existsb (fun c => N.eqb c (ch "\") || N.eqb c (ch "]")) delimiter then
    match hostReplace (str "[" ++ delimiter ++ str "\s]") with
    | Some replace => Ok (negb (isEmpty (replace name)))
    | None => Throw SyntaxError
    end
  else
    let negated := startsWith (ch "^") delimiter in
    match classRanges (if negated then tl delimiter else delimiter) with
    | None => Throw SyntaxError
    | Some items =>
      let meaningless c := xorb negated (inClass items c) in
      Ok (negb (isEmpty (filter (fun c => negb (meaningless c)) name)))
    end.

End Meaningful.

(** ** deduplicateNewName *)

(** What the loop over the directory listing keeps. *)
Record scan := {
  isNewNameExist : bool;
  dupNameNumbers : list number
}.

Section Deduplicate.
Context {host : Host}.

Definition dupNameRegexSource (settings : PluginSettings)
  (newNameStem actualExtension : jsstring) : jsstring :=
  let delimiterEscaped := escapeRegExp (dupNumberDelimiter settings) in
  let newNameStemEscaped := escapeRegExp newNameStem in
  if dupNumberAtStart settings then
    str "^(\d+)" ++ delimiterEscaped ++ newNameStemEscaped
      ++ str "\." ++ actualExtension ++ str "$"
  else
    str "^" ++ newNameStemEscaped ++ delimiterEscaped
      ++ str "(\d+)\." ++ actualExtension ++ str "$".

(** One turn of the loop over [listed.files]. *)
Definition visit (file : TFile.t) (exactFileName : jsstring)
  (dupNameRegex : RegExp) (st : scan) (filePath : jsstring) : scan :=
  let siblingName := path.basename filePath in
  if streq (TFile.name file) siblingName then st
  else if streq siblingName exactFileName then
    {| isNewNameExist := true; dupNameNumbers := dupNameNumbers st |}
  else
    match exec dupNameRegex siblingName with
    | Some (Some m1) =>
      if isEmpty m1 then st
      else
        let num := parseInt m1 in
        if isNaN num then st
        else {| isNewNameExist := isNewNameExist st;
                dupNameNumbers := dupNameNumbers st ++ [num] |}
    | _ => st
    end.

Definition scanSiblings (file : TFile.t) (exactFileName : jsstring)
  (dupNameRegex : RegExp) (listed : list jsstring) : scan :=
  fold_left (visit file exactFileName dupNameRegex) listed
    {| isNewNameExist := false; dupNameNumbers := [] |}.

(** The extension the new name gets: the one parsed from it, or the
    file's own. *)
Definition actualExtensionOf (newName : jsstring) (file : TFile.t) : jsstring :=
  let newNameExt := Parsed.extension (parseFileName newName) in
  if isEmpty newNameExt then TFile.extension file else newNameExt.

(** Whether the spread call [f(...l)] passes its arguments: the engine
    throws a RangeError when they are more than [maxArguments]. *)
Definition spreads {A : Type} (l : list A) : bool :=
  (N.of_nat (List.length l) <=? Npos maxArguments)%N.

(** The value of [newNumber] when the call of [Math.max] returns. *)
Definition newNumberOf (dupNameNumbers : list number) : number :=
  match dupNameNumbers with
  | [] => Finite 1
  | _ :: _ => add (Math_max dupNameNumbers) (Finite 1)
  end.

(** [dupNameNumbers.length > 0 ? Math.max(...dupNameNumbers) + 1 : 1]. *)
Definition newNumber (dupNameNumbers : list number) : result number :=
  match dupNameNumbers with
  | [] => Ok (Finite 1)
  | _ :: _ =>
    if spreads dupNameNumbers
    then Ok (add (Math_max dupNameNumbers) (Finite 1))
    else Throw RangeError
  end.

(** [listed] is [listed.files] of the directory listing. *)
Definition deduplicateNewName (settings : PluginSettings)
  (listed : list jsstring) (newName : jsstring) (file : TFile.t)
  : result NameObj.t :=
  let newNameStem := Parsed.stem (parseFileName newName) in
  let actualExtension := actualExtensionOf newName file in
  let delimiter := dupNumberDelimiter settings in
  let exactFileName := newNameStem ++ str "." ++ actualExtension in
  match newRegExp (dupNameRegexSource settings newNameStem actualExtension) with
  | Throw e => Throw e
  | Ok dupNameRegex =>
    let st := scanSiblings file exactFileName dupNameRegex listed in
    let returned (finalName : jsstring) :=
      Ok {| NameObj.name := finalName;
            NameObj.stem := newNameStem;
            NameObj.extension := actualExtension |} in
    if isNewNameExist st || dupNumberAlways settings then
      match newNumber (dupNameNumbers st) with
      | Throw e => Throw e
      | Ok newNumber =>
        returned
          (if dupNumberAtStart settings then
             numberToString newNumber ++ delimiter ++ newNameStem
               ++ str "." ++ actualExtension
           else
             newNameStem ++ delimiter ++ numberToString newNumber
               ++ str "." ++ actualExtension)
      end
    else returned exactFileName
  end.

End Deduplicate.

(** ** The settings tab

    Each control of the tab has a handler that stores the new value in the
    settings; the one of the delimiter sanitizes it first, and turning one
    conversion on turns the other off. *)

Inductive change :=
| ImageNamePattern (value : jsstring)
| DupNumberAtStart (value : bool)
| DupNumberDelimiter (value : jsstring)
| DupNumberAlways (value : bool)
| AutoRename (value : bool)
| HandleAllAttachments (value : bool)
| ExcludeExtensionPattern (value : jsstring)
| PngToJpeg (value : bool)
| PngToWebp (value : bool)
| Quality (value : jsstring)
| DisableRenameNotice (value : bool).

Section SettingTab.
Context {host : Host}.

Definition onChange (c : change) (settings : PluginSettings) : PluginSettings :=
  let '(Build_PluginSettings pattern atStart delimiter always auto all exclude
          notice jpeg webp q) := settings in
  match c with
  | ImageNamePattern value =>
    Build_PluginSettings value atStart delimiter always auto all exclude notice jpeg webp q
  | DupNumberAtStart value =>
    Build_PluginSettings pattern value delimiter always auto all exclude notice jpeg webp q
  | DupNumberDelimiter value =>
    Build_PluginSettings pattern atStart (sanitizer.delimiter value) always auto all
      exclude notice jpeg webp q
  | DupNumberAlways value =>
    Build_PluginSettings pattern atStart delimiter value auto all exclude notice jpeg webp q
  | AutoRename value =>
    Build_PluginSettings pattern atStart delimiter always value all exclude notice jpeg webp q
  | HandleAllAttachments value =>
    Build_PluginSettings pattern atStart delimiter always auto value exclude notice jpeg webp q
  | ExcludeExtensionPattern value =>
    Build_PluginSettings pattern atStart delimiter always auto all value notice jpeg webp q
  | PngToJpeg value =>
    Build_PluginSettings pattern atStart delimiter always auto all exclude notice
      value (if value then false else webp) q
  | PngToWebp value =>
    Build_PluginSettings pattern atStart delimiter always auto all exclude notice
      (if value then false else jpeg) value q
  | Quality value =>
    Build_PluginSettings pattern atStart delimiter always auto all exclude notice jpeg webp value
  | DisableRenameNotice value =>
    Build_PluginSettings pattern atStart delimiter always auto all exclude value jpeg webp q
  end.

(** The settings the plugin can hold: the default ones, changed through
    the tab. *)
Inductive reachable : PluginSettings -> Prop :=
| reach_default : reachable DEFAULT_SETTINGS
| reach_change (c : change) (settings : PluginSettings) :
    reachable settings -> reachable (onChange c settings).

End SettingTab.

(** * The rest of the plugin

    What happens around the name logic: the handler of the vault's [create]
    event, the generation of the name from the template, the renaming itself
    and the modal that asks for a name. *)

(** ** Exceptions *)

(** What the plugin's functions throw: the error of a host function they
    call, or an [Error] of their own with its message. *)
Inductive exception :=
| Native (e : error)
| Error (message : jsstring).

Inductive outcome (A : Type) :=
| Returns (a : A)
| Throws (e : exception).
Arguments Returns {A} a.
Arguments Throws {A} e.

(** ** RegExp.prototype.test *)

(** [re.test(s)] of a pattern without flags. *)
Definition test (re : RegExp) (s : jsstring) : bool :=
  match exec re s with
  | Some _ => true
  | None => false
  end.

(** [s.startsWith(prefix)]. *)
Fixpoint startsWithText (s prefix : jsstring) {struct prefix} : bool :=
  match prefix with
  | [] => true
  | p :: prefix' =>
    match s with
    | c :: s' => N.eqb c p && startsWithText s' prefix'
    | [] => false
    end
  end.

(** ** The vault's create event *)

Definition PASTED_IMAGE_PREFIX : jsstring := str "Pasted image ".

(** A [TAbstractFile] is a [TFile], here with the creation time of its
    [stat] in milliseconds, or a folder. *)
Inductive TAbstractFile :=
| OfTFile (file : TFile.t) (ctime : Z)
| OfTFolder.

Definition isPastedImage (file : TAbstractFile) : bool :=
  match file with
  | OfTFile file _ => startsWithText (TFile.name file) PASTED_IMAGE_PREFIX
  | OfTFolder => false
  end.

Definition isMarkdownFile (file : TAbstractFile) : bool :=
  match file with
  | OfTFile file _ => streq (TFile.extension file) (str "md")
  | OfTFolder => false
  end.

(** What the handler does with a created file: nothing, or
    [startRenameProcess(file, autoRename)]. *)
Inductive handling :=
| Ignored
| Started (file : TFile.t) (autoRename : bool).

Section CreateEvent.
Context {host : Host}.

Definition testExcludeExtension (settings : PluginSettings) (file : TFile.t)
  : result bool :=
  let pattern := excludeExtensionPattern settings in
  if isEmpty pattern then Ok false
  else
    match newRegExp pattern with
    | Throw e => Throw e
    | Ok re => Ok (test re (TFile.extension file))
    end.

(** The handler registered in [onload]; [now] is [new Date().getTime()].
    Both times are integers of milliseconds. *)
Definition onCreate (settings : PluginSettings) (now : Z) (file : TAbstractFile)
  : result handling :=
  match file with
  | OfTFolder => Ok Ignored
  | OfTFile tfile ctime =>
    let timeGapMs := (now - ctime)%Z in
    if (1000 <? timeGapMs)%Z then Ok Ignored
    else if isMarkdownFile file then Ok Ignored
    else if isPastedImage file then Ok (Started tfile (autoRename settings))
    else if handleAllAttachments settings then
      match testExcludeExtension settings tfile with
      | Throw e => Throw e
      | Ok true => Ok Ignored
      | Ok false => Ok (Started tfile (autoRename settings))
      end
    else Ok Ignored
  end.

End CreateEvent.

(** ** convertImageIfNeeded *)

Section Convert.
Context {host : Host}.

(** The format [convertImageIfNeeded] converts the file's content to, if
    it converts it. *)
Definition conversionFormat (file : TFile.t) (settings : PluginSettings)
  : option jsstring :=
  if negb (streq (toLowerCase (TFile.extension file)) (str "png")) then None
  else if negb (pngToJpeg settings) && negb (pngToWebp settings) then None
  else Some (if pngToWebp settings then str "webp" else str "jpeg").

End Convert.

(** ** generateNewName *)

Module HeadingCache.
Record t := { heading : jsstring; level : Z }.
End HeadingCache.

(** The active file, as far as it is read: [basename], [parent?.name]
    and [path]. *)
Module ActiveFile.
Record t := {
  basename : jsstring;
  parentName : option jsstring;
  path : jsstring
}.
End ActiveFile.

Record TemplateVars := {
  imageNameKey : jsstring;
  fileName : jsstring;
  dirName : jsstring;
  firstHeading : jsstring
}.

(** The template module and the frontmatter of the metadata cache:
    [generateNewName] hands the frontmatter to [renderTemplate] and reads
    one key of it. *)
Class Template := {
  FrontMatterCache : Type;
  (** [frontmatter.imageNameKey || ''] *)
  imageNameKeyOf : FrontMatterCache -> jsstring;
  renderTemplate : jsstring -> TemplateVars -> option FrontMatterCache -> jsstring
}.

(** A template module that renders every pattern as the name of the active
    file, for running the model. *)
Definition fileNameTemplate : Template := {|
  FrontMatterCache := unit;
  imageNameKeyOf := fun _ => [];
  renderTemplate := fun _ vars _ => fileName vars
|}.

(** What [generateNewName] returns. *)
Module Generated.
Record t := {
  stem : jsstring;
  newName : jsstring;
  isMeaningful : bool;
  extension : jsstring
}.
End Generated.

(** What [renameFile] asks of the host when it does not throw: the format
    the content is converted to, the path the file is renamed to and the
    text of the notice. *)
Module Renaming.
Record t := {
  newName : jsstring;
  newPath : jsstring;
  convertedTo : option jsstring;
  notice : option jsstring
}.
End Renaming.

(** The text of the first heading of level 1. *)
Fixpoint firstOfLevelOne (headings : list HeadingCache.t) : jsstring :=
  match headings with
  | [] => []
  | heading :: rest =>
    if (HeadingCache.level heading =? 1)%Z then HeadingCache.heading heading
    else firstOfLevelOne rest
  end.

Definition getFirstHeading (headings : option (list HeadingCache.t)) : jsstring :=
  match headings with
  | Some headings => firstOfLevelOne headings
  | None => []
  end.

(** How [startRenameProcess] ends. *)
Inductive started :=
| NoActiveFile
| Renamed (r : Renaming.t)
| ModalOpened (stem : jsstring)
| Failed (e : exception).

Section Rename.
Context {host : Host} {template : Template}.

(** The metadata the cache has of the active file. *)
Record CachedMetadata := {
  frontmatter : option FrontMatterCache;
  headings : option (list HeadingCache.t)
}.

Definition generateNewName (settings : PluginSettings) (file : option TFile.t)
  (activeFile : option ActiveFile.t) (fileCache : option CachedMetadata)
  : result Generated.t :=
  match file, activeFile with
  | Some file, Some activeFile =>
    let frontmatter :=
      match fileCache with
      | Some cache => frontmatter cache
      | None => None
      end in
    let imageNameKey :=
      match frontmatter with
      | Some f => imageNameKeyOf f
      | None => []
      end in
    let firstHeading :=
      match fileCache with
      | Some cache => getFirstHeading (headings cache)
      | None => []
      end in
    let templateVars := {|
      imageNameKey := imageNameKey;
      fileName := ActiveFile.basename activeFile;
      dirName := match ActiveFile.parentName activeFile with
                 | Some name => name
                 | None => []
                 end;
      firstHeading := firstHeading
    |} in
    let stem := renderTemplate (imageNamePattern settings) templateVars frontmatter in
    let actualExtension := getActualExtension (TFile.extension file) settings in
    match isNameMeaningful stem (dupNumberDelimiter settings) with
    | Throw e => Throw e
    | Ok isMeaningful =>
      Ok {| Generated.stem := stem;
            Generated.newName := stem ++ str "." ++ actualExtension;
            Generated.isMeaningful := isMeaningful;
            Generated.extension := actualExtension |}
    end
  | _, _ =>
    Ok {| Generated.stem := []; Generated.newName := [];
          Generated.isMeaningful := false; Generated.extension := [] |}
  end.

(** The name [renameFile] hands to [deduplicateNewName]: the sanitized input
    if it has an extension, and with the file's extension added if not. *)
Definition nameToDedup (settings : PluginSettings) (file : TFile.t)
  (inputNewName : jsstring) : jsstring :=
  let extension := Parsed.extension (parseFileName inputNewName) in
  if isEmpty extension then
    let actualExtension := getActualExtension (TFile.extension file) settings in
    inputNewName ++ str "." ++ actualExtension
  else inputNewName.

(** [renameFile] up to its calls of the host: [listed] is the listing of the
    file's directory and [parentPath] is [file.parent.path].  [Returns] is
    the request the [try] block makes to the host (conversion, rename, link
    update, notice).  What the host does with it is not part of the model:
    when one of these calls fails, the [catch] block throws a third Error of
    the plugin's own, "Failed to rename ..." with the message of the
    failure. *)
Definition renameFile (settings : PluginSettings) (listed : list jsstring)
  (file : option TFile.t) (parentPath inputNewName : jsstring)
  : outcome Renaming.t :=
  match file with
  | None => Throws (Error (str "Invalid file or new name"))
  | Some file =>
    if isEmpty inputNewName then Throws (Error (str "Invalid file or new name"))
    else
      let inputNewName := sanitizer.filename inputNewName in
      if isEmpty inputNewName then
        Throws (Error (str "New name cannot be empty after sanitization"))
      else
        match deduplicateNewName settings listed
                (nameToDedup settings file inputNewName) file with
        | Throw e => Throws (Native e)
        | Ok obj =>
          let newName := NameObj.name obj in
          let originName := TFile.name file in
          Returns {|
            Renaming.newName := newName;
            Renaming.newPath := path.join [parentPath; newName];
            Renaming.convertedTo := conversionFormat file settings;
            Renaming.notice :=
              if disableRenameNotice settings then None
              else Some (str "Renamed " ++ originName ++ str " to " ++ newName)
          |}
        end
  end.

(** [startRenameProcess]: [activeFile] is what [getActiveFile] returns and
    [fileCache] the metadata of that file. *)
Definition startRenameProcess (settings : PluginSettings)
  (listed : list jsstring) (file : TFile.t) (parentPath : jsstring)
  (activeFile : option ActiveFile.t) (fileCache : option CachedMetadata)
  (autoRename : bool) : started :=
  match activeFile with
  | None => NoActiveFile
  | Some _ =>
    match generateNewName settings (Some file) activeFile fileCache with
    | Throw e => Failed (Native e)
    | Ok generated =>
      if Generated.isMeaningful generated && autoRename then
        match renameFile settings listed (Some file) parentPath
                (Generated.newName generated) with
        | Throws e => Failed e
        | Returns r => Renamed r
        end
      else
        ModalOpened (if Generated.isMeaningful generated
                     then Generated.stem generated else [])
    end
  end.

End Rename.

(** ** The rename modal *)

Module Modal.

(** The modal's variables: the stem, the lock of the input method
    composition, whether the error line is shown, and the new path it
    displays. *)
Record t := {
  stem : jsstring;
  lock : bool;
  errorShown : bool;
  shownPath : jsstring
}.

Inductive event :=
| Change (value : jsstring)
| CompositionStart
| CompositionEnd
| KeyDown (key : jsstring)
| ClickRename
| ClickCancel.

Inductive effect :=
| RenameFunc (name : jsstring)
| Close.

Section OnOpen.
Context {host : Host}.
Variable settings : PluginSettings.
Variable src : TFile.t.
Variable parentPath : jsstring.

Definition actualExtension : jsstring :=
  getActualExtension (TFile.extension src) settings.

Definition getNewName (stem : jsstring) : jsstring :=
  stem ++ str "." ++ actualExtension.

Definition getNewPath (stem : jsstring) : jsstring :=
  path.join [parentPath; getNewName stem].

(** The modal as [onOpen] leaves it. *)
Definition opened (stem : jsstring) : t :=
  {| stem := stem; lock := false; errorShown := false;
     shownPath := getNewPath stem |}.

(** The Rename button, and the Enter key outside a composition. *)
Definition submit (s : t) : t * list effect :=
  if isEmpty (stem s) then
    ({| stem := stem s; lock := lock s; errorShown := true;
        shownPath := shownPath s |}, [])
  else (s, [RenameFunc (getNewName (stem s)); Close]).

Definition step (s : t) (e : event) : t * list effect :=
  match e with
  | Change value =>
    let stem := sanitizer.filename value in
    ({| stem := stem; lock := lock s; errorShown := errorShown s;
        shownPath := getNewPath stem |}, [])
  | CompositionStart =>
    ({| stem := stem s; lock := true; errorShown := errorShown s;
        shownPath := shownPath s |}, [])
  | CompositionEnd =>
    ({| stem := stem s; lock := false; errorShown := errorShown s;
        shownPath := shownPath s |}, [])
  | KeyDown key =>
    if streq key (str "Enter") && negb (lock s) then submit s else (s, [])
  | ClickRename => submit s
  | ClickCancel => (s, [Close])
  end.

(** The effects of a sequence of events, in order. *)
Fixpoint run (s : t) (events : list event) : list effect :=
  match events with
  | [] => []
  | e :: events' => let (s', out) := step s e in out ++ run s' events'
  end.

End OnOpen.
End Modal.

(** ** batchRenameAllImages: which files are images *)

(** [Canonicalize] of a pattern with the flag [i] and without the flag [u]:
    the character in upper case.  A character above U+007F never becomes
    one below, so against a pattern of ASCII characters it is enough to
    leave it as it is. *)
Definition canonicalize (c : N) : N :=
  if inRange 97 122 c then (c - 32)%N else c.

Fixpoint ignoreCase (r : regex) : regex :=
  match r with
  | Char c => Char (canonicalize c)
  | Group n a => Group n (ignoreCase a)
  | Seq a b => Seq (ignoreCase a) (ignoreCase b)
  | Alt a b => Alt (ignoreCase a) (ignoreCase b)
  | Star a => Star (ignoreCase a)
  | Plus a => Plus (ignoreCase a)
  | Opt a => Opt (ignoreCase a)
  | Empty | Digit | Dot | Bol | Eol => r
  end.

(** [re.test(s)] of a pattern of ASCII characters with the flag [i]. *)
Definition testIgnoreCase (r : regex) (s : jsstring) : bool :=
  test (Pattern (ignoreCase r)) (map canonicalize s).

(** [extPatternRegex] of [batchRenameAllImages], without its flag. *)
Definition extPatternRegex : regex :=
  Eval vm_compute in
    match tokenize (str "jpe?g|png|gif|tiff|webp") with
    | Some ts =>
      match parsePattern ts with
      | Some r => r
      | None => Empty
      end
    | None => Empty
    end.

(** Whether [batchRenameAllImages] takes a file of this extension for an
    image. *)
Definition isImageExtension (extension : jsstring) : bool :=
  testIgnoreCase extPatternRegex extension.

(** ** updateLinkInEditor *)

(** [s.indexOf(search)]. *)
Fixpoint indexOf (s search : jsstring) : option nat :=
  if startsWithText s search then Some 0%nat
  else
    match s with
    | _ :: t => option_map S (indexOf t search)
    | [] => None
    end.

(** [s.includes(search)]. *)
Definition includes (s search : jsstring) : bool :=
  match indexOf s search with
  | Some _ => true
  | None => false
  end.

(** [GetSubstitution] for a match without captures: [$$] is a dollar sign,
    [$&] the matched text, [$`] the text before it and [$'] the text after
    it; a dollar sign before anything else stands for itself. *)
Fixpoint getSubstitution (matched before after template : jsstring) : jsstring :=
  match template with
  | [] => []
  | c :: t =>
    if N.eqb c (ch "$") then
      match t with
      | d :: t' =>
        if N.eqb d (ch "$") then
          ch "$" :: getSubstitution matched before after t'
        else if N.eqb d (ch "&") then
          matched ++ getSubstitution matched before after t'
        else if N.eqb d (ch "`") then
          before ++ getSubstitution matched before after t'
        else if N.eqb d (ch "'") then
          after ++ getSubstitution matched before after t'
        else c :: getSubstitution matched before after t
      | [] => [c]
      end
    else c :: getSubstitution matched before after t
  end.

(** [s.replace(search, replaceValue)] with two strings: the first
    occurrence is replaced. *)
Definition replace (s search replaceValue : jsstring) : jsstring :=
  match indexOf s search with
  | Some i =>
    let before := firstn i s in
    let after := skipn (i + List.length search) s in
    before ++ getSubstitution search before after replaceValue ++ after
  | None => s
  end.

(** [updateLinkInEditor]: the text the line at the cursor is replaced
    with, if it is replaced; the two link texts are the host's. *)
Definition replacedLine (line oldLinkText newLinkText : jsstring)
  : option jsstring :=
  if includes line oldLinkText then Some (replace line oldLinkText newLinkText)
  else None.

(** ** createElementTree *)

(** A loop that pushes what [f] returns for each element, in a state
    that [f] changes. *)
Fixpoint forEach {A B S : Type} (f : A -> S -> B * S) (l : list A) (s : S)
  : list B * S :=
  match l with
  | [] => ([], s)
  | a :: l' =>
    let (b, s) := f a s in
    let (bs, s) := forEach f l' s in
    (b :: bs, s)
  end.

Section ElementTree.

(** The host's elements, the information an element is created from, and
    the document the creation changes. *)
Variable HTMLElement DomElementInfo Document : Type.

(** [parent.createEl(tag, info)]. *)
Variable createEl :
  HTMLElement -> jsstring -> DomElementInfo -> Document -> HTMLElement * Document.

#[local] Unset Elimination Schemes.

Inductive ElementTreeOptions :=
| Options (tag : jsstring) (info : DomElementInfo)
    (children : list ElementTreeOptions).

Inductive ElementTree :=
| Tree (el : HTMLElement) (children : list ElementTree).

Fixpoint createElementTree (rootEl : HTMLElement) (opts : ElementTreeOptions)
  (document : Document) : ElementTree * Document :=
  match opts with
  | Options tag info children =>
    let (el, document) := createEl rootEl tag info document in
    let (trees, document) :=
      forEach (createElementTree el) children document in
    (Tree el trees, document)
  end.

(** The tree has the shape of the options. *)
Inductive mirrors : ElementTree -> ElementTreeOptions -> Prop :=
| mirrors_node el trees tag info children :
    Forall2 mirrors trees children ->
    mirrors (Tree el trees) (Options tag info children).
#[local] Set Elimination Schemes.

End ElementTree.

(** * Vocabulary of the statements *)

Section Vocabulary.
Context {host : Host}.

Definition dot : N := ch ".".

(** An extension with no syntax character of the pattern language. *)
Definition literalExtension (ext : jsstring) : bool :=
  forallb (fun c => negb (isSyntaxCharacter c)) ext.

Definition digitsGroup : regex := Group 1 (Seq (Plus Digit) Empty).

(** The pattern the source denotes, for a literal extension. *)
Definition dupNamePattern (settings : PluginSettings)
  (newNameStem actualExtension : jsstring) : regex :=
  let delimiter := dupNumberDelimiter settings in
  if dupNumberAtStart settings then
    seqOf (rev (Bol :: digitsGroup
                :: map Char (delimiter ++ newNameStem ++ dot :: actualExtension)
                ++ [Eol]))
  else
    seqOf (rev (Bol :: map Char (newNameStem ++ delimiter)
                ++ digitsGroup :: Char dot :: map Char actualExtension
                ++ [Eol])).

Definition pushChars (s : jsstring) (f : frame) : frame :=
  {| alts := alts f; terms := rev (map Char s) ++ terms f; number_ := number_ f |}.

Definition finiteBelow (bound : Z) (x : number) : Prop :=
  exists z, x = Finite z /\ (0 <= z < bound)%Z.

(** The number a colliding name gets, as an integer: one more than the
    largest collected number, or 1 when none was collected. *)
Definition nextNumber (numbers : list number) (n : Z) : Prop :=
  match numbers with
  | [] => n = 1%Z
  | _ :: _ =>
    In (Finite (n - 1)) numbers
    /\ forall z, In (Finite z) numbers -> (z <= n - 1)%Z
  end.

(** The name with its number, at the start or at the end. *)
Definition numberedName (settings : PluginSettings) (newNameStem ext : jsstring)
  (n : Z) : jsstring :=
  if dupNumberAtStart settings then
    decimal (Z.to_N n) ++ dupNumberDelimiter settings ++ newNameStem
      ++ str "." ++ ext
  else
    newNameStem ++ dupNumberDelimiter settings ++ decimal (Z.to_N n)
      ++ str "." ++ ext.

(** Another listed file carries the exact name. *)
Definition nameTaken (file : TFile.t) (listed : list jsstring) (exact : jsstring)
  : Prop :=
  exists p, In p listed /\ path.basename p <> TFile.name file
            /\ path.basename p = exact.

(** A file as the editor names a pasted image. *)
Definition pastedImage : TFile.t :=
  {| TFile.name := str "Pasted image 20240101.png"; TFile.extension := str "png" |}.

Definition mainCpp : TFile.t :=
  {| TFile.name := str "main.c++"; TFile.extension := str "c++" |}.

Definition named (name stem ext : string) : result NameObj.t :=
  Ok {| NameObj.name := str name; NameObj.stem := str stem;
        NameObj.extension := str ext |}.

(** A state of the matcher. *)
Definition state (p : nat) (s : jsstring) (c : list (nat * jsstring)) : mstate :=
  {| pos := p; rest := s; caps := c |}.

(** The rounds of a greedy [*], as [matcher] runs them. *)
Definition rounds (a : regex) (k : mstate -> option mstate)
  : nat -> mstate -> option mstate :=
  fix rounds (fuel : nat) (x : mstate) : option mstate :=
    match fuel with
    | O => k x
    | S fuel' =>
      orElse
        (matcher a (clearCaps a x)
           (fun y => if Nat.eqb (pos y) (pos x) then None else rounds fuel' y))
        (k x)
    end.

(** A pattern of the duplicate kind: the text [pre], a group of digits,
    the text [post], anchored at both ends. *)
Definition numberedPattern (pre post : jsstring) : regex :=
  fold_right Seq Empty
    (Bol :: map Char pre ++ digitsGroup :: map Char post ++ [Eol]).

(** [name] is [pre], the digits [ds] and [post]. *)
Definition numberedAs (pre post name ds : jsstring) : Prop :=
  ds <> [] /\ forallb isDigit ds = true /\ name = pre ++ ds ++ post.

(** What stands before and after the number in a duplicate's name. *)
Definition beforeNumber (settings : PluginSettings) (newNameStem : jsstring)
  : jsstring :=
  if dupNumberAtStart settings then []
  else newNameStem ++ dupNumberDelimiter settings.

Definition afterNumber (settings : PluginSettings) (newNameStem ext : jsstring)
  : jsstring :=
  if dupNumberAtStart settings
  then dupNumberDelimiter settings ++ newNameStem ++ dot :: ext
  else dot :: ext.

(** The listed file [p] adds the number [x] to the collected ones. *)
Definition contributes (file : TFile.t) (exact : jsstring) (re : RegExp)
  (p : jsstring) (x : number) : Prop :=
  path.basename p <> TFile.name file
  /\ path.basename p <> exact
  /\ exists m1, exec re (path.basename p) = Some (Some m1)
                /\ m1 <> [] /\ x = parseInt m1 /\ isNaN x = false.

(** The listed file [p] is a numbered sibling with the digits [ds]: it is
    not the renamed file, and its name is the new name with [ds] put in at
    the configured side. *)
Definition numberedSibling (settings : PluginSettings) (file : TFile.t)
  (newNameStem ext : jsstring) (p ds : jsstring) : Prop :=
  path.basename p <> TFile.name file
  /\ numberedAs (beforeNumber settings newNameStem)
       (afterNumber settings newNameStem ext) (path.basename p) ds.

(** The integer [z] as binary64 in the library's specification of IEEE-754
    arithmetic, and the number of such a double. *)
Definition binary64 (z : Z) : spec_float := binary_normalize 53 1024 z 0 false.

Definition ofSpecFloat (f : spec_float) : number :=
  match f with
  | S754_zero _ => Finite 0
  | S754_infinity s => Infinity s
  | S754_nan => NaN
  | S754_finite s m e =>
    let v := if (0 <=? e)%Z then (Zpos m * 2 ^ e)%Z else (Zpos m / 2 ^ (- e))%Z in
    Finite (if s then - v else v)
  end.

(** No hyphen of the delimiter stands between two characters. *)
Fixpoint innerHyphenFree (d : jsstring) : bool :=
  match d with
  | _ :: t =>
    match t with
    | h :: _ :: _ => negb (N.eqb h (ch "-")) && innerHyphenFree t
    | _ => true
    end
  | [] => true
  end.

(** A character of the name that is neither one of the delimiter nor
    white space. *)
Definition hasOtherContent (name delimiter : jsstring) : bool :=
  existsb (fun c => negb (existsb (N.eqb c) delimiter || isWhiteSpace c)) name.

End Vocabulary.

(** Settings of the closed instances. *)
Definition prefixSettings : PluginSettings :=
  onChange (host := asciiHost) (DupNumberAtStart true) DEFAULT_SETTINGS.

Definition webpSettings : PluginSettings :=
  onChange (host := asciiHost) (PngToWebp true) DEFAULT_SETTINGS.

(** * Vocabulary of the statements about the rest of the plugin *)

(** The parts [path.join] joins: the kept commands, after an empty one when
    the first command is empty. *)
Definition newParts (partSegments : list jsstring) : list jsstring :=
  let parts := flat_map (path.split (ch "/")) partSegments in
  match parts with
  | first :: _ =>
    if isEmpty first then [] :: filter path.pushed parts
    else filter path.pushed parts
  | [] => filter path.pushed parts
  end.

(** The pattern of a text taken literally. *)
Definition literal (s : jsstring) : regex := fold_right Seq Empty (map Char s).

(** [s] occurs in [subject]. *)
Definition occursIn (s subject : jsstring) : Prop :=
  exists a b, subject = a ++ s ++ b.

(** The numbers one listed file adds to the collected ones. *)
Definition contribution (file : TFile.t) (exactFileName : jsstring)
  (dupNameRegex : RegExp) (filePath : jsstring) : list number :=
  dupNameNumbers
    (visit file exactFileName dupNameRegex
       {| isNewNameExist := false; dupNameNumbers := [] |} filePath).

(** The characters of a text read by code point: a high surrogate followed
    by a low one is the code point of the pair, any other code unit (a
    surrogate that stands alone among them) is a character of its own. *)
Fixpoint codePoints (s : jsstring) : list N :=
  match s with
  | [] => []
  | c :: t =>
    match t with
    | d :: t' =>
      if isHighSurrogate c && isLowSurrogate d
      then codePoint c d :: codePoints t'
      else c :: codePoints t
    | [] => [c]
    end
  end.

(** An ASCII letter or digit. *)
Definition isAlphaNumeric (c : N) : bool :=
  isDigit c || inRange 65 90 c || inRange 97 122 c.

(** A pattern of characters, groups, alternatives and optional parts, and
    the texts it matches. *)
Fixpoint finite (r : regex) : bool :=
  match r with
  | Empty | Char _ => true
  | Group _ a | Opt a => finite a
  | Seq a b | Alt a b => finite a && finite b
  | _ => false
  end.

Fixpoint words (r : regex) : list jsstring :=
  match r with
  | Empty => [[]]
  | Char c => [[c]]
  | Group _ a => words a
  | Seq a b => flat_map (fun u => map (app u) (words b)) (words a)
  | Alt a b => words a ++ words b
  | Opt a => words a ++ [[]]
  | _ => []
  end.

(** A continuation whose success depends on the index and the input left
    alone. *)
Definition respects (k : mstate -> option mstate) : Prop :=
  forall y y', pos y = pos y' -> rest y = rest y' -> (k y = None <-> k y' = None).

Definition succeedsAt (k : mstate -> option mstate) (p : nat) (t : jsstring)
  : Prop :=
  k (state p t []) <> None.


(** The pattern the settings tab suggests for the exclusion. *)
Definition excludePlaceholder : jsstring := str "docx?|xlsx?|pptx?|zip|rar".

(** Inputs of the closed instances. *)
Definition zipSettings : PluginSettings :=
  onChange (host := asciiHost) (ExcludeExtensionPattern (str "zip"))
    (onChange (host := asciiHost) (HandleAllAttachments true) DEFAULT_SETTINGS).

Definition archive : TFile.t :=
  {| TFile.name := str "backup.gzip"; TFile.extension := str "gzip" |}.

Definition myNote : ActiveFile.t :=
  {| ActiveFile.basename := str "My note";
     ActiveFile.parentName := Some (str "notes");
     ActiveFile.path := str "notes/My note.md" |}.

Definition officeSettings : PluginSettings :=
  onChange (host := asciiHost) (ExcludeExtensionPattern excludePlaceholder)
    (onChange (host := asciiHost) (HandleAllAttachments true) DEFAULT_SETTINGS).

Definition report : TFile.t :=
  {| TFile.name := str "report.docm"; TFile.extension := str "docm" |}.

(** * Properties *)

(** Closes a goal whose hypothesis [H] puts a number that the context keeps
    out of range among listed constants. *)
Ltac none_of H := repeat (destruct H as [H|H]; [lia|]); destruct H.

Section Properties.
Context {host : Host}.

(** ** Strings *)

Lemma streq_eq (a b : jsstring) : streq a b = true <-> a = b.
Proof.
  revert b; induction a as [|x a IH]; intros [|y b]; simpl; split;
    try congruence; try discriminate.
  - intros H; apply andb_prop in H as [Hx Hs].
    apply N.eqb_eq in Hx; apply IH in Hs; congruence.
  - intros H; injection H as -> ->.
    rewrite N.eqb_refl; simpl; now apply IH.
Qed.

Lemma streq_refl (a : jsstring) : streq a a = true.
Proof. now apply streq_eq. Qed.

Lemma streq_neq (a b : jsstring) : a <> b -> streq a b = false.
Proof.
  intros H; destruct (streq a b) eqn:E; [|reflexivity].
  apply streq_eq in E; contradiction.
Qed.

Lemma lastIndexOfFrom_absent (c : N) (s : jsstring) (i found : Z) :
  ~ In c s -> lastIndexOfFrom c s i found = found.
Proof.
  revert i found; induction s as [|h t IH]; intros i found H; simpl; [reflexivity|].
  destruct (N.eqb_spec h c) as [->|Hne].
  - exfalso; apply H; now left.
  - apply IH; intros Hin; apply H; now right.
Qed.

Lemma lastIndexOfFrom_last (c : N) (a b : jsstring) (i found : Z) :
  ~ In c b ->
  lastIndexOfFrom c (a ++ c :: b) i found = (i + Z.of_nat (List.length a))%Z.
Proof.
  revert i found; induction a as [|h t IH]; intros i found H.
  - simpl; rewrite N.eqb_refl, lastIndexOfFrom_absent by assumption; lia.
  - cbn [app lastIndexOfFrom List.length]; rewrite IH by assumption; lia.
Qed.

Lemma clampIndex_inside (len i : Z) :
  (0 <= i <= len)%Z -> clampIndex len i = i.
Proof.
  intros H; unfold clampIndex.
  destruct (Z.ltb_spec i 0); lia.
Qed.

Lemma slice_prefix (a b : jsstring) :
  slice (a ++ b) 0 (Z.of_nat (List.length a)) = a.
Proof.
  unfold slice; rewrite length_app, !clampIndex_inside by lia.
  rewrite Z.sub_0_r, Nat2Z.id; change (Z.to_nat 0) with 0%nat.
  rewrite skipn_O, firstn_app, Nat.sub_diag, firstn_all, firstn_O.
  apply app_nil_r.
Qed.

Lemma sliceFrom_suffix (a b : jsstring) :
  sliceFrom (a ++ b) (Z.of_nat (List.length a)) = b.
Proof.
  unfold sliceFrom, slice; rewrite length_app, !clampIndex_inside by lia.
  rewrite Nat2Z.id, skipn_app, Nat.sub_diag, skipn_all, skipn_O, app_nil_l.
  replace (Z.to_nat _) with (List.length b) by lia.
  apply firstn_all.
Qed.

(** Every name either has no dot or splits at its last one. *)
Lemma last_dot_split (c : N) (s : jsstring) :
  ~ In c s \/ exists a b, s = a ++ c :: b /\ ~ In c b.
Proof.
  induction s as [|h t [IH|(a & b & -> & Hb)]].
  - left; intros [].
  - destruct (N.eq_dec h c) as [->|Hne].
    + right; exists [], t; split; [reflexivity|assumption].
    + left; intros [H|H]; [contradiction|now apply IH].
  - right; exists (h :: a), b; split; [reflexivity|assumption].
Qed.

(** ** parseFileName *)

Lemma parseFileName_no_dot (s : jsstring) :
  ~ In dot s -> parseFileName s = {| Parsed.stem := s; Parsed.extension := [] |}.
Proof.
  intros H; unfold parseFileName.
  destruct s as [|c s]; [reflexivity|]; cbn [isEmpty].
  unfold lastIndexOf; fold dot; rewrite lastIndexOfFrom_absent by assumption.
  reflexivity.
Qed.

Lemma parseFileName_last_dot (a b : jsstring) :
  ~ In dot b ->
  parseFileName (a ++ dot :: b)
  = {| Parsed.stem := a; Parsed.extension := toLowerCase b |}.
Proof.
  intros H; unfold parseFileName.
  assert (E : isEmpty (a ++ dot :: b) = false) by now destruct a.
  rewrite E; unfold lastIndexOf; fold dot.
  rewrite lastIndexOfFrom_last by assumption.
  rewrite Z.add_0_l.
  destruct a as [|c a].
  - cbn [List.length Z.of_nat Z.eqb app].
    change 1%Z with (Z.of_nat (List.length [dot])).
    change (dot :: b) with ([dot] ++ b).
    now rewrite sliceFrom_suffix.
  - destruct (Z.eqb_spec (Z.of_nat (List.length (c :: a))) (-1)) as [E1|_];
      [lia|].
    destruct (Z.eqb_spec (Z.of_nat (List.length (c :: a))) 0) as [E0|_];
      [simpl in E0; lia|].
    rewrite slice_prefix.
    replace (Z.of_nat (List.length (c :: a)) + 1)%Z
      with (Z.of_nat (List.length ((c :: a) ++ [dot])))
      by (rewrite length_app; simpl; lia).
    replace ((c :: a) ++ dot :: b) with (((c :: a) ++ [dot]) ++ b)
      by now rewrite <- app_assoc.
    now rewrite sliceFrom_suffix.
Qed.

(** C9.  [parseFileName] is total and splits a name at its last dot: the
    empty name gives an empty stem and extension; a name without a dot is
    its own stem, with an empty extension; a name whose last dot is its
    first character gives an empty stem and the rest, lower-cased, as
    extension; any other name gives the text before the last dot as stem and
    the text after it, lower-cased, as extension.  Every name falls under
    one of these cases. *)
Theorem parseFileName_splits_at_last_dot :
  parseFileName [] = {| Parsed.stem := []; Parsed.extension := [] |}
  /\ (forall s, ~ In dot s ->
        parseFileName s = {| Parsed.stem := s; Parsed.extension := [] |})
  /\ (forall b, ~ In dot b ->
        parseFileName (dot :: b)
        = {| Parsed.stem := []; Parsed.extension := toLowerCase b |})
  /\ (forall a b, ~ In dot b ->
        parseFileName (a ++ dot :: b)
        = {| Parsed.stem := a; Parsed.extension := toLowerCase b |})
  /\ (forall s, ~ In dot s \/ exists a b, s = a ++ dot :: b /\ ~ In dot b).
Proof.
  split; [reflexivity|].
  split; [exact parseFileName_no_dot|].
  split; [intros b; exact (parseFileName_last_dot [] b)|].
  split; [exact parseFileName_last_dot|].
  intros s; apply last_dot_split.
Qed.

(** ** getActualExtension *)

(** C7.  [getActualExtension] returns the lower-cased extension and
    changes it only when that is [png] and a conversion is enabled: the
    result is [webp] when the PNG-to-WebP flag is set, [jpeg] when only the
    PNG-to-JPEG flag is set, and the lower-cased extension in every other
    case. *)
Theorem getActualExtension_cases (extension : jsstring) (settings : PluginSettings) :
  (toLowerCase extension = str "png" -> pngToWebp settings = true ->
     getActualExtension extension settings = str "webp")
  /\ (toLowerCase extension = str "png" -> pngToWebp settings = false ->
      pngToJpeg settings = true ->
      getActualExtension extension settings = str "jpeg")
  /\ (toLowerCase extension <> str "png" ->
      getActualExtension extension settings = toLowerCase extension)
  /\ (pngToWebp settings = false -> pngToJpeg settings = false ->
      getActualExtension extension settings = toLowerCase extension)
  /\ (getActualExtension extension settings <> toLowerCase extension ->
      toLowerCase extension = str "png"
      /\ (pngToWebp settings = true \/ pngToJpeg settings = true)).
Proof.
  unfold getActualExtension.
  destruct (streq (toLowerCase extension) (str "png")) eqn:E.
  - apply streq_eq in E.
    destruct (pngToWebp settings), (pngToJpeg settings);
      repeat split; intros; try congruence; auto.
  - assert (Hne : toLowerCase extension <> str "png").
    { intros H; rewrite H, streq_refl in E; discriminate. }
    repeat split; intros; congruence.
Qed.

(** ** sanitizer.delimiter *)

(** C6.  [sanitizer.delimiter] never returns the empty string: it is ["-"]
    when sanitizing the input leaves nothing and the sanitized input
    otherwise; so the delimiter in the settings is never empty, whatever
    was entered in the tab. *)
Theorem delimiter_never_empty :
  (forall value : jsstring,
     sanitizer.delimiter value <> []
     /\ (sanitizer.filename value = [] -> sanitizer.delimiter value = str "-")
     /\ (sanitizer.filename value <> [] ->
         sanitizer.delimiter value = sanitizer.filename value))
  /\ (forall settings : PluginSettings,
        reachable settings -> dupNumberDelimiter settings <> []).
Proof.
  assert (H : forall value, sanitizer.delimiter value <> []).
  { intros value; unfold sanitizer.delimiter.
    destruct (sanitizer.filename value) eqn:E; simpl; discriminate. }
  split.
  - intros value; split; [apply H|]; unfold sanitizer.delimiter.
    split; [now intros ->|].
    destruct (sanitizer.filename value); [contradiction|reflexivity].
  - induction 1 as [|c [pattern atStart delimiter always auto all exclude
                         notice jpeg webp q] _ IH];
      [discriminate|].
    destruct c; try exact IH; apply H.
Qed.

(** X23.  The two conversions are never on together: starting from the
    default settings, whatever is changed in the settings tab, the PNG to
    JPEG and the PNG to WebP conversions are not both enabled. *)
Lemma conversions_exclusive (settings : PluginSettings) :
  reachable settings -> pngToJpeg settings && pngToWebp settings = false.
Proof.
  induction 1 as [|c [pattern atStart delimiter always auto all exclude
                       notice jpeg webp q] _ IH];
    [reflexivity|].
  destruct c as [| | | | | | |[]|[]| |]; cbn in *; try exact IH;
    try reflexivity; apply andb_false_r.
Qed.

(** ** sanitizer.filename *)

Lemma list_pairs_ind (P : jsstring -> Prop) :
  P [] -> (forall c, P [c]) ->
  (forall c d t, P t -> P (d :: t) -> P (c :: d :: t)) ->
  forall s, P s.
Proof.
  intros H0 H1 H2 s.
  enough (P s /\ forall c, P (c :: s)) by tauto.
  induction s as [|d t [IHt IHd]]; split; auto.
Qed.

Lemma allowed_not_surrogate (c : N) :
  sanitizer.allowed c = true -> isSurrogate c = false.
Proof.
  intros H; destruct (isSurrogate c) eqn:E; [|reflexivity].
  unfold isSurrogate, inRange in E; apply andb_prop in E as [E1 E2].
  apply N.leb_le in E1.
  unfold sanitizer.allowed, sanitizer.isLetter, isDigit, isSurrogate, inRange in H.
  replace (N.ltb c 128) with false in H by (symmetry; apply N.ltb_ge; lia).
  replace (N.leb 55296 c) with true in H by (symmetry; apply N.leb_le; lia).
  rewrite E2 in H; cbn [andb orb] in H.
  replace (N.leb c 57) with false in H by (symmetry; apply N.leb_gt; lia).
  rewrite andb_false_r in H; cbn [orb] in H.
  apply existsb_exists in H as (x & Hin & Hx).
  apply N.eqb_eq in Hx; subst x.
  vm_compute in Hin.
  none_of Hin.
Qed.

Lemma surrogate_halves (c : N) :
  isSurrogate c = false -> isHighSurrogate c = false /\ isLowSurrogate c = false.
Proof.
  unfold isSurrogate, isHighSurrogate, isLowSurrogate, inRange; intros H.
  apply andb_false_iff in H as [H|H]; [apply N.leb_gt in H|apply N.leb_gt in H];
    split; apply andb_false_iff;
    try (left; apply N.leb_gt; lia); right; apply N.leb_gt; lia.
Qed.

Lemma whiteSpace_not_surrogate (c : N) :
  isWhiteSpace c = true -> isSurrogate c = false.
Proof.
  intros H; destruct (isSurrogate c) eqn:E; [|reflexivity].
  unfold isSurrogate, inRange in E; apply andb_prop in E as [E1 E2].
  apply N.leb_le in E1; apply N.leb_le in E2.
  unfold isWhiteSpace, inRange in H; apply orb_prop in H as [H|H].
  - apply existsb_exists in H as (x & Hin & Hx).
    apply N.eqb_eq in Hx; subst x; simpl in Hin.
    none_of Hin.
  - apply andb_prop in H as [_ H]; apply N.leb_le in H; lia.
Qed.

Lemma removeNotAllowed_two (c d : N) (t : jsstring) :
  sanitizer.removeNotAllowed (c :: d :: t)
  = if isHighSurrogate c && isLowSurrogate d then
      if sanitizer.allowed (codePoint c d)
      then c :: d :: sanitizer.removeNotAllowed t
      else sanitizer.removeNotAllowed t
    else if sanitizer.allowed c then c :: sanitizer.removeNotAllowed (d :: t)
    else sanitizer.removeNotAllowed (d :: t).
Proof. reflexivity. Qed.

Lemma removeNotAllowed_length (s : jsstring) :
  (List.length (sanitizer.removeNotAllowed s) <= List.length s)%nat.
Proof.
  induction s as [| c | c d t IHt IHd] using list_pairs_ind.
  - simpl; lia.
  - simpl; destruct (sanitizer.allowed c); simpl; lia.
  - rewrite removeNotAllowed_two.
    destruct (isHighSurrogate c && isLowSurrogate d);
      [destruct (sanitizer.allowed (codePoint c d))|destruct (sanitizer.allowed c)];
      cbn [List.length] in *; lia.
Qed.

(** A code unit that is not a high surrogate is read on its own. *)
Lemma removeNotAllowed_cons (c : N) (s : jsstring) :
  isHighSurrogate c = false ->
  sanitizer.removeNotAllowed (c :: s)
  = if sanitizer.allowed c then c :: sanitizer.removeNotAllowed s
    else sanitizer.removeNotAllowed s.
Proof.
  intros H; destruct s as [|d t].
  - cbn [sanitizer.removeNotAllowed]; now destruct (sanitizer.allowed c).
  - now rewrite removeNotAllowed_two, H.
Qed.

(** A code unit that is not a low surrogate does not join what is before it. *)
Lemma removeNotAllowed_snoc (s : jsstring) (w : N) :
  isLowSurrogate w = false ->
  sanitizer.removeNotAllowed (s ++ [w])
  = sanitizer.removeNotAllowed s ++ (if sanitizer.allowed w then [w] else []).
Proof.
  intros Hw; induction s as [| c | c d t IHt IHd] using list_pairs_ind.
  - reflexivity.
  - change ([c] ++ [w]) with [c; w].
    rewrite removeNotAllowed_two, Hw, andb_false_r.
    cbn [sanitizer.removeNotAllowed].
    destruct (sanitizer.allowed c); reflexivity.
  - change ((c :: d :: t) ++ [w]) with (c :: d :: (t ++ [w])).
    rewrite !removeNotAllowed_two.
    change (d :: (t ++ [w])) with ((d :: t) ++ [w]).
    rewrite IHt, IHd.
    destruct (isHighSurrogate c && isLowSurrogate d);
      [destruct (sanitizer.allowed (codePoint c d))|destruct (sanitizer.allowed c)];
      reflexivity.
Qed.

Lemma removeNotAllowed_idempotent (s : jsstring) :
  sanitizer.removeNotAllowed (sanitizer.removeNotAllowed s)
  = sanitizer.removeNotAllowed s.
Proof.
  induction s as [| c | c d t IHt IHd] using list_pairs_ind.
  - reflexivity.
  - simpl; destruct (sanitizer.allowed c) eqn:E; simpl; now rewrite ?E.
  - rewrite removeNotAllowed_two.
    destruct (isHighSurrogate c && isLowSurrogate d) eqn:Hp.
    + destruct (sanitizer.allowed (codePoint c d)) eqn:Ha; [|assumption].
      now rewrite removeNotAllowed_two, Hp, Ha, IHt.
    + destruct (sanitizer.allowed c) eqn:Ha; [|assumption].
      rewrite removeNotAllowed_cons, Ha, IHd; [reflexivity|].
      now apply surrogate_halves, allowed_not_surrogate.
Qed.

Lemma removeNotAllowed_drop_leading (ws z : jsstring) :
  forallb isWhiteSpace ws = true ->
  sanitizer.removeNotAllowed (ws ++ z) = ws ++ z ->
  sanitizer.removeNotAllowed z = z.
Proof.
  induction ws as [|w ws IH]; intros Hws H; [assumption|].
  cbn [forallb] in Hws; apply andb_prop in Hws as [Hw Hws].
  apply IH; [assumption|].
  cbn [app] in H; rewrite removeNotAllowed_cons in H
    by now apply surrogate_halves, whiteSpace_not_surrogate.
  destruct (sanitizer.allowed w); [congruence|].
  pose proof (removeNotAllowed_length (ws ++ z)) as L.
  rewrite H in L; simpl in L; lia.
Qed.

Lemma removeNotAllowed_drop_trailing (ws z : jsstring) :
  forallb isWhiteSpace ws = true ->
  sanitizer.removeNotAllowed (z ++ ws) = z ++ ws ->
  sanitizer.removeNotAllowed z = z.
Proof.
  induction ws as [|w ws IH] using rev_ind; intros Hws H.
  - now rewrite app_nil_r in H.
  - rewrite forallb_app in Hws; apply andb_prop in Hws as [Hws Hw].
    cbn [forallb] in Hw; rewrite andb_true_r in Hw.
    apply IH; [assumption|].
    rewrite app_assoc in H; rewrite removeNotAllowed_snoc in H
      by now apply surrogate_halves, whiteSpace_not_surrogate.
    destruct (sanitizer.allowed w).
    + now apply app_inj_tail in H.
    + rewrite app_nil_r in H.
      pose proof (removeNotAllowed_length (z ++ ws)) as L.
      rewrite H, !length_app in L; simpl in L; lia.
Qed.

(** [trimStart] drops a run of white space and nothing else. *)
Lemma trimStart_split (s : jsstring) :
  exists ws, forallb isWhiteSpace ws = true /\ s = ws ++ trimStart s.
Proof.
  induction s as [|c t (ws & Hws & E)].
  - now exists [].
  - cbn [trimStart]; destruct (isWhiteSpace c) eqn:Hc.
    + exists (c :: ws); cbn [forallb]; rewrite Hc, Hws; split; [reflexivity|].
      cbn [app]; congruence.
    + now exists [].
Qed.

Lemma trimEnd_split (s : jsstring) :
  exists ws, forallb isWhiteSpace ws = true /\ s = trimEnd s ++ ws.
Proof.
  destruct (trimStart_split (rev s)) as (ws & Hws & E).
  exists (rev ws); split.
  - rewrite forallb_forall in *; intros x Hx; apply Hws; now apply in_rev.
  - unfold trimEnd; rewrite <- rev_app_distr, <- E; symmetry; apply rev_involutive.
Qed.

Lemma trimStart_head (s : jsstring) :
  match trimStart s with
  | c :: _ => isWhiteSpace c = false
  | [] => True
  end.
Proof.
  induction s as [|c t IH]; [exact I|].
  cbn [trimStart]; destruct (isWhiteSpace c) eqn:Hc; assumption.
Qed.

Lemma trimStart_fixed (s : jsstring) :
  match s with
  | c :: _ => isWhiteSpace c = false
  | [] => True
  end -> trimStart s = s.
Proof. destruct s as [|c t]; [reflexivity|]; simpl; now intros ->. Qed.

Lemma trimStart_idempotent (s : jsstring) : trimStart (trimStart s) = trimStart s.
Proof. apply trimStart_fixed, trimStart_head. Qed.

Lemma trimEnd_idempotent (s : jsstring) : trimEnd (trimEnd s) = trimEnd s.
Proof. unfold trimEnd; now rewrite rev_involutive, trimStart_idempotent. Qed.

Lemma trim_idempotent (s : jsstring) : trim (trim s) = trim s.
Proof.
  unfold trim.
  assert (E : trimStart (trimEnd (trimStart s)) = trimEnd (trimStart s)).
  { apply trimStart_fixed.
    pose proof (trimStart_head s) as Hh.
    destruct (trimEnd_split (trimStart s)) as (ws & _ & E).
    destruct (trimEnd (trimStart s)) as [|c r]; [exact I|].
    rewrite E in Hh; exact Hh. }
  now rewrite E, trimEnd_idempotent.
Qed.

(** What [sanitizer.filename] returns holds no character for it to remove. *)
Lemma filename_clean (s : jsstring) :
  sanitizer.removeNotAllowed (sanitizer.filename s) = sanitizer.filename s.
Proof.
  unfold sanitizer.filename, trim.
  set (x := sanitizer.removeNotAllowed s).
  assert (Hx : sanitizer.removeNotAllowed x = x)
    by apply removeNotAllowed_idempotent.
  destruct (trimStart_split x) as (ws & Hws & E).
  assert (Hy : sanitizer.removeNotAllowed (trimStart x) = trimStart x).
  { apply removeNotAllowed_drop_leading with ws; [assumption|congruence]. }
  destruct (trimEnd_split (trimStart x)) as (ws' & Hws' & E').
  apply removeNotAllowed_drop_trailing with ws'; [assumption|congruence].
Qed.

(** C5.  The filename sanitizer is idempotent. *)
Theorem filename_idempotent (s : jsstring) :
  sanitizer.filename (sanitizer.filename s) = sanitizer.filename s.
Proof.
  unfold sanitizer.filename at 1.
  rewrite filename_clean.
  unfold sanitizer.filename; apply trim_idempotent.
Qed.

(** ** The scan of the directory listing *)

Lemma fold_visit_exists file exact re (l : list jsstring) (st : scan) :
  isNewNameExist (fold_left (visit file exact re) l st)
  = isNewNameExist st
    || existsb (fun p => negb (streq (TFile.name file) (path.basename p))
                         && streq (path.basename p) exact) l.
Proof.
  revert st; induction l as [|p l IH]; intros st; cbn [fold_left existsb].
  - now rewrite orb_false_r.
  - rewrite IH; unfold visit.
    destruct (streq (TFile.name file) (path.basename p)); cbn [negb andb orb];
      [reflexivity|].
    destruct (streq (path.basename p) exact); cbn [isNewNameExist orb].
    + now rewrite orb_true_r.
    + destruct (exec re (path.basename p)) as [[m1|]|]; try reflexivity.
      destruct (isEmpty m1); [reflexivity|].
      destruct (isNaN (parseInt m1)); reflexivity.
Qed.

(** The exact name is found when a listed file other than the renamed one
    carries it. *)
Lemma scan_exists file exact re (listed : list jsstring) :
  isNewNameExist (scanSiblings file exact re listed) = true
  <-> exists p, In p listed /\ path.basename p <> TFile.name file
                /\ path.basename p = exact.
Proof.
  unfold scanSiblings; rewrite fold_visit_exists; cbn [isNewNameExist orb].
  rewrite existsb_exists; split.
  - intros (p & Hin & H); apply andb_prop in H as [H1 H2].
    exists p; repeat split; [assumption| |now apply streq_eq].
    intros E; rewrite E, streq_refl in H1; discriminate.
  - intros (p & Hin & Hne & He); exists p; split; [assumption|].
    rewrite streq_neq by congruence; cbn [negb andb]; now apply streq_eq.
Qed.

Lemma max2_not_NaN (x y : number) :
  isNaN x = false -> isNaN y = false -> isNaN (max2 x y) = false.
Proof. destruct x as [|[]|], y as [|[]|]; simpl; congruence. Qed.

Lemma fold_max2_not_NaN (l : list number) (acc : number) :
  isNaN acc = false -> Forall (fun x => isNaN x = false) l ->
  isNaN (fold_left max2 l acc) = false.
Proof.
  revert acc; induction l as [|x l IH]; intros acc Ha Hl; cbn [fold_left];
    [assumption|].
  inversion Hl; subst; apply IH; [now apply max2_not_NaN|assumption].
Qed.

Lemma roundToDouble_not_NaN (z : Z) : isNaN (roundToDouble z) = false.
Proof.
  unfold roundToDouble.
  destruct (Z.log2 (Z.abs z) + 1 - 53 <=? 0)%Z; [reflexivity|].
  match goal with |- context [if ?b then Infinity _ else _] => destruct b end;
    reflexivity.
Qed.

Lemma fold_visit_collects file exact re (l : list jsstring) (st : scan)
  (x : number) :
  In x (dupNameNumbers (fold_left (visit file exact re) l st))
  <-> In x (dupNameNumbers st)
      \/ exists p, In p l /\ contributes file exact re p x.
Proof.
  revert st; induction l as [|p l IH]; intros st; cbn [fold_left].
  - split; [now left|intros [H|(p & [] & _)]; exact H].
  - rewrite IH; clear IH.
    assert (Skip : forall st', dupNameNumbers st' = dupNameNumbers st ->
              ~ contributes file exact re p x ->
              (In x (dupNameNumbers st')
               \/ (exists q, In q l /\ contributes file exact re q x)
               <-> In x (dupNameNumbers st)
                   \/ exists q, In q (p :: l) /\ contributes file exact re q x)).
    { intros st' -> Hno; split.
      - intros [H|(q & Hq & Hc)]; [now left|right; exists q; split;
          [now right|assumption]].
      - intros [H|(q & [<-|Hq] & Hc)]; [now left|contradiction|].
        right; exists q; now split. }
    unfold visit.
    destruct (streq (TFile.name file) (path.basename p)) eqn:Eself.
    { apply Skip; [reflexivity|]; intros (Hs & _).
      apply streq_eq in Eself; congruence. }
    destruct (streq (path.basename p) exact) eqn:Eexact.
    { apply Skip; [reflexivity|]; intros (_ & He & _).
      apply streq_eq in Eexact; congruence. }
    destruct (exec re (path.basename p)) as [[m1|]|] eqn:Ex;
      try (apply Skip; [reflexivity|];
           intros (_ & _ & m & Hm & _); congruence).
    destruct m1 as [|c m1]; cbn [isEmpty].
    { apply Skip; [reflexivity|].
      intros (_ & _ & m & Hm & Hne & _); congruence. }
    destruct (isNaN (parseInt (c :: m1))) eqn:En.
    { apply Skip; [reflexivity|].
      intros (_ & _ & m & Hm & _ & -> & Hn); congruence. }
    cbn [dupNameNumbers]; rewrite in_app_iff; cbn [In].
    assert (Hself : path.basename p <> TFile.name file).
    { intros E; rewrite E, streq_refl in Eself; discriminate. }
    assert (Hexact : path.basename p <> exact).
    { intros E; rewrite E, streq_refl in Eexact; discriminate. }
    split.
    + intros [[H|[<-|[]]]|(q & Hq & Hc)].
      * now left.
      * right; exists p; split; [now left|].
        repeat split; try assumption.
        exists (c :: m1); repeat split; try assumption; discriminate.
      * right; exists q; split; [now right|assumption].
    + intros [H|(q & [<-|Hq] & Hc)].
      * left; now left.
      * destruct Hc as (_ & _ & m & Hm & _ & -> & _).
        left; right; left; congruence.
      * right; exists q; now split.
Qed.

(** The collected numbers are those the listed files contribute. *)
Lemma scan_collects file exact re (listed : list jsstring) (x : number) :
  In x (dupNameNumbers (scanSiblings file exact re listed))
  <-> exists p, In p listed /\ contributes file exact re p x.
Proof.
  unfold scanSiblings; rewrite fold_visit_collects; cbn [dupNameNumbers In].
  tauto.
Qed.

(** C8.  A number is collected exactly when it is the integer parse of
    the pattern's first group on the name of a listed file (other than the
    renamed file and the exact name) and that parse is not NaN: a capture
    that parses to NaN adds nothing.  So neither the maximum of the
    collected numbers nor the number made from it is NaN, whatever the
    listing. *)
Theorem dupNameNumbers_never_NaN file exact re (listed : list jsstring) :
  let numbers := dupNameNumbers (scanSiblings file exact re listed) in
  (forall x, In x numbers
             <-> exists p, In p listed /\ contributes file exact re p x)
  /\ Forall (fun x => isNaN x = false) numbers
  /\ isNaN (Math_max numbers) = false
  /\ isNaN (newNumberOf numbers) = false.
Proof.
  intros numbers.
  assert (H : Forall (fun x => isNaN x = false) numbers).
  { apply Forall_forall; intros x Hx.
    apply scan_collects in Hx as (p & _ & _ & _ & m1 & _ & _ & _ & Hn).
    exact Hn. }
  assert (Hm : isNaN (Math_max numbers) = false).
  { apply fold_max2_not_NaN; [reflexivity|exact H]. }
  split; [intros x; apply scan_collects|].
  split; [exact H|]; split; [exact Hm|].
  unfold newNumberOf; destruct numbers as [|x l]; [reflexivity|].
  destruct (Math_max (x :: l)) as [|b|z]; try discriminate; try reflexivity.
  apply roundToDouble_not_NaN.
Qed.

(** ** The spread call of [Math.max] *)

(** A call takes one argument. *)
Lemma spreads_one {A : Type} (x : A) : spreads [x] = true.
Proof. unfold spreads; cbn; now destruct maxArguments. Qed.

Lemma spreads_shorter {A B : Type} (l : list A) (l' : list B) :
  (List.length l <= List.length l')%nat -> spreads l' = true -> spreads l = true.
Proof. unfold spreads; rewrite !N.leb_le; lia. Qed.

Lemma spreads_permutation {A : Type} (l l' : list A) :
  Permutation l l' -> spreads l = spreads l'.
Proof. intros H; unfold spreads; now rewrite (Permutation_length H). Qed.

(** When the call is made within the limit, [newNumber] is [newNumberOf];
    it throws only for numbers that are too many. *)
Lemma newNumber_returns (l : list number) :
  spreads l = true -> newNumber l = Ok (newNumberOf l).
Proof. intros H; destruct l; [reflexivity|]; cbn [newNumber]; now rewrite H. Qed.

Lemma newNumber_cases (l : list number) :
  newNumber l = Ok (newNumberOf l)
  \/ (newNumber l = Throw RangeError /\ spreads l = false).
Proof.
  destruct (spreads l) eqn:E; [left; now apply newNumber_returns|].
  destruct l as [|x l]; [discriminate|]; right; cbn [newNumber]; now rewrite E.
Qed.

Lemma newNumber_throws (l : list number) :
  l <> [] -> spreads l = false -> newNumber l = Throw RangeError.
Proof. intros Hl E; destruct l; [easy|]; cbn [newNumber]; now rewrite E. Qed.

(** The name returned with a number, from the pattern built and the
    result of the scan. *)
Lemma deduplicateNewName_numbered (settings : PluginSettings)
  (listed : list jsstring) (newName : jsstring) (file : TFile.t)
  (dupNameRegex : RegExp) (st : scan) :
  let newNameStem := Parsed.stem (parseFileName newName) in
  let ext := actualExtensionOf newName file in
  newRegExp (dupNameRegexSource settings newNameStem ext) = Ok dupNameRegex ->
  scanSiblings file (newNameStem ++ str "." ++ ext) dupNameRegex listed = st ->
  isNewNameExist st || dupNumberAlways settings = true ->
  spreads (dupNameNumbers st) = true ->
  deduplicateNewName settings listed newName file
  = Ok {| NameObj.name :=
            if dupNumberAtStart settings then
              numberToString (newNumberOf (dupNameNumbers st))
                ++ dupNumberDelimiter settings ++ newNameStem ++ str "." ++ ext
            else
              newNameStem ++ dupNumberDelimiter settings
                ++ numberToString (newNumberOf (dupNameNumbers st))
                ++ str "." ++ ext;
          NameObj.stem := newNameStem;
          NameObj.extension := ext |}.
Proof.
  intros newNameStem ext Hre Hst Hcond Hsp.
  unfold deduplicateNewName; fold newNameStem; fold ext.
  now rewrite Hre, Hst, Hcond, (newNumber_returns _ Hsp).
Qed.

(** Evaluates the left-hand side of an equation. *)
Ltac run_lhs :=
  lazymatch goal with
  | |- ?l = _ => let v := eval vm_compute in l in
                 exact (@eq_refl _ v <: l = v)
  end.

(** Runs [deduplicateNewName] on a concrete input of which one number is
    collected, on every host. *)
Ltac run_with_one_number :=
  etransitivity;
  [ eapply deduplicateNewName_numbered;
    [run_lhs | run_lhs | reflexivity | apply spreads_one]
  | vm_compute; reflexivity ].

(** The numbers collected are at most as many as the files listed. *)
Lemma visit_length (file : TFile.t) (exact : jsstring) (re : RegExp)
  (st : scan) (p : jsstring) :
  (List.length (dupNameNumbers (visit file exact re st p))
   <= S (List.length (dupNameNumbers st)))%nat.
Proof.
  unfold visit; destruct (streq _ _); [lia|].
  destruct (streq _ _); [cbn; lia|].
  destruct (exec re _) as [[m1|]|]; try lia.
  destruct (isEmpty m1); [lia|]; destruct (isNaN _); [lia|].
  cbn; rewrite length_app; cbn; lia.
Qed.

Lemma scan_length (file : TFile.t) (exact : jsstring) (re : RegExp)
  (listed : list jsstring) :
  (List.length (dupNameNumbers (scanSiblings file exact re listed))
   <= List.length listed)%nat.
Proof.
  unfold scanSiblings.
  enough (G : forall l st,
             (List.length (dupNameNumbers (fold_left (visit file exact re) l st))
              <= List.length (dupNameNumbers st) + List.length l)%nat)
    by apply (G listed {| isNewNameExist := false; dupNameNumbers := [] |}).
  induction l as [|p l IH]; intros st; cbn [fold_left List.length]; [lia|].
  specialize (IH (visit file exact re st p)).
  pose proof (visit_length file exact re st p); lia.
Qed.

(** ** The shape of the deduplicated name *)

(** C10.  The object [deduplicateNewName] returns has the stem parsed from
    the input name, and its extension is the one parsed from the input name
    when that is not empty and the file's own extension otherwise (the
    file's extension as it is, not what [getActualExtension] makes of it);
    the returned name ends in a dot followed by that extension.  The only
    other outcomes are the SyntaxError of the pattern's construction and the
    RangeError of [Math.max] called with more numbers than a call takes. *)
Theorem deduplicateNewName_stem_and_extension
  (settings : PluginSettings) (listed : list jsstring) (newName : jsstring)
  (file : TFile.t) :
  let parsed := parseFileName newName in
  let ext := if isEmpty (Parsed.extension parsed) then TFile.extension file
             else Parsed.extension parsed in
  match deduplicateNewName settings listed newName file with
  | Ok r =>
    NameObj.stem r = Parsed.stem parsed
    /\ NameObj.extension r = ext
    /\ exists front, NameObj.name r = front ++ str "." ++ ext
  | Throw e =>
    newRegExp (dupNameRegexSource settings (Parsed.stem parsed) ext) = Throw e
    \/ (e = RangeError
        /\ exists dupNameRegex,
             newRegExp (dupNameRegexSource settings (Parsed.stem parsed) ext)
             = Ok dupNameRegex
             /\ spreads (dupNameNumbers
                           (scanSiblings file
                              (Parsed.stem parsed ++ str "." ++ ext)
                              dupNameRegex listed)) = false)
  end.
Proof.
  intros parsed ext; unfold deduplicateNewName, actualExtensionOf.
  fold parsed; fold ext.
  destruct (newRegExp (dupNameRegexSource settings (Parsed.stem parsed) ext))
    as [re|e]; [|now left].
  destruct (isNewNameExist _ || dupNumberAlways settings).
  - destruct (newNumber_cases
                (dupNameNumbers
                   (scanSiblings file (Parsed.stem parsed ++ str "." ++ ext)
                      re listed))) as [E|[E F]]; rewrite E.
    + cbn [NameObj.stem NameObj.extension NameObj.name].
      split; [reflexivity|]; split; [reflexivity|].
      destruct (dupNumberAtStart settings); eexists; rewrite ?app_assoc;
        reflexivity.
    + right; split; [reflexivity|]; now exists re.
  - cbn [NameObj.stem NameObj.extension NameObj.name].
    split; [reflexivity|]; split; [reflexivity|]; eexists; reflexivity.
Qed.

(** ** The duplicate pattern *)

Lemma special_is_syntax (c : N) : isRegExpSpecial c = isSyntaxCharacter c.
Proof.
  apply eq_true_iff_eq; unfold isRegExpSpecial, isSyntaxCharacter.
  rewrite !existsb_exists; split; intros (x & Hin & Hx); exists x;
    (split; [|assumption]); vm_compute in Hin |- *; tauto.
Qed.

Lemma not_syntax_neq (c k : N) :
  isSyntaxCharacter c = false -> isSyntaxCharacter k = true -> N.eqb c k = false.
Proof.
  intros Hc Hk; destruct (N.eqb_spec c k) as [->|]; congruence.
Qed.

Lemma not_syntax_not_among (c : N) (l : jsstring) :
  isSyntaxCharacter c = false -> forallb isSyntaxCharacter l = true ->
  existsb (N.eqb c) l = false.
Proof.
  intros Hc Hl; destruct (existsb (N.eqb c) l) eqn:E; [|reflexivity].
  apply existsb_exists in E as (x & Hin & Hx); apply N.eqb_eq in Hx; subst x.
  rewrite forallb_forall in Hl; rewrite (Hl c Hin) in Hc; discriminate.
Qed.

Lemma tokenize_plain (c : N) (t : jsstring) :
  isSyntaxCharacter c = false ->
  tokenize (c :: t) = option_map (cons (TChar c)) (tokenize t).
Proof.
  intros H; cbn [tokenize].
  rewrite !(not_syntax_neq c _ H) by reflexivity.
  rewrite !(not_syntax_not_among c _ H) by reflexivity.
  reflexivity.
Qed.

Lemma tokenize_escaped_char (c : N) (t : jsstring) :
  isSyntaxCharacter c = true ->
  tokenize (ch "\" :: c :: t) = option_map (cons (TChar c)) (tokenize t).
Proof. intros H; cbn [tokenize]; rewrite N.eqb_refl, H; reflexivity. Qed.

Lemma tokenize_escaped (s rest : jsstring) :
  tokenize (escapeRegExp s ++ rest)
  = option_map (app (map TChar s)) (tokenize rest).
Proof.
  induction s as [|c s IH]; [simpl; now destruct (tokenize rest)|].
  unfold escapeRegExp in *; cbn [flat_map map]; rewrite <- app_assoc.
  rewrite special_is_syntax.
  destruct (isSyntaxCharacter c) eqn:E; cbn [app].
  - rewrite tokenize_escaped_char, IH by assumption.
    now destruct (tokenize rest).
  - rewrite tokenize_plain, IH by assumption.
    now destruct (tokenize rest).
Qed.

Lemma tokenize_literal (ext rest : jsstring) :
  literalExtension ext = true ->
  tokenize (ext ++ rest) = option_map (app (map TChar ext)) (tokenize rest).
Proof.
  unfold literalExtension; induction ext as [|c s IH]; intros H;
    [simpl; now destruct (tokenize rest)|].
  cbn [forallb] in H; apply andb_prop in H as [Hc Hs].
  apply negb_true_iff in Hc.
  cbn [app map]; rewrite tokenize_plain, IH by assumption.
  now destruct (tokenize rest).
Qed.

Lemma parseTokens_chars (s : jsstring) ts next top open :
  parseTokens (map TChar s ++ ts) next top open
  = parseTokens ts next (pushChars s top) open.
Proof.
  revert top; induction s as [|c s IH]; intros top.
  - now destruct top.
  - cbn [map app parseTokens]; rewrite IH.
    unfold pushChars, pushTerm; cbn [alts terms number_ map rev].
    now rewrite <- app_assoc.
Qed.

Lemma tokenize_digits_group (x : jsstring) :
  tokenize (ch "(" :: ch "\" :: ch "d" :: ch "+" :: ch ")" :: x)
  = option_map (app [TOpen; TDigit; TPlus; TClose]) (tokenize x).
Proof. cbn; now destruct (tokenize x). Qed.

Lemma tokenize_bol (x : jsstring) :
  tokenize (ch "^" :: x) = option_map (cons TBol) (tokenize x).
Proof. reflexivity. Qed.

Lemma tokenize_source (settings : PluginSettings) (newNameStem ext : jsstring) :
  literalExtension ext = true ->
  tokenize (dupNameRegexSource settings newNameStem ext)
  = Some
      (if dupNumberAtStart settings then
         TBol :: [TOpen; TDigit; TPlus; TClose]
         ++ map TChar (dupNumberDelimiter settings)
         ++ map TChar newNameStem ++ TChar dot :: map TChar ext ++ [TEol]
       else
         TBol :: map TChar newNameStem
         ++ map TChar (dupNumberDelimiter settings)
         ++ [TOpen; TDigit; TPlus; TClose]
         ++ TChar dot :: map TChar ext ++ [TEol]).
Proof.
  intros Hext; unfold dupNameRegexSource.
  destruct (dupNumberAtStart settings).
  - change (str "^(\d+)" ++ ?x) with
      (ch "^" :: ch "(" :: ch "\" :: ch "d" :: ch "+" :: ch ")" :: x).
    change (str "\." ++ ?x) with (ch "\" :: dot :: x).
    rewrite tokenize_bol, tokenize_digits_group, !tokenize_escaped.
    rewrite tokenize_escaped_char, tokenize_literal by (assumption || reflexivity).
    reflexivity.
  - change (str "^" ++ ?x) with (ch "^" :: x).
    change (str "(\d+)\." ++ ?x) with
      (ch "(" :: ch "\" :: ch "d" :: ch "+" :: ch ")" :: ch "\" :: dot :: x).
    rewrite tokenize_bol, !tokenize_escaped, tokenize_digits_group.
    rewrite tokenize_escaped_char, tokenize_literal by (assumption || reflexivity).
    reflexivity.
Qed.

(** With a literal extension the pattern is built, and is the one above. *)
Lemma newRegExp_dupName (settings : PluginSettings) (newNameStem ext : jsstring) :
  literalExtension ext = true ->
  newRegExp (dupNameRegexSource settings newNameStem ext)
  = Ok (Pattern (dupNamePattern settings newNameStem ext)).
Proof.
  intros Hext; unfold newRegExp; rewrite tokenize_source by assumption.
  unfold parsePattern, dupNamePattern.
  destruct (dupNumberAtStart settings).
  - cbn [app parseTokens pushTerm quantify terms alts number_ quantifiable].
    rewrite !parseTokens_chars; cbn [parseTokens pushTerm].
    rewrite parseTokens_chars; cbn [parseTokens].
    unfold disjunction, pushChars, pushTerm;
      cbn [alts terms number_ fold_left rev map app].
    do 3 f_equal; unfold digitsGroup.
    rewrite !map_app, !rev_app_distr; cbn [map rev app].
    rewrite ?rev_app_distr; cbn [rev app].
    now rewrite <- ?app_assoc.
  - cbn [app parseTokens pushTerm].
    rewrite !parseTokens_chars.
    cbn [app parseTokens pushTerm quantify terms alts number_ quantifiable].
    rewrite parseTokens_chars; cbn [parseTokens].
    unfold disjunction, pushChars, pushTerm;
      cbn [alts terms number_ fold_left rev map app].
    do 3 f_equal; unfold digitsGroup.
    rewrite !map_app, !rev_app_distr; cbn [map rev app].
    rewrite ?rev_app_distr; cbn [rev app].
    now rewrite <- ?app_assoc.
Qed.

(** ** What the duplicate pattern matches *)

Lemma matcher_Star (a : regex) (x : mstate) (k : mstate -> option mstate) :
  matcher (Star a) x k = rounds a k (List.length (rest x)) x.
Proof. reflexivity. Qed.

Lemma matcher_Plus (a : regex) (x : mstate) (k : mstate -> option mstate) :
  matcher (Plus a) x k
  = matcher a (clearCaps a x) (fun y => rounds a k (List.length (rest y)) y).
Proof. reflexivity. Qed.

Lemma seqOf_rev (l : list regex) : seqOf (rev l) = fold_right Seq Empty l.
Proof. unfold seqOf; now rewrite <- fold_left_rev_right, rev_involutive. Qed.

Lemma dupNamePattern_numbered (settings : PluginSettings)
  (newNameStem ext : jsstring) :
  dupNamePattern settings newNameStem ext
  = numberedPattern (beforeNumber settings newNameStem)
      (afterNumber settings newNameStem ext).
Proof.
  unfold dupNamePattern, numberedPattern, beforeNumber, afterNumber.
  destruct (dupNumberAtStart settings); now rewrite seqOf_rev.
Qed.

Lemma clearCaps_Digit (x : mstate) : clearCaps Digit x = x.
Proof.
  destruct x as [p s c]; unfold clearCaps; cbn [pos rest caps groupsOf existsb negb].
  f_equal; induction c as [|e c IH]; [reflexivity|]; cbn [filter]; now rewrite IH.
Qed.

Lemma succ_neqb (p : nat) : Nat.eqb (S p) p = false.
Proof. apply Nat.eqb_neq; lia. Qed.

Lemma rounds_digits_step (k : mstate -> option mstate) (fuel p : nat)
  (h : N) (t : jsstring) (c : list (nat * jsstring)) :
  rounds Digit k (S fuel) (state p (h :: t) c)
  = if isDigit h
    then orElse (rounds Digit k fuel (state (S p) t c)) (k (state p (h :: t) c))
    else k (state p (h :: t) c).
Proof.
  change (rounds Digit k (S fuel) (state p (h :: t) c))
    with (orElse
            (matcher Digit (clearCaps Digit (state p (h :: t) c))
               (fun y => if Nat.eqb (pos y) p then None
                         else rounds Digit k fuel y))
            (k (state p (h :: t) c))).
  rewrite clearCaps_Digit; cbn [matcher matchChar rest state].
  destruct (isDigit h); [|reflexivity].
  unfold advance; cbn [pos caps]; now rewrite succ_neqb.
Qed.

Lemma rounds_digits_end (k : mstate -> option mstate) (fuel p : nat)
  (c : list (nat * jsstring)) :
  rounds Digit k fuel (state p [] c) = k (state p [] c).
Proof.
  destruct fuel; [reflexivity|].
  change (rounds Digit k (S fuel) (state p [] c))
    with (orElse
            (matcher Digit (clearCaps Digit (state p [] c))
               (fun y => if Nat.eqb (pos y) p then None
                         else rounds Digit k fuel y))
            (k (state p [] c))).
  now rewrite clearCaps_Digit.
Qed.

(** A run of digit rounds that succeeds stops after some digits, where
    the continuation succeeds. *)
Lemma rounds_digits_sound (k : mstate -> option mstate) (fuel : nat) :
  forall p s c y,
    rounds Digit k fuel (state p s c) = Some y ->
    exists ds t, forallb isDigit ds = true /\ s = ds ++ t
                 /\ k (state (p + List.length ds) t c) = Some y.
Proof.
  induction fuel as [|fuel IH]; intros p s c y H.
  - exists [], s; cbn [List.length]; rewrite Nat.add_0_r; now repeat split.
  - assert (Here : k (state p s c) = Some y ->
                   exists ds t, forallb isDigit ds = true /\ s = ds ++ t
                                /\ k (state (p + List.length ds) t c) = Some y).
    { intros Hk; exists [], s; cbn [List.length]; rewrite Nat.add_0_r;
        now repeat split. }
    destruct s as [|h t]; [rewrite rounds_digits_end in H; auto|].
    rewrite rounds_digits_step in H.
    destruct (isDigit h) eqn:Hh; [|auto].
    destruct (rounds Digit k fuel (state (S p) t c)) as [y'|] eqn:E;
      cbn [orElse] in H; [|auto].
    injection H as ->.
    destruct (IH _ _ _ _ E) as (ds & t' & Hds & -> & Hk).
    exists (h :: ds), t'; cbn [forallb List.length app]; rewrite Hh, Hds.
    repeat split; rewrite <- Hk; f_equal; f_equal; lia.
Qed.

(** A run of digit rounds succeeds when the continuation does after some
    of the digits ahead. *)
Lemma rounds_digits_complete (k : mstate -> option mstate) (fuel : nat) :
  forall p ds t c y,
    (List.length (ds ++ t) <= fuel)%nat ->
    forallb isDigit ds = true ->
    k (state (p + List.length ds) t c) = Some y ->
    rounds Digit k fuel (state p (ds ++ t) c) <> None.
Proof.
  induction fuel as [|fuel IH]; intros p ds t c y Hlen Hds Hk.
  - destruct ds; [|simpl in Hlen; lia]; destruct t; [|simpl in Hlen; lia].
    cbn [app List.length] in *; rewrite Nat.add_0_r in Hk.
    cbn [rounds]; congruence.
  - destruct ds as [|h ds].
    + cbn [app List.length] in *; rewrite Nat.add_0_r in Hk.
      destruct t as [|h t]; [rewrite rounds_digits_end; congruence|].
      rewrite rounds_digits_step; rewrite Hk.
      destruct (isDigit h); [|discriminate].
      destruct (rounds Digit k fuel (state (S p) t c)); discriminate.
    + cbn [forallb] in Hds; apply andb_prop in Hds as [Hh Hds].
      cbn [app]; rewrite rounds_digits_step, Hh.
      assert (R : rounds Digit k fuel (state (S p) (ds ++ t) c) <> None).
      { apply IH with y; [simpl in Hlen; lia|assumption|].
        rewrite <- Hk; f_equal; f_equal; simpl; lia. }
      destruct (rounds Digit k fuel (state (S p) (ds ++ t) c));
        [discriminate|contradiction].
Qed.

Lemma matcher_Char_cons (h h' : N) (r : regex) (k : mstate -> option mstate)
  (p : nat) (s : jsstring) (c : list (nat * jsstring)) :
  matcher (Seq (Char h) r) (state p (h' :: s) c) k
  = if N.eqb h h' then matcher r (state (S p) s c) k else None.
Proof. reflexivity. Qed.

(** A run of pattern characters matches that very text. *)
Lemma matcher_chars (lit : jsstring) (r : regex) (k : mstate -> option mstate) :
  forall p t c,
    matcher (fold_right Seq r (map Char lit)) (state p (lit ++ t) c) k
    = matcher r (state (p + List.length lit) t c) k.
Proof.
  induction lit as [|h lit IH]; intros p t c.
  - cbn [map fold_right app List.length]; now rewrite Nat.add_0_r.
  - replace (p + List.length (h :: lit))%nat with (S p + List.length lit)%nat
      by (simpl; lia).
    rewrite <- IH.
    cbn [map fold_right app]; now rewrite matcher_Char_cons, N.eqb_refl.
Qed.

Lemma matcher_chars_inv (lit : jsstring) (r : regex)
  (k : mstate -> option mstate) :
  forall p s c y,
    matcher (fold_right Seq r (map Char lit)) (state p s c) k = Some y ->
    exists t, s = lit ++ t
              /\ matcher r (state (p + List.length lit) t c) k = Some y.
Proof.
  induction lit as [|h lit IH]; intros p s c y H.
  - exists s; cbn [List.length]; rewrite Nat.add_0_r; now split.
  - cbn [map fold_right] in H.
    destruct s as [|h' s]; [discriminate|].
    rewrite matcher_Char_cons in H.
    destruct (N.eqb_spec h h') as [<-|]; [|discriminate].
    destruct (IH (S p) s c y H) as (t & -> & Ht).
    exists t; split; [reflexivity|].
    replace (p + List.length (h :: lit))%nat with (S p + List.length lit)%nat
      by (simpl; lia).
    exact Ht.
Qed.

Lemma numberedPattern_unfold (pre post : jsstring) :
  numberedPattern pre post
  = Seq Bol
      (fold_right Seq
         (Seq digitsGroup (fold_right Seq (Seq Eol Empty) (map Char post)))
         (map Char pre)).
Proof.
  unfold numberedPattern; cbn [fold_right]; rewrite fold_right_app.
  cbn [fold_right]; now rewrite fold_right_app.
Qed.

Lemma matcher_digitsGroup (r : regex) (k : mstate -> option mstate)
  (p : nat) (s : jsstring) (c : list (nat * jsstring)) :
  matcher (Seq digitsGroup r) (state p s c) k
  = match s with
    | h :: t =>
      if isDigit h then
        rounds Digit (fun y => matcher r (setCap 1 (state p s c) y) k)
          (List.length t) (state (S p) t c)
      else None
    | [] => None
    end.
Proof.
  change (matcher (Seq digitsGroup r) (state p s c) k)
    with (matcher (Plus Digit) (state p s c)
            (fun y => matcher r (setCap 1 (state p s c) y) k)).
  rewrite matcher_Plus, clearCaps_Digit.
  destruct s as [|h t]; [reflexivity|].
  cbn [matcher matchChar rest state]; destruct (isDigit h); reflexivity.
Qed.

Lemma matcher_Eol (p : nat) (s : jsstring) (c : list (nat * jsstring)) :
  matcher (Seq Eol Empty) (state p s c) Some
  = if isEmpty s then Some (state p s c) else None.
Proof. reflexivity. Qed.

(** A match of a numbered pattern from index 0 splits the name, and the
    first group is the digits. *)
Lemma match_numbered_sound (pre post s : jsstring) (y : mstate) :
  matcher (numberedPattern pre post) (state 0 s []) Some = Some y ->
  exists ds, numberedAs pre post s ds /\ caps y = [(1%nat, ds)].
Proof.
  rewrite numberedPattern_unfold; intros H.
  change (matcher (Seq Bol ?r) (state 0 s []) Some) with
    (matcher r (state 0 s []) Some) in H.
  apply matcher_chars_inv in H as (s1 & -> & H).
  rewrite matcher_digitsGroup in H.
  destruct s1 as [|h t1]; [discriminate|].
  destruct (isDigit h) eqn:Hh; [|discriminate].
  apply rounds_digits_sound in H as (ds & t & Hds & -> & H).
  unfold setCap in H; cbn [pos rest caps state] in H.
  match type of H with
  | context [firstn ?n _] =>
    replace n with (List.length (h :: ds)) in H by (cbn [List.length]; lia)
  end.
  change (h :: ds ++ t) with ((h :: ds) ++ t) in H.
  rewrite firstn_app, Nat.sub_diag, firstn_all, firstn_O, app_nil_r in H.
  match type of H with
  | matcher _ {| pos := ?p; rest := _; caps := ?c |} _ = _ =>
    change (matcher (fold_right Seq (Seq Eol Empty) (map Char post))
              (state p t c) Some = Some y) in H
  end.
  apply matcher_chars_inv in H as (t2 & -> & H).
  rewrite matcher_Eol in H.
  destruct t2 as [|? ?]; [|discriminate]; injection H as <-.
  exists (h :: ds); split; [|reflexivity].
  repeat split; [discriminate|cbn [forallb]; now rewrite Hh, Hds|].
  now rewrite app_nil_r.
Qed.

Lemma match_numbered_complete (pre post s ds : jsstring) :
  numberedAs pre post s ds ->
  exists y, matcher (numberedPattern pre post) (state 0 s []) Some = Some y
            /\ caps y = [(1%nat, ds)].
Proof.
  intros (Hne & Hds & ->).
  destruct (matcher (numberedPattern pre post)
              (state 0 (pre ++ ds ++ post) []) Some) as [y|] eqn:E.
  - exists y; split; [reflexivity|].
    destruct (match_numbered_sound _ _ _ _ E) as (ds' & (_ & _ & E') & Hc).
    apply app_inv_head in E'.
    assert (L : List.length ds = List.length ds').
    { apply (f_equal (@List.length N)) in E'; rewrite !length_app in E'; lia. }
    assert (ds = ds') as ->; [|assumption].
    apply (f_equal (firstn (List.length ds))) in E'.
    rewrite firstn_app, Nat.sub_diag, firstn_all, firstn_O, app_nil_r in E'.
    rewrite L, firstn_app, Nat.sub_diag, firstn_all, firstn_O, app_nil_r in E'.
    assumption.
  - exfalso; revert E; rewrite numberedPattern_unfold.
    change (matcher (Seq Bol ?r) (state 0 ?s []) Some) with
      (matcher r (state 0 s []) Some).
    rewrite matcher_chars, matcher_digitsGroup.
    destruct ds as [|h ds]; [contradiction|].
    cbn [forallb] in Hds; apply andb_prop in Hds as [Hh Hds].
    cbn [app]; rewrite Hh.
    apply rounds_digits_complete
      with (y := state (0 + List.length pre + List.length (h :: ds)
                        + List.length post) [] [(1%nat, h :: ds)]);
      [rewrite length_app; lia|assumption|].
    unfold setCap; cbn [pos rest caps state].
    match goal with
    | |- context [firstn ?n _] =>
      replace n with (List.length (h :: ds)) by (cbn [List.length]; lia)
    end.
    change (h :: ds ++ post) with ((h :: ds) ++ post).
    rewrite firstn_app, Nat.sub_diag, firstn_all, firstn_O, app_nil_r.
    match goal with
    | |- matcher _ {| pos := ?p; rest := _; caps := ?c |} _ = _ =>
      pose proof (matcher_chars post (Seq Eol Empty) Some p [] c) as M
    end.
    rewrite app_nil_r in M; unfold state in M |- *; rewrite M.
    cbn [matcher rest isEmpty]; f_equal; f_equal; cbn [List.length]; lia.
Qed.

(** [exec] with a numbered pattern gives the digits of a name numbered
    that way, and [null] for any other name. *)
Lemma execFrom_anchored (r : regex) (s : jsstring) (i : nat) :
  execFrom (Seq Bol r) (S i) s = None.
Proof.
  revert i; induction s as [|h t IH]; intros i; cbn [execFrom matcher pos];
    cbn [Nat.eqb]; [reflexivity|apply IH].
Qed.

Lemma exec_numbered (pre post s : jsstring) :
  (forall ds, exec (Pattern (numberedPattern pre post)) s = Some (Some ds)
              <-> numberedAs pre post s ds)
  /\ exec (Pattern (numberedPattern pre post)) s <> Some None.
Proof.
  assert (E : execFrom (numberedPattern pre post) 0 s
              = matcher (numberedPattern pre post) (state 0 s []) Some).
  { destruct s as [|h t]; cbn [execFrom]; fold (state 0 [] []);
      [now destruct (matcher _ _ _)|].
    fold (state 0 (h :: t) []).
    destruct (matcher _ (state 0 (h :: t) []) Some); [reflexivity|].
    rewrite numberedPattern_unfold; apply execFrom_anchored. }
  cbn [exec]; rewrite E; split; [intros ds; split|].
  - destruct (matcher _ _ _) as [y|] eqn:M; [|discriminate].
    destruct (match_numbered_sound _ _ _ _ M) as (ds' & Hn & Hc).
    cbn [option_map]; rewrite Hc; cbn [lookupCap Nat.eqb].
    now intros [= <-].
  - intros Hn; destruct (match_numbered_complete _ _ _ _ Hn) as (y & -> & Hc).
    cbn [option_map]; now rewrite Hc.
  - destruct (matcher _ _ _) as [y|] eqn:M; [|discriminate].
    destruct (match_numbered_sound _ _ _ _ M) as (ds' & Hn & Hc).
    cbn [option_map]; rewrite Hc; discriminate.
Qed.

(** ** Numbers *)

Lemma roundToDouble_exact (z : Z) :
  (Z.abs z <= 2 ^ 53)%Z -> roundToDouble z = Finite z.
Proof.
  intros H.
  assert (C : (Z.abs z < 2 ^ 53 \/ z = 2 ^ 53 \/ z = - 2 ^ 53)%Z) by lia.
  destruct C as [C|[->| ->]]; [|reflexivity|reflexivity].
  unfold roundToDouble.
  assert (L : (Z.log2 (Z.abs z) < 53)%Z).
  { destruct (Z.eq_dec (Z.abs z) 0) as [->|Hz]; [simpl; lia|].
    apply Z.log2_lt_pow2; lia. }
  destruct (Z.leb_spec (Z.log2 (Z.abs z) + 1 - 53) 0); [reflexivity|lia].
Qed.

Lemma fold_max2_finite (bound : Z) (l : list number) (a : Z) :
  (0 <= a < bound)%Z -> Forall (finiteBelow bound) l ->
  exists m, fold_left max2 l (Finite a) = Finite m
            /\ (0 <= m < bound)%Z
            /\ (m = a \/ In (Finite m) l)
            /\ (a <= m)%Z
            /\ forall z, In (Finite z) l -> (z <= m)%Z.
Proof.
  revert a; induction l as [|x l IH]; intros a Ha Hl; cbn [fold_left].
  - exists a; split; [reflexivity|]; split; [assumption|].
    split; [now left|]; split; [lia|intros z []].
  - apply Forall_cons_iff in Hl as [(z & -> & Hz) Hl'].
    cbn [max2].
    destruct (IH (Z.max a z) ltac:(lia) Hl') as (m & E & Hm & Hin & Hle & Hall).
    exists m; split; [assumption|]; split; [assumption|].
    split; [|split; [lia|]].
    + destruct Hin as [->|Hin]; [|right; now right].
      destruct (Z.max_spec a z) as [[_ ->]|[_ ->]]; [right; now left|now left].
    + intros z' [Hz'|Hz']; [injection Hz' as <-; lia|now apply Hall].
Qed.

(** The maximum of collected numbers that are all exact. *)
Lemma Math_max_finite (bound : Z) (x : number) (l : list number) :
  Forall (finiteBelow bound) (x :: l) ->
  exists m, Math_max (x :: l) = Finite m
            /\ (0 <= m < bound)%Z
            /\ In (Finite m) (x :: l)
            /\ forall z, In (Finite z) (x :: l) -> (z <= m)%Z.
Proof.
  intros H; apply Forall_cons_iff in H as [(a & -> & Ha) Hl].
  destruct (fold_max2_finite _ _ _ Ha Hl) as (m & E & Hm & Hin & Hle & Hall).
  exists m; split; [exact E|]; split; [assumption|]; split.
  - destruct Hin as [->|Hin]; [now left|now right].
  - intros z [Hz|Hz]; [injection Hz as <-; assumption|now apply Hall].
Qed.

Lemma numberToString_small (n : Z) :
  (0 <= n <= 2 ^ 53)%Z -> numberToString (Finite n) = decimal (Z.to_N n).
Proof.
  intros H; unfold numberToString.
  destruct (Z.leb_spec (Z.abs n) (2 ^ 53)); [|lia].
  destruct (Z.ltb_spec n 0); [lia|].
  f_equal; lia.
Qed.

Lemma newNumberOf_exact (numbers : list number) :
  Forall (finiteBelow (2 ^ 53)) numbers ->
  exists n, nextNumber numbers n
            /\ (1 <= n <= 2 ^ 53)%Z
            /\ numberToString (newNumberOf numbers) = decimal (Z.to_N n).
Proof.
  intros H; destruct numbers as [|x l].
  - exists 1%Z; repeat split; lia.
  - destruct (Math_max_finite _ _ _ H) as (m & E & Hm & Hin & Hall).
    exists (m + 1)%Z; unfold nextNumber, newNumberOf; rewrite E; cbn [add].
    replace (m + 1 - 1)%Z with m by lia.
    repeat split; try assumption; try lia.
    rewrite roundToDouble_exact by lia.
    apply numberToString_small; lia.
Qed.

Lemma digit_not_space (d : N) : isDigit d = true -> isWhiteSpace d = false.
Proof.
  unfold isDigit, inRange; intros H; apply andb_prop in H as [H1 H2].
  apply N.leb_le in H1; apply N.leb_le in H2.
  destruct (isWhiteSpace d) eqn:E; [|reflexivity].
  unfold isWhiteSpace, inRange in E; apply orb_prop in E as [E|E].
  - apply existsb_exists in E as (x & Hin & Hx).
    apply N.eqb_eq in Hx; subst x; simpl in Hin.
    none_of Hin.
  - apply andb_prop in E as [E _]; apply N.leb_le in E; lia.
Qed.

Lemma takeDigits_all (ds : jsstring) :
  forallb isDigit ds = true -> takeDigits ds = ds.
Proof.
  induction ds as [|d ds IH]; [reflexivity|]; cbn [forallb takeDigits].
  intros H; apply andb_prop in H as [-> H]; now rewrite IH.
Qed.

(** The parse of a run of digits is their value, rounded to a double. *)
Lemma parseInt_digits (ds : jsstring) :
  ds <> [] -> forallb isDigit ds = true ->
  parseInt ds = roundToDouble (digitsValue 0 ds).
Proof.
  intros Hne Hds; destruct ds as [|d ds]; [contradiction|].
  pose proof Hds as Hall; cbn [forallb] in Hds; apply andb_prop in Hds as [Hd _].
  unfold parseInt; cbn [trimStart]; rewrite (digit_not_space _ Hd).
  assert (Hm : N.eqb d (ch "-") = false).
  { apply N.eqb_neq; intros ->; discriminate. }
  assert (Hp : N.eqb d (ch "+") = false).
  { apply N.eqb_neq; intros ->; discriminate. }
  rewrite Hm, Hp, (takeDigits_all _ Hall); reflexivity.
Qed.

(** With a literal extension a number is collected from each numbered
    sibling, and from nothing else: it is the value of the sibling's digits
    as a double. *)
Lemma numbered_siblings_collected (settings : PluginSettings)
  (file : TFile.t) (newNameStem ext : jsstring) (listed : list jsstring)
  (x : number) :
  let exact := newNameStem ++ str "." ++ ext in
  In x (dupNameNumbers
          (scanSiblings file exact
             (Pattern (dupNamePattern settings newNameStem ext)) listed))
  <-> exists p ds, In p listed
                   /\ numberedSibling settings file newNameStem ext p ds
                   /\ x = roundToDouble (digitsValue 0 ds).
Proof.
  intros exact; rewrite scan_collects, dupNamePattern_numbered.
  set (pre := beforeNumber settings newNameStem).
  set (post := afterNumber settings newNameStem ext).
  split.
  - intros (p & Hin & Hself & _ & m1 & Hm & _ & -> & _).
    apply (proj1 (exec_numbered pre post (path.basename p))) in Hm.
    exists p, m1; split; [assumption|]; split; [now split|].
    destruct Hm as (Hne & Hds & _); now apply parseInt_digits.
  - intros (p & ds & Hin & (Hself & Hn) & ->).
    exists p; split; [assumption|]; split; [assumption|].
    pose proof Hn as (Hne & Hds & E).
    split.
    + (* a numbered name is not the exact name: the digits make it longer
         or put a digit where the exact name has none *)
      intros Hex; unfold exact in Hex; rewrite Hex in E.
      apply (f_equal (@List.length N)) in E.
      unfold pre, post, beforeNumber, afterNumber in E.
      destruct ds as [|d ds]; [contradiction|].
      destruct (dupNumberAtStart settings);
        repeat (rewrite ?length_app in E; cbn [List.length str map
                  list_ascii_of_string] in E); lia.
    + exists ds; split;
        [now apply (proj1 (exec_numbered pre post (path.basename p)))|].
      split; [assumption|]; split; [symmetry; now apply parseInt_digits|].
      apply roundToDouble_not_NaN.
Qed.

(** The rounding and the addition agree with the library's binary64 on
    integers around every case of the rounding. *)
Lemma roundToDouble_is_binary64_on_samples :
  Forall (fun z => roundToDouble z = ofSpecFloat (binary64 z))
    [0; 1; -1; 4; 2 ^ 53 - 1; 2 ^ 53; 2 ^ 53 + 1; 2 ^ 53 + 2; 2 ^ 53 + 3;
     - (2 ^ 53 + 1); - (2 ^ 53 + 3); 2 ^ 54 + 2; 2 ^ 54 + 6; 2 ^ 54 + 7;
     10 ^ 21; 10 ^ 22 + 1; 12345678901234567890123;
     2 ^ 1024 - 2 ^ 970 - 1; 2 ^ 1024 - 2 ^ 970; 2 ^ 1024; - 2 ^ 1024;
     10 ^ 400]%Z
  /\ Forall (fun z => add (roundToDouble z) (Finite 1)
                      = ofSpecFloat (SFadd 53 1024 (binary64 z) (binary64 1)))
       [0; 1; 41; 2 ^ 53 - 2; 2 ^ 53 - 1; 2 ^ 53; 2 ^ 53 + 2; 2 ^ 54 - 2;
        10 ^ 21; 2 ^ 1024 - 2 ^ 971; 2 ^ 1024]%Z.
Proof. split; repeat constructor; vm_compute; reflexivity. Qed.

(** ** isNameMeaningful *)

Lemma classRanges_plain (d : jsstring) :
  innerHyphenFree d = true -> classRanges d = Some (map One d).
Proof.
  induction d as [|a t IH]; [reflexivity|].
  destruct t as [|h [|b t']]; [reflexivity|reflexivity|].
  intros H; change (negb (N.eqb h (ch "-")) && innerHyphenFree (h :: b :: t')
                    = true) in H.
  apply andb_prop in H as [Hh Ht]; apply negb_true_iff in Hh.
  change (classRanges (a :: h :: b :: t'))
    with (if N.eqb h (ch "-")
          then if N.ltb b a then None
               else option_map (cons (Range a b)) (classRanges t')
          else option_map (cons (One a)) (classRanges (h :: b :: t'))).
  now rewrite Hh, IH.
Qed.

Lemma inClass_plain (d : jsstring) (c : N) :
  inClass (map One d) c = existsb (N.eqb c) d || isWhiteSpace c.
Proof.
  unfold inClass; f_equal; induction d as [|a d IH]; [reflexivity|].
  cbn [map existsb inItem]; now rewrite IH.
Qed.

Lemma filter_nonempty (f : N -> bool) (s : jsstring) :
  negb (isEmpty (filter f s)) = existsb f s.
Proof.
  induction s as [|c s IH]; [reflexivity|]; cbn [filter existsb].
  destruct (f c); [reflexivity|assumption].
Qed.

(** Where no hyphen of the delimiter makes a range (and the delimiter has
    nothing else the class reads as syntax), a name is meaningful exactly
    when it has a character that is neither one of the delimiter nor white
    space. *)
Lemma isNameMeaningful_plain (name delimiter : jsstring) :
  innerHyphenFree delimiter = true ->
  existsb (fun c => N.eqb c (ch "\") || N.eqb c (ch "]")) delimiter = false ->
  startsWith (ch "^") delimiter = false ->
  isNameMeaningful name delimiter = Ok (hasOtherContent name delimiter).
Proof.
  intros Hh Hs Hc; unfold isNameMeaningful; rewrite Hs, Hc.
  rewrite classRanges_plain by assumption.
  rewrite filter_nonempty; unfold hasOtherContent; f_equal.
  induction name as [|c name IH]; [reflexivity|]; cbn [existsb].
  now rewrite IH, inClass_plain.
Qed.

(** What the sanitizer keeps is an allowed character or half of an allowed
    pair. *)
Lemma removeNotAllowed_units (s : jsstring) (c : N) :
  In c (sanitizer.removeNotAllowed s) ->
  sanitizer.allowed c = true \/ isSurrogate c = true.
Proof.
  induction s as [| a | a d t IHt IHd] using list_pairs_ind.
  - intros [].
  - cbn [sanitizer.removeNotAllowed]; destruct (sanitizer.allowed a) eqn:E;
      [intros [<-|[]]; now left|intros []].
  - rewrite removeNotAllowed_two.
    destruct (isHighSurrogate a && isLowSurrogate d) eqn:Hp.
    + apply andb_prop in Hp as [Ha Hd].
      destruct (sanitizer.allowed (codePoint a d)); [|assumption].
      intros [<-|[<-|H]]; [right|right|now apply IHt].
      * unfold isHighSurrogate, isSurrogate, inRange in *.
        apply andb_prop in Ha as [H1 H2]; apply N.leb_le in H1, H2.
        apply andb_true_intro; split; apply N.leb_le; lia.
      * unfold isLowSurrogate, isSurrogate, inRange in *.
        apply andb_prop in Hd as [H1 H2]; apply N.leb_le in H1, H2.
        apply andb_true_intro; split; apply N.leb_le; lia.
    + destruct (sanitizer.allowed a) eqn:E; [|assumption].
      intros [<-|H]; [now left|now apply IHd].
Qed.

Lemma trim_keeps (s : jsstring) (c : N) : In c (trim s) -> In c s.
Proof.
  unfold trim; intros H.
  destruct (trimStart_split s) as (ws & _ & E).
  destruct (trimEnd_split (trimStart s)) as (ws' & _ & E').
  rewrite E, E', !in_app_iff; tauto.
Qed.

(** A sanitized delimiter has none of the characters the class would read
    as syntax, apart from the hyphen. *)
Lemma delimiter_class_syntax (value : jsstring) :
  existsb (fun c => N.eqb c (ch "\") || N.eqb c (ch "]"))
    (sanitizer.delimiter value) = false
  /\ startsWith (ch "^") (sanitizer.delimiter value) = false.
Proof.
  assert (K : forall c, In c (sanitizer.delimiter value) ->
                        sanitizer.allowed c = true \/ isSurrogate c = true).
  { intros c; unfold sanitizer.delimiter, sanitizer.filename.
    destruct (trim (sanitizer.removeNotAllowed value)) eqn:E; cbn [isEmpty].
    - intros [<-|[]]; now left.
    - rewrite <- E; intros H; apply trim_keeps in H.
      now apply removeNotAllowed_units with value. }
  split.
  - destruct (existsb _ (sanitizer.delimiter value)) eqn:E; [|reflexivity].
    apply existsb_exists in E as (c & Hin & Hc).
    apply orb_prop in Hc as [Hc|Hc]; apply N.eqb_eq in Hc; subst c;
      destruct (K _ Hin) as [H|H]; vm_compute in H; discriminate.
  - destruct (sanitizer.delimiter value) as [|c d] eqn:E; [reflexivity|].
    cbn [startsWith]; destruct (N.eqb_spec c (ch "^")) as [->|]; [|reflexivity].
    destruct (K (ch "^") (or_introl eq_refl)) as [H|H]; vm_compute in H;
      discriminate.
Qed.

(** X22.  For a sanitized delimiter in which no hyphen stands between two
    characters, as for the default one, the check is the one documented:
    a name is meaningful exactly when it has a character that is neither
    one of the delimiter nor white space. *)
Lemma isNameMeaningful_sanitized (name value : jsstring) :
  innerHyphenFree (sanitizer.delimiter value) = true ->
  isNameMeaningful name (sanitizer.delimiter value)
  = Ok (hasOtherContent name (sanitizer.delimiter value)).
Proof.
  intros H; destruct (delimiter_class_syntax value) as [H1 H2].
  now apply isNameMeaningful_plain.
Qed.

(** ** Deduplication *)

(** The general rule of the numbering: when the pattern is built, the
    exact name is taken or the always-number flag is set, the call of
    [Math.max] takes the collected numbers and they are below 2^53, the
    name returned is numbered one more than the largest of them. *)
Lemma next_number_rule
  (settings : PluginSettings) (listed : list jsstring) (newName : jsstring)
  (file : TFile.t) (dupNameRegex : RegExp) :
  let newNameStem := Parsed.stem (parseFileName newName) in
  let ext := actualExtensionOf newName file in
  let exact := newNameStem ++ str "." ++ ext in
  let numbers := dupNameNumbers (scanSiblings file exact dupNameRegex listed) in
  newRegExp (dupNameRegexSource settings newNameStem ext) = Ok dupNameRegex ->
  nameTaken file listed exact \/ dupNumberAlways settings = true ->
  spreads numbers = true ->
  Forall (finiteBelow (2 ^ 53)) numbers ->
  exists n : Z,
    nextNumber numbers n
    /\ deduplicateNewName settings listed newName file
       = Ok {| NameObj.name := numberedName settings newNameStem ext n;
               NameObj.stem := newNameStem;
               NameObj.extension := ext |}.
Proof.
  intros newNameStem ext exact numbers Hre Hcond Hsp Hnum.
  destruct (newNumberOf_exact _ Hnum) as (n & Hn & _ & Hs).
  exists n; split; [assumption|].
  unfold deduplicateNewName; fold newNameStem; fold ext; rewrite Hre.
  fold exact; fold numbers.
  assert (C : isNewNameExist (scanSiblings file exact dupNameRegex listed)
              || dupNumberAlways settings = true).
  { destruct Hcond as [Ht| ->]; [|apply orb_true_r].
    apply orb_true_iff; left; now apply scan_exists. }
  rewrite C, (newNumber_returns _ Hsp), Hs; unfold numberedName.
  destruct (dupNumberAtStart settings); reflexivity.
Qed.

(** When the numbers collected are more than a call takes, the call of
    [Math.max] throws and no name is returned. *)
Lemma too_many_numbers_throw
  (settings : PluginSettings) (listed : list jsstring) (newName : jsstring)
  (file : TFile.t) (dupNameRegex : RegExp) :
  let newNameStem := Parsed.stem (parseFileName newName) in
  let ext := actualExtensionOf newName file in
  let exact := newNameStem ++ str "." ++ ext in
  let numbers := dupNameNumbers (scanSiblings file exact dupNameRegex listed) in
  newRegExp (dupNameRegexSource settings newNameStem ext) = Ok dupNameRegex ->
  nameTaken file listed exact \/ dupNumberAlways settings = true ->
  spreads numbers = false ->
  deduplicateNewName settings listed newName file = Throw RangeError.
Proof.
  intros newNameStem ext exact numbers Hre Hcond Hsp.
  unfold deduplicateNewName; fold newNameStem; fold ext; rewrite Hre.
  fold exact; fold numbers.
  assert (C : isNewNameExist (scanSiblings file exact dupNameRegex listed)
              || dupNumberAlways settings = true).
  { destruct Hcond as [Ht| ->]; [|apply orb_true_r].
    apply orb_true_iff; left; now apply scan_exists. }
  rewrite C, newNumber_throws; [reflexivity| |assumption].
  intros E; rewrite E in Hsp; discriminate.
Qed.

(** C1 fails where a double no longer counts.  With siblings [foo.png] and
    [foo-9007199254740992.png] (the number is 2^53) and candidate [foo.png]
    under the default policy, the exact name is taken and the one number
    collected is 2^53; the name returned is [foo-9007199254740992.png]
    again, the name of a listed sibling, and not the name numbered
    9007199254740993, one more than the maximum. *)
Theorem next_number_repeats_at_2_53 :
  let listed := [str "foo.png"; str "foo-9007199254740992.png"] in
  let returned :=
    deduplicateNewName DEFAULT_SETTINGS listed (str "foo.png") pastedImage in
  nameTaken pastedImage listed (str "foo.png")
  /\ (exists dupNameRegex,
        newRegExp (dupNameRegexSource DEFAULT_SETTINGS (str "foo") (str "png"))
        = Ok dupNameRegex
        /\ dupNameNumbers
             (scanSiblings pastedImage (str "foo.png") dupNameRegex listed)
           = [Finite (2 ^ 53)])
  /\ nextNumber [Finite (2 ^ 53)] (2 ^ 53 + 1)
  /\ numberedName DEFAULT_SETTINGS (str "foo") (str "png") (2 ^ 53 + 1)
     = str "foo-9007199254740993.png"
  /\ returned = named "foo-9007199254740992.png" "foo" "png"
  /\ In (str "foo-9007199254740992.png") listed.
Proof.
  intros listed returned.
  split; [exists (str "foo.png"); repeat split; [now left|discriminate]|].
  split; [eexists; split; [run_lhs|vm_compute; reflexivity]|].
  split; [split; [now left|intros z [H|[]]; injection H as <-; lia]|].
  split; [vm_compute; reflexivity|].
  split; [|right; now left].
  subst returned listed; run_with_one_number.
Qed.

(** When the duplicate pattern is built, no other listed file carries the
    exact name and the always-number flag is off, the exact name is
    returned as it is. *)
Lemma deduplicateNewName_free_name
  (settings : PluginSettings) (listed : list jsstring) (newName : jsstring)
  (file : TFile.t) (dupNameRegex : RegExp) :
  let newNameStem := Parsed.stem (parseFileName newName) in
  let ext := actualExtensionOf newName file in
  let exact := newNameStem ++ str "." ++ ext in
  newRegExp (dupNameRegexSource settings newNameStem ext) = Ok dupNameRegex ->
  ~ nameTaken file listed exact ->
  dupNumberAlways settings = false ->
  deduplicateNewName settings listed newName file
  = Ok {| NameObj.name := exact;
          NameObj.stem := newNameStem;
          NameObj.extension := ext |}.
Proof.
  intros newNameStem ext exact Hre Hfree Halways.
  unfold deduplicateNewName; fold newNameStem; fold ext; rewrite Hre.
  fold exact.
  destruct (isNewNameExist (scanSiblings file exact dupNameRegex listed)) eqn:E.
  - exfalso; apply Hfree; now apply (scan_exists file exact dupNameRegex listed).
  - now rewrite Halways.
Qed.

(** X21.  With an extension that has no syntax character of the pattern
    language, a name that no other listed file carries is returned as it
    is when the always-number flag is off. *)
Lemma deduplicateNewName_free_name_literal
  (settings : PluginSettings) (listed : list jsstring) (newName : jsstring)
  (file : TFile.t) :
  let newNameStem := Parsed.stem (parseFileName newName) in
  let ext := actualExtensionOf newName file in
  let exact := newNameStem ++ str "." ++ ext in
  literalExtension ext = true ->
  ~ nameTaken file listed exact ->
  dupNumberAlways settings = false ->
  deduplicateNewName settings listed newName file
  = Ok {| NameObj.name := exact;
          NameObj.stem := newNameStem;
          NameObj.extension := ext |}.
Proof.
  intros newNameStem ext exact Hext.
  apply deduplicateNewName_free_name
    with (dupNameRegex := Pattern (dupNamePattern settings newNameStem ext)).
  now apply newRegExp_dupName.
Qed.

(** With an extension that has no syntax character of the pattern language
    and a listing of no more files than a call takes arguments,
    [deduplicateNewName] returns. *)
Lemma deduplicateNewName_returns
  (settings : PluginSettings) (listed : list jsstring) (newName : jsstring)
  (file : TFile.t) :
  literalExtension (actualExtensionOf newName file) = true ->
  spreads listed = true ->
  exists r, deduplicateNewName settings listed newName file = Ok r.
Proof.
  intros H Hsp; unfold deduplicateNewName.
  rewrite newRegExp_dupName by assumption.
  destruct (_ || _); [|eexists; reflexivity].
  rewrite newNumber_returns; [eexists; reflexivity|].
  apply spreads_shorter with (l' := listed); [apply scan_length|assumption].
Qed.

(** ** Examples of the specification *)

(** C3, as the code has it.  Under the prefix policy with delimiter [-],
    siblings [2-foo.png] and candidate [foo.png]: with the always-number
    flag off no number is added, since no sibling is named [foo.png], and
    the result is [foo.png]; the result is [3-foo.png] when the flag is on,
    and also when [foo.png] is among the siblings. *)
Theorem prefix_policy_example :
  deduplicateNewName (onChange (DupNumberAtStart true) DEFAULT_SETTINGS)
    [str "2-foo.png"] (str "foo.png") pastedImage
  = named "foo.png" "foo" "png"
  /\ deduplicateNewName (onChange (DupNumberAlways true)
          (onChange (DupNumberAtStart true) DEFAULT_SETTINGS))
       [str "2-foo.png"] (str "foo.png") pastedImage
     = named "3-foo.png" "foo" "png"
  /\ deduplicateNewName (onChange (DupNumberAtStart true) DEFAULT_SETTINGS)
       [str "foo.png"; str "2-foo.png"] (str "foo.png") pastedImage
     = named "3-foo.png" "foo" "png".
Proof.
  split; [vm_compute; reflexivity|]; split; run_with_one_number.
Qed.

(** C2 fails where the extension is not a pattern: the candidate [foo.c++]
    for an attached [main.c++] in an empty directory is not returned; the
    pattern's construction throws. *)
Theorem free_name_with_pattern_extension_throws :
  deduplicateNewName DEFAULT_SETTINGS [] (str "foo.c++") mainCpp
  = Throw SyntaxError.
Proof. vm_compute; reflexivity. Qed.

(** C4 fails where the delimiter reads as a range.  The delimiters [a-c],
    [a - b] and [z-a] are what the sanitizer returns for them.  With [a-c]
    the stem [b] is not meaningful although [b] is no character of the
    delimiter; with [a - b] the stem [-] is meaningful although it is made
    of a delimiter character; with [z-a] the check throws. *)
Theorem meaningful_with_range_delimiter :
  sanitizer.delimiter (str "a-c") = str "a-c"
  /\ isNameMeaningful (str "b") (str "a-c") = Ok false
  /\ sanitizer.delimiter (str "a - b") = str "a - b"
  /\ isNameMeaningful (str "-") (str "a - b") = Ok true
  /\ sanitizer.delimiter (str "z-a") = str "z-a"
  /\ isNameMeaningful (str "b") (str "z-a") = Throw SyntaxError.
Proof. repeat split; vm_compute; reflexivity. Qed.

(** A sibling whose digits overflow a double is collected as infinity, and
    the new name is numbered with it. *)
Lemma overflowing_number_is_collected :
  deduplicateNewName DEFAULT_SETTINGS
    [str "foo.png"; str "foo-" ++ repeat (ch "9") 400 ++ str ".png"]
    (str "foo.png") pastedImage
  = named "foo-Infinity.png" "foo" "png".
Proof. run_with_one_number. Qed.

End Properties.

(** * Properties of the rest of the plugin *)

Section PluginProperties.
Context {host : Host} {template : Template}.

(** ** path *)

Lemma split_not_nil (sep : N) (s : jsstring) : path.split sep s <> [].
Proof.
  destruct s as [|c t]; cbn [path.split]; [discriminate|].
  destruct (N.eqb c sep); [discriminate|].
  destruct (path.split sep t); discriminate.
Qed.

Lemma split_no_sep (sep : N) (s : jsstring) :
  ~ In sep s -> path.split sep s = [s].
Proof.
  induction s as [|c t IH]; intros H; [reflexivity|]; cbn [path.split].
  destruct (N.eqb_spec c sep) as [->|_]; [exfalso; apply H; now left|].
  rewrite IH; [reflexivity|]; intros Hin; apply H; now right.
Qed.

Lemma split_app_sep (sep : N) (a b : jsstring) :
  ~ In sep a -> path.split sep (a ++ sep :: b) = a :: path.split sep b.
Proof.
  induction a as [|c t IH]; intros H; cbn [app path.split].
  - now rewrite N.eqb_refl.
  - destruct (N.eqb_spec c sep) as [->|_]; [exfalso; apply H; now left|].
    rewrite IH; [reflexivity|]; intros Hin; apply H; now right.
Qed.

(** No piece of a split holds the separator. *)
Lemma split_pieces (sep : N) (s : jsstring) :
  Forall (fun p => ~ In sep p) (path.split sep s).
Proof.
  induction s as [|c t IH]; cbn [path.split].
  - constructor; [intros []|constructor].
  - destruct (N.eqb_spec c sep) as [->|Hne].
    + constructor; [intros []|assumption].
    + destruct (path.split sep t) as [|h r].
      * constructor; [|constructor]; intros [E|[]]; congruence.
      * apply Forall_cons_iff in IH as [Hh Hr]; constructor; [|assumption].
        intros [E|Hin]; [congruence|contradiction].
Qed.

(** Splitting what was joined gives the pieces back. *)
Lemma split_joinWith (sep : N) (l : list jsstring) :
  l <> [] -> Forall (fun p => ~ In sep p) l ->
  path.split sep (path.joinWith [sep] l) = l.
Proof.
  induction l as [|a l IH]; intros Hne Hl; [contradiction|].
  apply Forall_cons_iff in Hl as [Ha Hl].
  destruct l as [|b r]; cbn [path.joinWith].
  - now apply split_no_sep.
  - cbn [app]; rewrite split_app_sep by assumption.
    f_equal; apply IH; [discriminate|assumption].
Qed.

Lemma pushed_pieces (l : list jsstring) :
  Forall (fun p => ~ In (ch "/") p) l ->
  Forall (fun p => ~ In (ch "/") p) (filter path.pushed l).
Proof.
  intros H; apply Forall_forall; intros p Hp.
  apply filter_In in Hp as [Hp _]; revert p Hp; now apply Forall_forall.
Qed.

Lemma parts_pieces (partSegments : list jsstring) :
  Forall (fun p => ~ In (ch "/") p)
    (flat_map (path.split (ch "/")) partSegments).
Proof.
  apply Forall_forall; intros p Hp.
  apply in_flat_map in Hp as (s & _ & Hp).
  revert p Hp; apply Forall_forall, split_pieces.
Qed.

Lemma join_newParts (partSegments : list jsstring) :
  path.join partSegments = path.joinWith [ch "/"] (newParts partSegments).
Proof. reflexivity. Qed.

Lemma newParts_pieces (partSegments : list jsstring) :
  Forall (fun p => ~ In (ch "/") p) (newParts partSegments).
Proof.
  unfold newParts.
  pose proof (pushed_pieces _ (parts_pieces partSegments)) as H.
  destruct (flat_map _ partSegments) as [|first r]; [exact H|].
  destruct (isEmpty first); [|exact H].
  constructor; [intros []|exact H].
Qed.

Lemma pushed_not_empty (p : jsstring) : path.pushed p = true -> p <> [].
Proof. now intros H ->. Qed.

Lemma filter_pushed_twice (l : list jsstring) :
  filter path.pushed (filter path.pushed l) = filter path.pushed l.
Proof.
  induction l as [|a l IH]; [reflexivity|]; cbn [filter].
  destruct (path.pushed a) eqn:E; [|assumption].
  cbn [filter]; now rewrite E, IH.
Qed.

(** X1.  The last part of a joined path is the name that was joined last:
    for a name that is not empty, is not ["."] and has no slash,
    [path.basename (path.join (dirs..., name))] is [name], whatever the
    directories are.  This is how [renameFile] builds the new path from the
    parent's path and the new name. *)
Theorem basename_of_join (dirs : list jsstring) (name : jsstring) :
  name <> [] -> name <> str "." -> ~ In (ch "/") name ->
  path.basename (path.join (dirs ++ [name])) = name.
Proof.
  intros Hne Hdot Hslash.
  assert (Hp : path.pushed name = true).
  { unfold path.pushed; destruct name as [|c t]; [contradiction|].
    cbn [isEmpty orb]; rewrite streq_neq by assumption; reflexivity. }
  assert (E : exists front, newParts (dirs ++ [name]) = front ++ [name]).
  { unfold newParts; rewrite flat_map_app; cbn [flat_map].
    rewrite app_nil_r, split_no_sep by assumption.
    rewrite filter_app; cbn [filter]; rewrite Hp.
    destruct (flat_map (path.split (ch "/")) dirs) as [|first r]; cbn [app].
    - destruct name; [contradiction|]; cbn [isEmpty filter app].
      now exists [].
    - destruct (isEmpty first); eexists; [|reflexivity].
      now rewrite app_comm_cons. }
  destruct E as (front & E).
  unfold path.basename; rewrite join_newParts.
  rewrite split_joinWith; [|rewrite E; now destruct front|apply newParts_pieces].
  rewrite E; apply last_last.
Qed.

(** X2.  [path.join] is idempotent: joining the path it returned gives
    the same path. *)
Theorem join_idempotent (partSegments : list jsstring) :
  path.join [path.join partSegments] = path.join partSegments.
Proof.
  rewrite (join_newParts partSegments).
  set (l := newParts partSegments).
  assert (Hl : Forall (fun p => ~ In (ch "/") p) l) by apply newParts_pieces.
  destruct l as [|a r] eqn:El; [reflexivity|].
  rewrite join_newParts; f_equal.
  unfold newParts at 1; cbn [flat_map]; rewrite app_nil_r.
  rewrite split_joinWith by (assumption || discriminate).
  (* the parts are already those of a join *)
  unfold l, newParts in El.
  destruct (flat_map (path.split (ch "/")) partSegments) as [|first parts'] eqn:Ep.
  - discriminate.
  - destruct (isEmpty first) eqn:Ef.
    + destruct first; [|discriminate].
      change (filter path.pushed ([] :: parts'))
        with (filter path.pushed parts') in El.
      injection El as <- <-; cbn [isEmpty].
      change (filter path.pushed ([] :: filter path.pushed parts'))
        with (filter path.pushed (filter path.pushed parts')).
      now rewrite filter_pushed_twice.
    + assert (Ha : isEmpty a = false).
      { assert (Hin : In a (filter path.pushed (first :: parts')))
          by (rewrite El; now left).
        apply filter_In in Hin as [_ Hin].
        destruct a; [discriminate|reflexivity]. }
      rewrite Ha, <- El; apply filter_pushed_twice.
Qed.

Lemma dotPositions_app (a b : jsstring) (i : Z) :
  path.dotPositions (a ++ b) i
  = path.dotPositions a i ++ path.dotPositions b (i + Z.of_nat (List.length a)).
Proof.
  revert i; induction a as [|c a IH]; intros i.
  - cbn [app path.dotPositions List.length Z.of_nat]; now rewrite Z.add_0_r.
  - cbn [app path.dotPositions]; rewrite IH.
    replace (i + 1 + Z.of_nat (List.length a))%Z
      with (i + Z.of_nat (List.length (c :: a)))%Z
      by (cbn [List.length]; lia).
    now destruct (N.eqb c (ch ".")).
Qed.

Lemma dotPositions_none (s : jsstring) (i : Z) :
  ~ In (ch ".") s -> path.dotPositions s i = [].
Proof.
  revert i; induction s as [|c s IH]; intros i H; [reflexivity|].
  cbn [path.dotPositions].
  destruct (N.eqb_spec c (ch ".")) as [E|_]; [exfalso; apply H; now left|].
  apply IH; intros Hin; apply H; now right.
Qed.

Lemma extension_split (fullpath : jsstring) :
  (~ In (ch ".") fullpath -> path.extension fullpath = fullpath)
  /\ (forall a b, fullpath = a ++ ch "." :: b -> ~ In (ch ".") b ->
        path.extension fullpath = b).
Proof.
  split.
  - intros H; unfold path.extension; rewrite dotPositions_none by assumption.
    cbn [rev]; apply (sliceFrom_suffix [] fullpath).
  - intros a b -> H; unfold path.extension.
    rewrite dotPositions_app; cbn [path.dotPositions].
    rewrite N.eqb_refl, (dotPositions_none b) by assumption.
    rewrite rev_app_distr; cbn [rev app].
    replace (0 + Z.of_nat (List.length a) + 1)%Z
      with (Z.of_nat (List.length (a ++ [ch "."])))
      by (rewrite length_app; cbn [List.length]; lia).
    replace (a ++ ch "." :: b) with ((a ++ [ch "."]) ++ b)
      by now rewrite <- app_assoc.
    apply sliceFrom_suffix.
Qed.

(** X3.  [path.extension] returns the text after the last dot of the
    path; for a path without a dot it returns the whole path, not the empty
    string.  For a path with a dot it is, lower case aside, the extension
    [parseFileName] gives. *)
Theorem extension_cases (fullpath : jsstring) :
  (~ In dot fullpath -> path.extension fullpath = fullpath)
  /\ (forall a b, fullpath = a ++ dot :: b -> ~ In dot b ->
        path.extension fullpath = b)
  /\ (In dot fullpath ->
      toLowerCase (path.extension fullpath)
      = Parsed.extension (parseFileName fullpath)).
Proof.
  destruct (extension_split fullpath) as [H1 H2].
  split; [exact H1|]; split; [exact H2|].
  intros Hin; destruct (last_dot_split dot fullpath) as [H|(a & b & E & Hb)];
    [contradiction|].
  rewrite (H2 a b E Hb), E, parseFileName_last_dot by assumption.
  reflexivity.
Qed.

(** ** The sanitizer and the patterns *)

Lemma trim_head (s : jsstring) :
  match trim s with
  | c :: _ => isWhiteSpace c = false
  | [] => True
  end.
Proof.
  unfold trim.
  pose proof (trimStart_head s) as Hh.
  destruct (trimEnd_split (trimStart s)) as (ws & _ & E).
  destruct (trimEnd (trimStart s)) as [|c r]; [exact I|].
  now rewrite E in Hh.
Qed.

Lemma trim_last (s t : jsstring) (c : N) :
  trim s = t ++ [c] -> isWhiteSpace c = false.
Proof.
  unfold trim, trimEnd; intros E.
  apply (f_equal (@rev N)) in E.
  rewrite rev_involutive, rev_app_distr in E; cbn [rev app] in E.
  pose proof (trimStart_head (rev (trimStart s))) as Hh.
  now rewrite E in Hh.
Qed.

(** A text the removal leaves as it is has only allowed characters. *)
Lemma removeNotAllowed_fixed_allowed (r : jsstring) :
  sanitizer.removeNotAllowed r = r ->
  forallb sanitizer.allowed (codePoints r) = true.
Proof.
  induction r as [| c | c d t IHt IHd] using list_pairs_ind.
  - reflexivity.
  - cbn [sanitizer.removeNotAllowed codePoints forallb].
    destruct (sanitizer.allowed c); [reflexivity|discriminate].
  - rewrite removeNotAllowed_two.
    change (codePoints (c :: d :: t))
      with (if isHighSurrogate c && isLowSurrogate d
            then codePoint c d :: codePoints t
            else c :: codePoints (d :: t)).
    destruct (isHighSurrogate c && isLowSurrogate d).
    + destruct (sanitizer.allowed (codePoint c d)) eqn:A.
      * intros [= E]; cbn [forallb]; rewrite A; now apply IHt.
      * intros E; apply (f_equal (@List.length N)) in E.
        pose proof (removeNotAllowed_length t); cbn [List.length] in E; lia.
    + destruct (sanitizer.allowed c) eqn:A.
      * intros [= E]; cbn [forallb]; rewrite A; now apply IHd.
      * intros E; apply (f_equal (@List.length N)) in E.
        pose proof (removeNotAllowed_length (d :: t));
          cbn [List.length] in *; lia.
Qed.

(** X4.  What [sanitizer.filename] returns has only allowed characters:
    read by code point, every character of it is a letter, a digit or one
    of the listed punctuation characters, so that a surrogate is in it only
    as half of the pair of an allowed letter; none of its code units is a
    slash, a backslash, a colon, [#], [%], [^], a bracket or [|]; and it
    neither starts nor ends with white space. *)
Theorem filename_output (s : jsstring) :
  forallb sanitizer.allowed (codePoints (sanitizer.filename s)) = true
  /\ (forall c, In c (sanitizer.filename s) ->
                sanitizer.allowed c = true \/ isSurrogate c = true)
  /\ (forall c, In c (str "/\:#%^[]|") -> ~ In c (sanitizer.filename s))
  /\ (forall c t, sanitizer.filename s = c :: t -> isWhiteSpace c = false)
  /\ (forall c t, sanitizer.filename s = t ++ [c] -> isWhiteSpace c = false).
Proof.
  assert (K : forall c, In c (sanitizer.filename s) ->
                        sanitizer.allowed c = true \/ isSurrogate c = true).
  { intros c H; apply trim_keeps in H.
    now apply removeNotAllowed_units with s. }
  split; [apply removeNotAllowed_fixed_allowed, filename_clean|].
  split; [exact K|]; split; [|split].
  - intros c Hc Hin; destruct (K c Hin) as [H|H];
      repeat (destruct Hc as [<-|Hc]; [vm_compute in H; discriminate|]);
      destruct Hc.
  - intros c t E; pose proof (trim_head (sanitizer.removeNotAllowed s)) as H.
    unfold sanitizer.filename in E; now rewrite E in H.
  - intros c t E; now apply trim_last with (sanitizer.removeNotAllowed s) t.
Qed.

(** X5.  [sanitizer.delimiter] is idempotent, so the delimiter the settings
    tab stores is left as it is when it is entered again. *)
Theorem delimiter_idempotent :
  (forall value,
     sanitizer.delimiter (sanitizer.delimiter value) = sanitizer.delimiter value)
  /\ (forall settings value,
        let stored := onChange (DupNumberDelimiter value) settings in
        onChange (DupNumberDelimiter (dupNumberDelimiter stored)) stored = stored).
Proof.
  assert (H : forall value,
            sanitizer.delimiter (sanitizer.delimiter value)
            = sanitizer.delimiter value).
  { intros value.
    assert (I : sanitizer.filename (sanitizer.filename value)
                = sanitizer.filename value).
    { unfold sanitizer.filename at 1; rewrite filename_clean.
      unfold sanitizer.filename; apply trim_idempotent. }
    destruct (sanitizer.filename value) as [|c t] eqn:E.
    - assert (D : sanitizer.delimiter value = str "-")
        by (unfold sanitizer.delimiter; now rewrite E).
      rewrite D; reflexivity.
    - assert (D : sanitizer.delimiter value = c :: t)
        by (unfold sanitizer.delimiter; now rewrite E).
      rewrite D; unfold sanitizer.delimiter; now rewrite I. }
  split; [exact H|].
  intros [pattern atStart delimiter always auto all exclude notice jpeg webp q]
    value; cbn; now rewrite H.
Qed.

(** ** escapeRegExp *)

Lemma parsePattern_chars (s : jsstring) :
  parsePattern (map TChar s) = Some (literal s).
Proof.
  unfold parsePattern; rewrite <- (app_nil_r (map TChar s)), parseTokens_chars.
  cbn [parseTokens]; unfold disjunction, pushChars; cbn [alts terms fold_left].
  now rewrite app_nil_r, seqOf_rev.
Qed.

Lemma newRegExp_escaped (s : jsstring) :
  newRegExp (escapeRegExp s) = Ok (Pattern (literal s)).
Proof.
  unfold newRegExp; rewrite <- (app_nil_r (escapeRegExp s)), tokenize_escaped.
  cbn [tokenize option_map]; now rewrite app_nil_r, parsePattern_chars.
Qed.

Lemma newRegExp_literal (s : jsstring) :
  literalExtension s = true -> newRegExp s = Ok (Pattern (literal s)).
Proof.
  intros H; unfold newRegExp; rewrite <- (app_nil_r s) at 1.
  rewrite tokenize_literal by assumption.
  cbn [tokenize option_map]; now rewrite app_nil_r, parsePattern_chars.
Qed.

Lemma matcher_literal (lit s : jsstring) (p : nat) (c : list (nat * jsstring)) :
  matcher (literal lit) (state p s c) Some <> None <-> exists t, s = lit ++ t.
Proof.
  unfold literal; split.
  - destruct (matcher _ _ _) as [y|] eqn:E; [intros _|congruence].
    apply matcher_chars_inv in E as (t & -> & _); now exists t.
  - intros (t & ->); rewrite matcher_chars; discriminate.
Qed.

Lemma execFrom_literal (lit s : jsstring) (i : nat) :
  execFrom (literal lit) i s <> None <-> occursIn lit s.
Proof.
  revert i; induction s as [|h t IH]; intros i; cbn [execFrom];
    fold (state i [] (@nil (nat * jsstring)));
    try fold (state i (h :: t) (@nil (nat * jsstring))).
  - pose proof (matcher_literal lit [] i []) as M.
    destruct (matcher (literal lit) (state i [] []) Some) as [y|]; split.
    + intros _; destruct (proj1 M ltac:(discriminate)) as (b & E).
      now exists [], b.
    + discriminate.
    + congruence.
    + intros (a & b & E); destruct a; [|discriminate].
      exfalso; apply (proj2 M); [now exists b|reflexivity].
  - pose proof (matcher_literal lit (h :: t) i []) as M.
    destruct (matcher (literal lit) (state i (h :: t) []) Some) as [y|]; split.
    + intros _; destruct (proj1 M ltac:(discriminate)) as (b & E).
      now exists [], b.
    + discriminate.
    + intros H; apply IH in H as (a & b & ->); now exists (h :: a), b.
    + intros (a & b & E); destruct a as [|h' a].
      * exfalso; apply (proj2 M); [now exists b|reflexivity].
      * injection E as <- ->; apply IH; now exists a, b.
Qed.

Lemma test_literal (lit s : jsstring) :
  test (Pattern (literal lit)) s = true <-> occursIn lit s.
Proof.
  rewrite <- (execFrom_literal lit s 0); unfold test; cbn [exec].
  destruct (execFrom (literal lit) 0 s); cbn [option_map]; split;
    congruence.
Qed.

(** X6.  The text [escapeRegExp] returns is always a pattern, and the
    pattern matches a subject exactly when the original text occurs in it:
    every character of the text is taken literally. *)
Theorem escapeRegExp_matches_the_text (s : jsstring) :
  exists re, newRegExp (escapeRegExp s) = Ok re
             /\ forall subject, test re subject = true <-> occursIn s subject.
Proof.
  exists (Pattern (literal s)); split; [apply newRegExp_escaped|].
  intros subject; apply test_literal.
Qed.

(** X7.  [testExcludeExtension] with a pattern that has no syntax
    character of the pattern language never throws, and excludes a file
    exactly when the pattern is not empty and occurs somewhere in the file's
    extension: the empty pattern excludes nothing, and the test is neither
    anchored nor blind to letter case. *)
Theorem testExcludeExtension_literal (settings : PluginSettings)
  (file : TFile.t) :
  literalExtension (excludeExtensionPattern settings) = true ->
  exists excluded, testExcludeExtension settings file = Ok excluded
    /\ (excluded = true
        <-> excludeExtensionPattern settings <> []
            /\ occursIn (excludeExtensionPattern settings) (TFile.extension file)).
Proof.
  intros H; unfold testExcludeExtension.
  destruct (excludeExtensionPattern settings) as [|c pattern] eqn:E;
    cbn [isEmpty].
  - exists false; split; [reflexivity|]; split; [discriminate|now intros []].
  - rewrite newRegExp_literal by assumption.
    eexists; split; [reflexivity|]; rewrite test_literal.
    split; [intros Hin; split; [discriminate|assumption]|now intros []].
Qed.

(** ** Numbers in names *)

(** ** Decimal digits *)

Lemma digitsValue_acc (d : Decimal.uint) (acc : positive) :
  digitsValue (Zpos acc) (str (DecimalString.NilEmpty.string_of_uint d))
  = Zpos (Pos.of_uint_acc d acc).
Proof.
  revert acc; induction d as [|d IH|d IH|d IH|d IH|d IH|d IH|d IH|d IH|d IH|d IH];
    intros acc; [reflexivity|..];
    cbn [DecimalString.NilEmpty.string_of_uint Pos.of_uint_acc];
    unfold str in *; cbn [list_ascii_of_string map digitsValue];
    rewrite <- IH; f_equal;
    match goal with
    | |- context [Z.of_N ?x] =>
      let v := eval vm_compute in (Z.of_N x) in change (Z.of_N x) with v
    end; lia.
Qed.

Lemma digitsValue_uint (d : Decimal.uint) :
  digitsValue 0 (str (DecimalString.NilEmpty.string_of_uint d))
  = Z.of_N (Pos.of_uint d).
Proof.
  induction d as [|d IH|d IH|d IH|d IH|d IH|d IH|d IH|d IH|d IH|d IH];
    [reflexivity|exact IH|..];
    cbn [DecimalString.NilEmpty.string_of_uint Pos.of_uint];
    unfold str; cbn [list_ascii_of_string map digitsValue];
    apply (digitsValue_acc d).
Qed.

Lemma uint_digits (d : Decimal.uint) :
  forallb isDigit (str (DecimalString.NilEmpty.string_of_uint d)) = true.
Proof.
  induction d; [reflexivity|..];
    cbn [DecimalString.NilEmpty.string_of_uint];
    unfold str in *; cbn [list_ascii_of_string map forallb];
    rewrite IHd; reflexivity.
Qed.

Lemma decimal_unfold (n : N) :
  decimal n = str (DecimalString.NilEmpty.string_of_uint (N.to_uint n))
  /\ N.to_uint n <> Decimal.Nil.
Proof.
  assert (H : N.to_uint n <> Decimal.Nil).
  { destruct n; [discriminate|apply DecimalPos.Unsigned.to_uint_nonnil]. }
  split; [|exact H]; unfold decimal, DecimalString.NilZero.string_of_uint.
  destruct (N.to_uint n); [contradiction|reflexivity..].
Qed.

(** The digits printed for a number read back as that number. *)
Lemma digitsValue_decimal (n : N) : digitsValue 0 (decimal n) = Z.of_N n.
Proof.
  rewrite (proj1 (decimal_unfold n)), digitsValue_uint.
  change (Pos.of_uint (N.to_uint n)) with (N.of_uint (N.to_uint n)).
  now rewrite DecimalN.Unsigned.of_to.
Qed.

Lemma decimal_digits (n : N) :
  decimal n <> [] /\ forallb isDigit (decimal n) = true.
Proof.
  destruct (decimal_unfold n) as [E H]; rewrite E; split; [|apply uint_digits].
  destruct (N.to_uint n); [contradiction|discriminate..].
Qed.

Lemma digitsValue_nonneg (ds : jsstring) (acc : Z) :
  (0 <= acc)%Z -> (0 <= digitsValue acc ds)%Z.
Proof.
  revert acc; induction ds as [|d ds IH]; intros acc H; [assumption|].
  cbn [digitsValue]; apply IH; lia.
Qed.

(** X18.  The number [deduplicateNewName] writes into a name is the number
    it reads from that name: for an integer from 0 to 2^53, [parseInt] of
    the printed number is the number. *)
Theorem parseInt_numberToString (n : Z) :
  (0 <= n <= 2 ^ 53)%Z -> parseInt (numberToString (Finite n)) = Finite n.
Proof.
  intros H; rewrite numberToString_small by assumption.
  destruct (decimal_digits (Z.to_N n)) as [Hne Hds].
  rewrite parseInt_digits, digitsValue_decimal by assumption.
  rewrite roundToDouble_exact by lia; f_equal; lia.
Qed.

(** ** No collision *)

Lemma numberedName_numbered (settings : PluginSettings)
  (newNameStem ext : jsstring) (n : Z) :
  numberedAs (beforeNumber settings newNameStem)
    (afterNumber settings newNameStem ext)
    (numberedName settings newNameStem ext n) (decimal (Z.to_N n)).
Proof.
  destruct (decimal_digits (Z.to_N n)) as [Hne Hds].
  repeat split; [assumption|assumption|].
  unfold numberedName, beforeNumber, afterNumber.
  destruct (dupNumberAtStart settings); cbn [app];
    now rewrite <- ?app_assoc.
Qed.

(** X19.  [deduplicateNewName] avoids the siblings: when the extension has
    no syntax character of the pattern language and the numbers of the
    numbered siblings are below 2^53, a name it returns is not the name of
    any listed file other than the renamed file itself; and it returns
    when the files listed are not more than a call takes arguments (beyond,
    the call of [Math.max] may throw a RangeError). *)
Theorem deduplicateNewName_avoids_siblings
  (settings : PluginSettings) (listed : list jsstring) (newName : jsstring)
  (file : TFile.t) :
  let newNameStem := Parsed.stem (parseFileName newName) in
  let ext := actualExtensionOf newName file in
  literalExtension ext = true ->
  (forall p ds, In p listed ->
                numberedSibling settings file newNameStem ext p ds ->
                (digitsValue 0 ds < 2 ^ 53)%Z) ->
  (spreads listed = true ->
   exists r, deduplicateNewName settings listed newName file = Ok r)
  /\ forall r, deduplicateNewName settings listed newName file = Ok r ->
       forall p, In p listed -> path.basename p <> TFile.name file ->
                 path.basename p <> NameObj.name r.
Proof.
  intros newNameStem ext Hext Hsmall.
  split; [now apply deduplicateNewName_returns|].
  set (exact := newNameStem ++ str "." ++ ext).
  set (re := Pattern (dupNamePattern settings newNameStem ext)).
  set (numbers := dupNameNumbers (scanSiblings file exact re listed)).
  assert (Hnum : Forall (finiteBelow (2 ^ 53)) numbers).
  { apply Forall_forall; intros x Hx.
    apply numbered_siblings_collected in Hx as (p & ds & Hin & Hsib & ->).
    exists (digitsValue 0 ds).
    pose proof (Hsmall p ds Hin Hsib) as Hlt.
    pose proof (digitsValue_nonneg ds 0 ltac:(lia)) as Hge.
    split; [apply roundToDouble_exact; lia|lia]. }
  unfold deduplicateNewName; fold newNameStem; fold ext.
  rewrite newRegExp_dupName by assumption; fold exact; fold re; fold numbers.
  intros r Hr p Hin Hself.
  destruct (isNewNameExist (scanSiblings file exact re listed)
            || dupNumberAlways settings) eqn:C.
  - destruct (newNumber_cases numbers) as [N|[N _]]; rewrite N in Hr;
      [|discriminate].
    injection Hr as <-; cbn [NameObj.name].
    destruct (newNumberOf_exact _ Hnum) as (n & Hn & Hrange & Hs).
    rewrite Hs; fold (numberedName settings newNameStem ext n).
    intros E.
    assert (Hin' : In (Finite n) numbers).
    { apply numbered_siblings_collected.
      exists p, (decimal (Z.to_N n)); split; [assumption|]; split.
      - split; [assumption|]; rewrite E; apply numberedName_numbered.
      - rewrite digitsValue_decimal, Z2N.id by lia.
        symmetry; apply roundToDouble_exact; lia. }
    unfold nextNumber in Hn; destruct numbers as [|x l]; [destruct Hin'|].
    destruct Hn as [_ Hall]; specialize (Hall n Hin'); lia.
  - injection Hr as <-; cbn [NameObj.name].
    apply orb_false_iff in C as [C _]; intros E.
    assert (T : isNewNameExist (scanSiblings file exact re listed) = true)
      by (apply scan_exists; now exists p).
    congruence.
Qed.

(** ** The order of the listing *)

Lemma visit_contribution (file : TFile.t) (exact : jsstring) (re : RegExp)
  (st : scan) (p : jsstring) :
  dupNameNumbers (visit file exact re st p)
  = dupNameNumbers st ++ contribution file exact re p.
Proof.
  unfold contribution, visit.
  destruct (streq (TFile.name file) (path.basename p));
    [now rewrite app_nil_r|].
  destruct (streq (path.basename p) exact); [now rewrite app_nil_r|].
  destruct (exec re (path.basename p)) as [[m1|]|];
    try now rewrite app_nil_r.
  destruct (isEmpty m1); [now rewrite app_nil_r|].
  destruct (isNaN (parseInt m1)); [now rewrite app_nil_r|reflexivity].
Qed.

Lemma fold_visit_numbers (file : TFile.t) (exact : jsstring) (re : RegExp)
  (l : list jsstring) (st : scan) :
  dupNameNumbers (fold_left (visit file exact re) l st)
  = dupNameNumbers st ++ flat_map (contribution file exact re) l.
Proof.
  revert st; induction l as [|p l IH]; intros st; cbn [fold_left flat_map].
  - now rewrite app_nil_r.
  - now rewrite IH, visit_contribution, app_assoc.
Qed.

Lemma existsb_permutation {A : Type} (f : A -> bool) (l l' : list A) :
  Permutation l l' -> existsb f l = existsb f l'.
Proof.
  induction 1 as [|x l l' _ IH|x y l|l l' l'' _ IH1 _ IH2]; cbn [existsb].
  - reflexivity.
  - now rewrite IH.
  - now destruct (f x), (f y).
  - congruence.
Qed.

Lemma max2_swap (a x y : number) : max2 (max2 a x) y = max2 (max2 a y) x.
Proof.
  destruct a as [|[]|a], x as [|[]|x], y as [|[]|y]; cbn [max2];
    try reflexivity; f_equal; lia.
Qed.

Lemma fold_max2_permutation (l l' : list number) :
  Permutation l l' ->
  forall acc, fold_left max2 l acc = fold_left max2 l' acc.
Proof.
  induction 1 as [|x l l' _ IH|x y l|l l' l'' _ IH1 _ IH2]; intros acc;
    cbn [fold_left].
  - reflexivity.
  - apply IH.
  - now rewrite max2_swap.
  - now rewrite IH1.
Qed.

Lemma newNumberOf_permutation (l l' : list number) :
  Permutation l l' -> newNumberOf l = newNumberOf l'.
Proof.
  intros H; destruct l as [|x l], l' as [|x' l'].
  - reflexivity.
  - apply Permutation_nil in H; discriminate.
  - apply Permutation_sym, Permutation_nil in H; discriminate.
  - unfold newNumberOf, Math_max; now rewrite (fold_max2_permutation _ _ H).
Qed.

Lemma newNumber_permutation (l l' : list number) :
  Permutation l l' -> newNumber l = newNumber l'.
Proof.
  intros H; pose proof (newNumberOf_permutation _ _ H) as E.
  pose proof (spreads_permutation _ _ H) as F.
  destruct l as [|x l], l' as [|x' l'].
  - reflexivity.
  - apply Permutation_nil in H; discriminate.
  - apply Permutation_sym, Permutation_nil in H; discriminate.
  - cbn [newNumber newNumberOf] in *; now rewrite E, F.
Qed.

(** X20.  The result of [deduplicateNewName] does not depend on the order
    in which the directory lists its files. *)
Theorem deduplicateNewName_order_independent
  (settings : PluginSettings) (listed listed' : list jsstring)
  (newName : jsstring) (file : TFile.t) :
  Permutation listed listed' ->
  deduplicateNewName settings listed newName file
  = deduplicateNewName settings listed' newName file.
Proof.
  intros H; unfold deduplicateNewName.
  destruct (newRegExp _) as [re|e]; [|reflexivity].
  set (exact := Parsed.stem (parseFileName newName) ++ str "."
                ++ actualExtensionOf newName file).
  assert (E1 : isNewNameExist (scanSiblings file exact re listed)
               = isNewNameExist (scanSiblings file exact re listed')).
  { unfold scanSiblings; rewrite !fold_visit_exists.
    f_equal; now apply existsb_permutation. }
  assert (E2 : newNumber (dupNameNumbers (scanSiblings file exact re listed))
               = newNumber (dupNameNumbers (scanSiblings file exact re listed'))).
  { apply newNumber_permutation; unfold scanSiblings.
    rewrite !fold_visit_numbers; cbn [dupNameNumbers app].
    now apply Permutation_flat_map. }
  now rewrite E1, E2.
Qed.

(** ** Lower case of ASCII text *)

Lemma asciiLower_ascii (c : N) : isAscii c = true -> isAscii (asciiLower c) = true.
Proof.
  unfold isAscii, asciiLower, inRange; intros H; apply N.ltb_lt in H.
  destruct (N.leb_spec 65 c), (N.leb_spec c 90); cbn [andb];
    apply N.ltb_lt; lia.
Qed.

Lemma asciiLower_twice (c : N) : asciiLower (asciiLower c) = asciiLower c.
Proof.
  unfold asciiLower at 2; unfold inRange.
  destruct (N.leb_spec 65 c), (N.leb_spec c 90); cbn [andb]; try reflexivity;
    unfold asciiLower, inRange;
    destruct (N.leb_spec 65 (c + 32)), (N.leb_spec (c + 32) 90); cbn [andb];
    try reflexivity; try lia.
  all: destruct (N.leb_spec 65 c), (N.leb_spec c 90); cbn [andb];
    try reflexivity; lia.
Qed.

Lemma toLowerCase_ascii (s : jsstring) :
  forallb isAscii s = true ->
  toLowerCase s = map asciiLower s
  /\ forallb isAscii (toLowerCase s) = true.
Proof.
  intros H; unfold toLowerCase; rewrite H; split; [reflexivity|].
  rewrite forallb_forall in *; intros c Hc.
  apply in_map_iff in Hc as (x & <- & Hx); now apply asciiLower_ascii, H.
Qed.

Lemma toLowerCase_twice (s : jsstring) :
  forallb isAscii s = true -> toLowerCase (toLowerCase s) = toLowerCase s.
Proof.
  intros H; destruct (toLowerCase_ascii s H) as [E Ha].
  rewrite (proj1 (toLowerCase_ascii _ Ha)), E, map_map.
  apply map_ext; intros c; apply asciiLower_twice.
Qed.

Lemma asciiLower_keeps (k c : N) :
  inRange 65 90 k = false -> inRange 97 122 k = false ->
  asciiLower c = k -> c = k.
Proof.
  unfold asciiLower, inRange; intros H1 H2.
  destruct (N.leb_spec 65 c), (N.leb_spec c 90); cbn [andb]; try tauto.
  intros <-; exfalso.
  destruct (N.leb_spec 97 (c + 32)), (N.leb_spec (c + 32) 122);
    cbn [andb] in H2; try discriminate; lia.
Qed.

(** Lower case brings in no character that is not a letter. *)
Lemma toLowerCase_no_new (k : N) (s : jsstring) :
  forallb isAscii s = true ->
  inRange 65 90 k = false -> inRange 97 122 k = false ->
  In k (toLowerCase s) -> In k s.
Proof.
  intros H H1 H2; rewrite (proj1 (toLowerCase_ascii s H)).
  intros Hin; apply in_map_iff in Hin as (c & E & Hc).
  now rewrite <- (asciiLower_keeps k c H1 H2 E).
Qed.

(** ** generateNewName *)

(** What [getActualExtension] makes of an ASCII extension without a dot. *)
Lemma getActualExtension_ascii (extension : jsstring) (settings : PluginSettings) :
  forallb isAscii extension = true -> ~ In dot extension ->
  let actual := getActualExtension extension settings in
  forallb isAscii actual = true /\ ~ In dot actual
  /\ toLowerCase actual = actual.
Proof.
  intros Ha Hd actual.
  assert (L : forallb isAscii (toLowerCase extension) = true
              /\ ~ In dot (toLowerCase extension)
              /\ toLowerCase (toLowerCase extension) = toLowerCase extension).
  { split; [now apply toLowerCase_ascii|]; split; [|now apply toLowerCase_twice].
    intros Hin; apply Hd; now apply toLowerCase_no_new in Hin. }
  unfold actual, getActualExtension.
  destruct (streq (toLowerCase extension) (str "png")); [|exact L].
  destruct (pngToWebp settings);
    [repeat split; try reflexivity; vm_compute; intuition discriminate|].
  destruct (pngToJpeg settings);
    [repeat split; try reflexivity; vm_compute; intuition discriminate|exact L].
Qed.

(** X12.  The name [generateNewName] returns parses back into its parts:
    for a file whose extension is ASCII and has no dot, the extension
    returned is the one [getActualExtension] gives, the new name is the stem,
    a dot and that extension, and [parseFileName] of the new name gives the
    stem (dots included) and the extension back. *)
Theorem generateNewName_parses_back (settings : PluginSettings) (file : TFile.t)
  (activeFile : ActiveFile.t) (fileCache : option CachedMetadata)
  (generated : Generated.t) :
  forallb isAscii (TFile.extension file) = true ->
  ~ In dot (TFile.extension file) ->
  generateNewName settings (Some file) (Some activeFile) fileCache = Ok generated ->
  Generated.extension generated = getActualExtension (TFile.extension file) settings
  /\ Generated.newName generated
     = Generated.stem generated ++ str "." ++ Generated.extension generated
  /\ parseFileName (Generated.newName generated)
     = {| Parsed.stem := Generated.stem generated;
          Parsed.extension := Generated.extension generated |}.
Proof.
  intros Ha Hd; unfold generateNewName.
  destruct (isNameMeaningful _ _) as [m|e]; [|discriminate].
  intros [= <-]; cbn [Generated.extension Generated.newName Generated.stem].
  destruct (getActualExtension_ascii _ settings Ha Hd) as (_ & Hdot & Hlow).
  split; [reflexivity|]; split; [reflexivity|].
  change (str "." ++ ?x) with (dot :: x).
  rewrite parseFileName_last_dot by assumption; now rewrite Hlow.
Qed.

(** ** convertImageIfNeeded *)

(** X10.  The conversion of the content and the extension of the name
    agree: [convertImageIfNeeded] converts a file exactly when it is a PNG
    and a conversion is on, to the format [getActualExtension] names ([webp]
    before [jpeg]); when it does not convert, [getActualExtension] is the
    extension in lower case. *)
Theorem conversion_follows_extension (file : TFile.t) (settings : PluginSettings) :
  match conversionFormat file settings with
  | Some format =>
    toLowerCase (TFile.extension file) = str "png"
    /\ getActualExtension (TFile.extension file) settings = format
    /\ (format = str "webp" \/ format = str "jpeg")
  | None =>
    getActualExtension (TFile.extension file) settings
    = toLowerCase (TFile.extension file)
  end.
Proof.
  unfold conversionFormat, getActualExtension.
  destruct (streq (toLowerCase (TFile.extension file)) (str "png")) eqn:E;
    cbn [negb]; [|reflexivity].
  apply streq_eq in E.
  destruct (pngToJpeg settings), (pngToWebp settings); cbn [negb andb]; auto.
Qed.

(** ** renameFile *)

(** X14.  The two guards of [renameFile].  For a file, the Error "Invalid
    file or new name" is thrown exactly when the input is empty, and the
    Error "New name cannot be empty after sanitization" exactly when the
    input is not empty and is made of characters the sanitizer removes and
    of white space; without a file the first Error is thrown. *)
Theorem renameFile_rejects_blank_names (settings : PluginSettings)
  (listed : list jsstring) (file : TFile.t) (parentPath inputNewName : jsstring) :
  (renameFile settings listed (Some file) parentPath inputNewName
   = Throws (Error (str "Invalid file or new name"))
   <-> inputNewName = [])
  /\ (renameFile settings listed (Some file) parentPath inputNewName
      = Throws (Error (str "New name cannot be empty after sanitization"))
      <-> inputNewName <> [] /\ sanitizer.filename inputNewName = [])
  /\ renameFile settings listed None parentPath inputNewName
     = Throws (Error (str "Invalid file or new name")).
Proof.
  unfold renameFile; destruct inputNewName as [|c input]; cbn [isEmpty].
  - repeat split; try reflexivity; [discriminate|now intros [H _]].
  - destruct (sanitizer.filename (c :: input)) as [|c' name] eqn:E; cbn [isEmpty].
    + repeat split; try reflexivity; discriminate.
    + repeat split; try reflexivity; try discriminate;
        try (now intros [_ H]);
        destruct (deduplicateNewName _ _ _ _); discriminate.
Qed.

Lemma deduplicateNewName_name (settings : PluginSettings) (listed : list jsstring)
  (newName : jsstring) (file : TFile.t) (r : NameObj.t) :
  deduplicateNewName settings listed newName file = Ok r ->
  exists front,
    NameObj.name r = front ++ str "." ++ actualExtensionOf newName file.
Proof.
  unfold deduplicateNewName; destruct (newRegExp _) as [a|]; [|discriminate].
  destruct (_ || _).
  - destruct (newNumber _) as [n|]; [|discriminate].
    intros [= <-]; cbn [NameObj.name]; destruct (dupNumberAtStart settings).
    + exists (numberToString n ++ dupNumberDelimiter settings
              ++ Parsed.stem (parseFileName newName)).
      now rewrite <- !app_assoc.
    + exists (Parsed.stem (parseFileName newName)
              ++ dupNumberDelimiter settings ++ numberToString n).
      now rewrite <- !app_assoc.
  - intros [= <-]; now exists (Parsed.stem (parseFileName newName)).
Qed.

(** X15.  The extension of the name [renameFile] gives: when the sanitized
    input has an extension of its own (a non-empty text after its last dot)
    the new name ends in a dot and that extension, whatever the file's
    extension and the conversion settings are; otherwise it ends in a dot
    and what [getActualExtension] makes of the file's extension. *)
Theorem renameFile_extension (settings : PluginSettings) (listed : list jsstring)
  (file : TFile.t) (parentPath inputNewName : jsstring) (r : Renaming.t) :
  let typed := Parsed.extension (parseFileName (sanitizer.filename inputNewName)) in
  forallb isAscii (TFile.extension file) = true ->
  ~ In dot (TFile.extension file) ->
  renameFile settings listed (Some file) parentPath inputNewName = Returns r ->
  exists front,
    Renaming.newName r
    = front ++ str "."
      ++ (if isEmpty typed
          then getActualExtension (TFile.extension file) settings
          else typed).
Proof.
  intros typed Ha Hd; unfold renameFile.
  destruct (isEmpty inputNewName); [discriminate|].
  destruct (isEmpty (sanitizer.filename inputNewName)); [discriminate|].
  destruct (deduplicateNewName _ _ _ _) as [obj|e] eqn:D; [|discriminate].
  intros [= <-]; cbn [Renaming.newName].
  apply deduplicateNewName_name in D as (front & ->).
  exists front; do 2 f_equal.
  unfold actualExtensionOf, nameToDedup; fold typed.
  destruct (isEmpty typed) eqn:Et; [|fold typed; now rewrite Et].
  destruct (getActualExtension_ascii _ settings Ha Hd) as (_ & Hdot & Hlow).
  change (str "." ++ ?x) with (dot :: x).
  rewrite parseFileName_last_dot by assumption; cbn [Parsed.extension].
  rewrite Hlow.
  destruct (getActualExtension (TFile.extension file) settings) eqn:G;
    cbn [isEmpty]; [|reflexivity].
  (* an extension that comes out empty was empty *)
  unfold getActualExtension in G.
  assert (L : toLowerCase (TFile.extension file) = []).
  { destruct (streq _ _) eqn:S; [|exact G].
    destruct (pngToWebp settings); [discriminate|].
    destruct (pngToJpeg settings); [discriminate|exact G]. }
  rewrite (proj1 (toLowerCase_ascii _ Ha)) in L.
  now apply map_eq_nil in L.
Qed.

(** ** The create event *)

(** X8.  A pasted image is always handled: for a file created no more than
    a second ago whose name starts with ["Pasted image "] and whose
    extension is not [md], the handler of the create event starts the rename
    process, whatever the setting for all attachments and the exclusion
    pattern are, even a pattern that cannot be built. *)
Theorem onCreate_pasted_image (settings : PluginSettings) (now ctime : Z)
  (file : TFile.t) :
  startsWithText (TFile.name file) PASTED_IMAGE_PREFIX = true ->
  TFile.extension file <> str "md" ->
  (now - ctime <= 1000)%Z ->
  onCreate settings now (OfTFile file ctime)
  = Ok (Started file (autoRename settings)).
Proof.
  intros Hp Hm Ht; unfold onCreate.
  destruct (Z.ltb_spec 1000 (now - ctime)); [lia|].
  cbn [isMarkdownFile isPastedImage]; now rewrite streq_neq, Hp by assumption.
Qed.

(** X9.  What the handler of the create event never handles: a folder, a
    file created more than a second ago, and a markdown file, even one
    named like a pasted image. *)
Theorem onCreate_ignores (settings : PluginSettings) (now : Z) :
  onCreate settings now OfTFolder = Ok Ignored
  /\ (forall file ctime,
        (1000 < now - ctime)%Z ->
        onCreate settings now (OfTFile file ctime) = Ok Ignored)
  /\ (forall file ctime,
        TFile.extension file = str "md" ->
        onCreate settings now (OfTFile file ctime) = Ok Ignored).
Proof.
  split; [reflexivity|]; split; intros file ctime H; unfold onCreate.
  - destruct (Z.ltb_spec 1000 (now - ctime)); [reflexivity|lia].
  - destruct (Z.ltb_spec 1000 (now - ctime)); [reflexivity|].
    cbn [isMarkdownFile]; now rewrite H.
Qed.

(** ** The rename modal *)

Lemma removeNotAllowed_app (a b : jsstring) :
  match b with
  | c :: _ => isLowSurrogate c = false
  | [] => True
  end ->
  sanitizer.removeNotAllowed (a ++ b)
  = sanitizer.removeNotAllowed a ++ sanitizer.removeNotAllowed b.
Proof.
  intros Hb; induction a as [| c | c d t IHt IHd] using list_pairs_ind.
  - reflexivity.
  - destruct b as [|e b]; [now rewrite !app_nil_r|].
    change ([c] ++ e :: b) with (c :: e :: b).
    rewrite removeNotAllowed_two, Hb, andb_false_r.
    cbn [sanitizer.removeNotAllowed]; now destruct (sanitizer.allowed c).
  - change ((c :: d :: t) ++ b) with (c :: d :: (t ++ b)).
    rewrite !removeNotAllowed_two.
    change (d :: (t ++ b)) with ((d :: t) ++ b).
    rewrite IHt, IHd.
    destruct (isHighSurrogate c && isLowSurrogate d);
      [destruct (sanitizer.allowed (codePoint c d))|destruct (sanitizer.allowed c)];
      reflexivity.
Qed.

Lemma removeNotAllowed_fixed (s : jsstring) :
  forallb sanitizer.allowed s = true -> sanitizer.removeNotAllowed s = s.
Proof.
  induction s as [|c s IH]; [reflexivity|]; cbn [forallb]; intros H.
  apply andb_prop in H as [Hc Hs].
  rewrite removeNotAllowed_cons, Hc, IH; [reflexivity|assumption|].
  now apply surrogate_halves, allowed_not_surrogate.
Qed.

Lemma trim_fixed (s : jsstring) :
  match s with c :: _ => isWhiteSpace c = false | [] => True end ->
  match rev s with c :: _ => isWhiteSpace c = false | [] => True end ->
  trim s = s.
Proof.
  intros Hh Hl; unfold trim, trimEnd.
  rewrite (trimStart_fixed s Hh), (trimStart_fixed (rev s) Hl).
  apply rev_involutive.
Qed.

Lemma alphaNumeric_facts (c : N) :
  isAlphaNumeric c = true ->
  sanitizer.allowed c = true /\ isWhiteSpace c = false /\ c <> dot
  /\ isAscii c = true.
Proof.
  unfold isAlphaNumeric, isDigit, inRange; intros H.
  assert (R : (48 <= c <= 57 \/ 65 <= c <= 90 \/ 97 <= c <= 122)%N).
  { apply orb_prop in H as [H|H]; [apply orb_prop in H as [H|H]|];
      apply andb_prop in H as [H1 H2]; apply N.leb_le in H1, H2; lia. }
  clear H; repeat split.
  - unfold sanitizer.allowed, sanitizer.isLetter, isDigit, inRange.
    replace (N.ltb c 128) with true by (symmetry; apply N.ltb_lt; lia).
    destruct (N.leb_spec 65 c), (N.leb_spec c 90), (N.leb_spec 97 c),
      (N.leb_spec c 122), (N.leb_spec 48 c), (N.leb_spec c 57);
      cbn [andb orb]; try reflexivity; lia.
  - destruct (isWhiteSpace c) eqn:E; [|reflexivity].
    unfold isWhiteSpace, inRange in E; apply orb_prop in E as [E|E].
    + apply existsb_exists in E as (x & Hin & Hx).
      apply N.eqb_eq in Hx; subst x; simpl in Hin.
      none_of Hin.
    + apply andb_prop in E as [E _]; apply N.leb_le in E; lia.
  - intros ->; change dot with 46%N in R; lia.
  - apply N.ltb_lt; lia.
Qed.

Lemma asciiLower_alphaNumeric (c : N) :
  isAlphaNumeric c = true -> isAlphaNumeric (asciiLower c) = true.
Proof.
  unfold isAlphaNumeric, asciiLower, isDigit, inRange; intros H.
  assert (R : (48 <= c <= 57 \/ 65 <= c <= 90 \/ 97 <= c <= 122)%N).
  { apply orb_prop in H as [H|H]; [apply orb_prop in H as [H|H]|];
      apply andb_prop in H as [H1 H2]; apply N.leb_le in H1, H2; lia. }
  clear H.
  destruct (N.leb_spec 65 c), (N.leb_spec c 90); cbn [andb].
  all: match goal with
       | |- context [N.leb 97 ?x] =>
         destruct (N.leb_spec 97 x), (N.leb_spec x 122), (N.leb_spec 48 x),
           (N.leb_spec x 57), (N.leb_spec 65 x), (N.leb_spec x 90);
           cbn [andb orb]; try reflexivity; lia
       end.
Qed.

(** What [getActualExtension] makes of an extension of letters and
    digits. *)
Lemma getActualExtension_alphaNumeric (extension : jsstring)
  (settings : PluginSettings) :
  extension <> [] -> forallb isAlphaNumeric extension = true ->
  let actual := getActualExtension extension settings in
  actual <> [] /\ forallb isAlphaNumeric actual = true.
Proof.
  intros Hne Ha actual.
  assert (Hascii : forallb isAscii extension = true).
  { rewrite forallb_forall in *; intros c Hc.
    now apply alphaNumeric_facts, Ha. }
  assert (L : toLowerCase extension <> []
              /\ forallb isAlphaNumeric (toLowerCase extension) = true).
  { rewrite (proj1 (toLowerCase_ascii _ Hascii)); split.
    - destruct extension; [contradiction|discriminate].
    - rewrite forallb_forall in *; intros c Hc.
      apply in_map_iff in Hc as (x & <- & Hx).
      now apply asciiLower_alphaNumeric, Ha. }
  unfold actual, getActualExtension.
  destruct (streq (toLowerCase extension) (str "png")); [|exact L].
  destruct (pngToWebp settings); [split; [discriminate|reflexivity]|].
  destruct (pngToJpeg settings); [split; [discriminate|reflexivity]|exact L].
Qed.

(** A sanitized stem with an extension of letters and digits is left as it
    is by the sanitizer. *)
Lemma filename_of_sanitized (value ext : jsstring) :
  sanitizer.filename value <> [] ->
  forallb isAlphaNumeric ext = true ->
  sanitizer.filename (sanitizer.filename value ++ dot :: ext)
  = sanitizer.filename value ++ dot :: ext.
Proof.
  intros Hne Hext.
  set (stem := sanitizer.filename value) in *.
  assert (Hall : forallb sanitizer.allowed (dot :: ext) = true).
  { cbn [forallb]; apply andb_true_intro; split; [reflexivity|].
    rewrite forallb_forall in *; intros c Hc.
    now apply alphaNumeric_facts, Hext. }
  unfold sanitizer.filename at 1.
  rewrite removeNotAllowed_app by reflexivity.
  unfold stem at 1; rewrite filename_clean; fold stem.
  rewrite removeNotAllowed_fixed by assumption.
  apply trim_fixed.
  - pose proof (trim_head (sanitizer.removeNotAllowed value)) as H.
    fold (sanitizer.filename value) in H; fold stem in H.
    destruct stem; [contradiction|exact H].
  - rewrite rev_app_distr; cbn [rev]; rewrite <- app_assoc.
    destruct (rev ext) as [|c r] eqn:E; [reflexivity|].
    cbn [app]; apply alphaNumeric_facts.
    rewrite forallb_forall in Hext; apply Hext, in_rev.
    rewrite E; now left.
Qed.

(** X16.  What is typed in the modal is the stem of the new name: for a
    file with an extension of letters and digits, the name the modal
    submits (the sanitized text, a dot and the actual extension) reaches
    [deduplicateNewName] as it is, and the object returned there has the
    sanitized text, dots included, as stem and the actual extension as
    extension. *)
Theorem modal_name_is_kept (settings : PluginSettings) (listed : list jsstring)
  (src : TFile.t) (parentPath value : jsstring) (r : Renaming.t) :
  let stem := sanitizer.filename value in
  let actualExtension := getActualExtension (TFile.extension src) settings in
  stem <> [] ->
  TFile.extension src <> [] ->
  forallb isAlphaNumeric (TFile.extension src) = true ->
  renameFile settings listed (Some src) parentPath
    (Modal.getNewName settings src stem) = Returns r ->
  exists obj,
    deduplicateNewName settings listed (stem ++ str "." ++ actualExtension) src
    = Ok obj
    /\ NameObj.stem obj = stem
    /\ NameObj.extension obj = actualExtension
    /\ Renaming.newName r = NameObj.name obj.
Proof.
  intros stem actualExtension Hstem Hne Hext.
  destruct (getActualExtension_alphaNumeric _ settings Hne Hext) as [Hane Haa].
  fold actualExtension in Hane, Haa.
  assert (Hascii : forallb isAscii actualExtension = true).
  { rewrite forallb_forall in *; intros c Hc.
    now apply alphaNumeric_facts, Haa. }
  assert (Hdot : ~ In dot actualExtension).
  { intros Hin; rewrite forallb_forall in Haa.
    now apply (alphaNumeric_facts _ (Haa _ Hin)). }
  assert (Hlow : toLowerCase actualExtension = actualExtension).
  { unfold actualExtension, getActualExtension.
    destruct (streq _ (str "png")); [|apply toLowerCase_twice].
    - destruct (pngToWebp settings); [reflexivity|].
      destruct (pngToJpeg settings); [reflexivity|apply toLowerCase_twice].
      rewrite forallb_forall in *; intros c Hc.
      now apply alphaNumeric_facts, Hext.
    - rewrite forallb_forall in *; intros c Hc.
      now apply alphaNumeric_facts, Hext. }
  unfold renameFile, Modal.getNewName, Modal.actualExtension.
  fold actualExtension; change (str "." ++ ?x) with (dot :: x).
  assert (E : isEmpty (stem ++ dot :: actualExtension) = false)
    by now destruct stem.
  assert (F : sanitizer.filename (stem ++ dot :: actualExtension)
              = stem ++ dot :: actualExtension)
    by now apply filename_of_sanitized.
  rewrite E, !F, E.
  assert (P : parseFileName (stem ++ dot :: actualExtension)
              = {| Parsed.stem := stem; Parsed.extension := actualExtension |}).
  { rewrite parseFileName_last_dot by assumption; now rewrite Hlow. }
  assert (T : nameToDedup settings src (stem ++ dot :: actualExtension)
              = stem ++ dot :: actualExtension).
  { unfold nameToDedup; rewrite P; cbn [Parsed.extension].
    destruct actualExtension; [contradiction|reflexivity]. }
  rewrite T.
  destruct (deduplicateNewName settings listed
              (stem ++ dot :: actualExtension) src) as [obj|e] eqn:D;
    [|discriminate].
  intros [= <-]; exists obj; split; [reflexivity|].
  cbn [Renaming.newName]; unfold deduplicateNewName in D.
  destruct (newRegExp _); [|discriminate].
  destruct (_ || _); [destruct (newNumber _); [|discriminate]|];
    injection D as <-; cbn [NameObj.stem NameObj.extension];
    unfold actualExtensionOf; rewrite P; cbn [Parsed.stem Parsed.extension];
    (destruct actualExtension; [contradiction|]); cbn [isEmpty];
    repeat split.
Qed.

(** X17.  The modal never submits an empty stem: whatever the sequence of
    input changes, compositions, key presses and clicks, every name it
    hands to the rename function is a non-empty stem, a dot and the actual
    extension, and the stem is the one the modal was opened with or a
    sanitized input. *)
Theorem modal_submits_named_stems (settings : PluginSettings) (src : TFile.t)
  (parentPath stem0 : jsstring) (events : list Modal.event) (name : jsstring) :
  In (Modal.RenameFunc name)
    (Modal.run settings src parentPath
       (Modal.opened settings src parentPath stem0) events) ->
  exists stem,
    stem <> []
    /\ name = stem ++ str "." ++ getActualExtension (TFile.extension src) settings
    /\ (stem = stem0 \/ exists value, stem = sanitizer.filename value).
Proof.
  set (ok := fun s : Modal.t =>
               Modal.stem s = stem0
               \/ exists value, Modal.stem s = sanitizer.filename value).
  assert (G : forall events s, ok s ->
            In (Modal.RenameFunc name)
              (Modal.run settings src parentPath s events) ->
            exists stem,
              stem <> []
              /\ name = stem ++ str "."
                        ++ getActualExtension (TFile.extension src) settings
              /\ (stem = stem0 \/ exists value, stem = sanitizer.filename value)).
  { clear events; intros events; induction events as [|e events IH];
      intros s Hs; cbn [Modal.run]; [intros []|].
    assert (Submit : forall out s',
              Modal.submit settings src s = (s', out) ->
              ok s'
              /\ (In (Modal.RenameFunc name) out ->
                  exists stem,
                    stem <> []
                    /\ name = stem ++ str "."
                              ++ getActualExtension (TFile.extension src) settings
                    /\ (stem = stem0
                        \/ exists value, stem = sanitizer.filename value))).
    { intros out s'; unfold Modal.submit.
      destruct (Modal.stem s) as [|c t] eqn:E; cbn [isEmpty];
        intros [= <- <-].
      - split; [unfold ok; cbn [Modal.stem]; now rewrite <- E|intros []].
      - split; [exact Hs|].
        intros [H|[H|[]]]; [|discriminate].
        injection H as <-; exists (Modal.stem s); rewrite E.
        split; [discriminate|]; split; [reflexivity|].
        rewrite <- E; exact Hs. }
    destruct (Modal.step settings src parentPath s e) as [s' out] eqn:S.
    rewrite in_app_iff.
    assert (Hstep : ok s'
                    /\ (In (Modal.RenameFunc name) out ->
                        exists stem,
                          stem <> []
                          /\ name = stem ++ str "."
                                    ++ getActualExtension (TFile.extension src)
                                         settings
                          /\ (stem = stem0
                              \/ exists value, stem = sanitizer.filename value))).
    { destruct e as [value| | |key| |]; cbn [Modal.step] in S.
      - injection S as <- <-; split; [right; now exists value|intros []].
      - injection S as <- <-; split; [exact Hs|intros []].
      - injection S as <- <-; split; [exact Hs|intros []].
      - destruct (streq key (str "Enter") && negb (Modal.lock s));
          [now apply Submit|].
        injection S as <- <-; split; [exact Hs|intros []].
      - now apply Submit.
      - injection S as <- <-; split; [exact Hs|].
        intros [H|[]]; discriminate. }
    destruct Hstep as [Hs' Hout].
    intros [H|H]; [now apply Hout|now apply (IH s')]. }
  apply G; left; reflexivity.
Qed.

(** ** Finite patterns *)

Lemma respects_at (k : mstate -> option mstate) (y : mstate) :
  respects k -> (k y <> None <-> succeedsAt k (pos y) (rest y)).
Proof.
  intros H; unfold succeedsAt.
  pose proof (H y (state (pos y) (rest y) []) eq_refl eq_refl); tauto.
Qed.

Lemma orElse_none (a b : option mstate) :
  orElse a b <> None <-> a <> None \/ b <> None.
Proof. destruct a, b; cbn; intuition congruence. Qed.

(** The matcher on a finite pattern: it succeeds exactly when one of the
    pattern's texts is ahead and the continuation succeeds after it. *)
Lemma matcher_words (r : regex) :
  finite r = true ->
  forall x k, respects k ->
    (matcher r x k <> None
     <-> exists w t, In w (words r) /\ rest x = w ++ t
                     /\ succeedsAt k (pos x + List.length w) t).
Proof.
  induction r as [|c| | | | |n a IH|a IHa b IHb|a IHa b IHb|a IH|a IH|a IH];
    cbn [finite]; try discriminate; intros F x k Hk.
  - (* Empty *)
    cbn [matcher words]; rewrite (respects_at k x Hk); split.
    + intros H; exists [], (rest x); cbn [List.length app].
      rewrite Nat.add_0_r; repeat split; [now left|assumption].
    + intros (w & t & [<-|[]] & E & H); cbn [List.length app] in *.
      now rewrite Nat.add_0_r, <- E in H.
  - (* Char *)
    cbn [matcher words]; unfold matchChar.
    destruct (rest x) as [|h t] eqn:E.
    + split; [congruence|intros (w & t & [<-|[]] & Ew & _); discriminate].
    + destruct (N.eqb_spec c h) as [<-|Hne].
      * rewrite (respects_at k _ Hk); cbn [advance pos rest]; split.
        -- intros H; exists [c], t; cbn [List.length].
           rewrite Nat.add_1_r; repeat split; [now left|assumption].
        -- intros (w & t' & [<-|[]] & Ew & H); cbn [List.length app] in *.
           injection Ew as <-; now rewrite Nat.add_1_r in H.
      * split; [congruence|].
        intros (w & t' & [<-|[]] & Ew & _); cbn [app] in Ew; congruence.
  - (* Group *)
    cbn [matcher words].
    assert (Hk' : respects (fun y => k (setCap n x y))).
    { intros y y' Hp Hr; apply Hk; cbn [setCap pos rest]; assumption. }
    rewrite (IH F x _ Hk'); unfold succeedsAt.
    split; intros (w & t & Hw & E & H); exists w, t; repeat split;
      try assumption; revert H;
      apply not_iff_compat, Hk; reflexivity.
  - (* Seq *)
    apply andb_prop in F as [Fa Fb]; cbn [matcher words].
    assert (Hk' : respects (fun y => matcher b y k)).
    { intros y y' Hp Hr.
      pose proof (IHb Fb y k Hk) as Hy; pose proof (IHb Fb y' k Hk) as Hy'.
      rewrite Hp, Hr in Hy.
      assert (Q : matcher b y k <> None <-> matcher b y' k <> None)
        by (rewrite Hy, Hy'; reflexivity).
      destruct (matcher b y k), (matcher b y' k); intuition congruence. }
    rewrite (IHa Fa x _ Hk'); unfold succeedsAt at 1; split.
    + intros (u & t & Hu & E & H).
      apply (IHb Fb _ k Hk) in H as (v & t' & Hv & E' & H).
      cbn [state pos rest] in E', H.
      exists (u ++ v), t'; rewrite length_app, Nat.add_assoc, <- app_assoc.
      repeat split; [|congruence|assumption].
      apply in_flat_map; exists u; split; [assumption|now apply in_map].
    + intros (w & t' & Hw & E & H).
      apply in_flat_map in Hw as (u & Hu & Hw).
      apply in_map_iff in Hw as (v & <- & Hv).
      exists u, (v ++ t'); rewrite <- app_assoc in E.
      repeat split; [assumption|assumption|].
      apply (IHb Fb _ k Hk); exists v, t'; cbn [state pos rest].
      rewrite length_app, Nat.add_assoc in H; now repeat split.
  - (* Alt *)
    apply andb_prop in F as [Fa Fb]; cbn [matcher words].
    rewrite orElse_none, (IHa Fa x k Hk), (IHb Fb x k Hk); split.
    + intros [(w & t & Hw & H)|(w & t & Hw & H)]; exists w, t;
        (split; [apply in_or_app; auto|assumption]).
    + intros (w & t & Hw & H); apply in_app_or in Hw as [Hw|Hw];
        [left|right]; now exists w, t.
  - (* Opt *)
    cbn [matcher words].
    set (k' := fun y => if Nat.eqb (pos y) (pos x) then None else k y).
    assert (Hk' : respects k').
    { intros y y' Hp Hr; unfold k'; rewrite Hp.
      destruct (Nat.eqb (pos y') (pos x)); [tauto|now apply Hk]. }
    rewrite orElse_none, (IH F (clearCaps a x) k' Hk').
    cbn [clearCaps pos rest]; rewrite (respects_at k x Hk); split.
    + intros [(w & t & Hw & E & H)|H].
      * exists w, t; repeat split; [apply in_or_app; now left|assumption|].
        revert H; unfold succeedsAt, k'; cbn [state pos].
        now destruct (Nat.eqb _ _).
      * exists [], (rest x); cbn [List.length app]; rewrite Nat.add_0_r.
        repeat split; [apply in_or_app; right; now left|assumption].
    + intros (w & t & Hw & E & H).
      destruct w as [|c w].
      * right; cbn [List.length app] in *.
        now rewrite Nat.add_0_r, <- E in H.
      * apply in_app_or in Hw as [Hw|[Hw|[]]]; [|discriminate].
        left; exists (c :: w), t; repeat split; [assumption|assumption|].
        revert H; unfold succeedsAt, k'; cbn [state pos List.length].
        destruct (Nat.eqb_spec (pos x + S (List.length w)) (pos x)); [lia|auto].
Qed.

Lemma respects_Some : respects Some.
Proof. intros y y' _ _; split; discriminate. Qed.

(** [test] with a finite pattern: one of its texts occurs in the subject. *)
Lemma test_words (r : regex) (s : jsstring) :
  finite r = true ->
  (test (Pattern r) s = true <-> exists w, In w (words r) /\ occursIn w s).
Proof.
  intros F.
  assert (M : forall i s, matcher r (state i s []) Some <> None
                          <-> exists w t, In w (words r) /\ s = w ++ t).
  { intros i s'; rewrite (matcher_words r F _ Some respects_Some).
    cbn [state pos rest]; unfold succeedsAt.
    split; intros (w & t & Hw & E); exists w, t; repeat split;
      try tauto; discriminate. }
  assert (X : forall s i, execFrom r i s <> None
                          <-> exists w, In w (words r) /\ occursIn w s).
  { clear s; intros s; induction s as [|h t IH]; intros i; cbn [execFrom];
      fold (state i [] (@nil (nat * jsstring)));
      try fold (state i (h :: t) (@nil (nat * jsstring))).
    - pose proof (M i []) as Mi.
      destruct (matcher r (state i [] []) Some) as [y|]; split.
      + intros _; destruct (proj1 Mi ltac:(discriminate)) as (w & b & Hw & E).
        exists w; split; [assumption|now exists [], b].
      + discriminate.
      + congruence.
      + intros (w & Hw & a & b & E); destruct a; [|discriminate].
        exfalso; apply (proj2 Mi); [now exists w, b|reflexivity].
    - pose proof (M i (h :: t)) as Mi.
      destruct (matcher r (state i (h :: t) []) Some) as [y|]; split.
      + intros _; destruct (proj1 Mi ltac:(discriminate)) as (w & b & Hw & E).
        exists w; split; [assumption|now exists [], b].
      + discriminate.
      + intros H; apply IH in H as (w & Hw & a & b & ->).
        exists w; split; [assumption|now exists (h :: a), b].
      + intros (w & Hw & a & b & E); destruct a as [|h' a].
        * exfalso; apply (proj2 Mi); [now exists w, b|reflexivity].
        * injection E as <- ->; apply IH; exists w; split; [assumption|].
          now exists a, b. }
  rewrite <- (X s 0%nat); unfold test; cbn [exec].
  destruct (execFrom r 0 s); cbn [option_map]; split; congruence.
Qed.

(** ** batchRenameAllImages *)

(** X24.  [batchRenameAllImages] takes a file for an image exactly when
    its extension, letter case aside, contains one of [jpeg], [jpg], [png],
    [gif], [tiff], [webp]: the test is not anchored. *)
Theorem isImageExtension_words (extension : jsstring) :
  isImageExtension extension = true
  <-> exists w, In w (map str ["JPEG"; "JPG"; "PNG"; "GIF"; "TIFF"; "WEBP"]%string)
                /\ occursIn w (map canonicalize extension).
Proof.
  unfold isImageExtension, testIgnoreCase; rewrite test_words by reflexivity.
  reflexivity.
Qed.

(** ** updateLinkInEditor *)

Lemma startsWithText_prefix (s prefix : jsstring) :
  startsWithText s prefix = true <-> exists t, s = prefix ++ t.
Proof.
  revert s; induction prefix as [|p prefix IH]; intros s; cbn [startsWithText].
  - split; [intros _; now exists s|intros _; reflexivity].
  - destruct s as [|c s]; [split; [discriminate|intros (t & E); discriminate]|].
    rewrite andb_true_iff, N.eqb_eq, IH; split.
    + intros (-> & t & ->); now exists t.
    + intros (t & E); injection E as -> ->; split; [reflexivity|now exists t].
Qed.

(** The index found is that of the first occurrence. *)
Lemma indexOf_first (s search : jsstring) :
  match indexOf s search with
  | Some i =>
    exists a b, s = a ++ search ++ b /\ List.length a = i
                /\ forall a' b', s = a' ++ search ++ b' ->
                                 (i <= List.length a')%nat
  | None => ~ occursIn search s
  end.
Proof.
  induction s as [|c s IH]; cbn [indexOf].
  - destruct (startsWithText [] search) eqn:E.
    + apply startsWithText_prefix in E as (t & E).
      exists [], t; repeat split; [assumption|intros; lia].
    + intros (a & b & E'); destruct a; [|discriminate].
      assert (startsWithText [] search = true)
        by (apply startsWithText_prefix; now exists b).
      congruence.
  - destruct (startsWithText (c :: s) search) eqn:E.
    + apply startsWithText_prefix in E as (t & E).
      exists [], t; repeat split; [assumption|intros; lia].
    + destruct (indexOf s search) as [i|]; cbn [option_map].
      * destruct IH as (a & b & -> & <- & Hmin).
        exists (c :: a), b; repeat split.
        intros a' b' E'; destruct a' as [|c' a'].
        -- assert (startsWithText (c :: a ++ search ++ b) search = true)
             by (apply startsWithText_prefix; now exists b').
           congruence.
        -- injection E' as <- E'; cbn [List.length].
           specialize (Hmin a' b' E'); lia.
      * intros (a & b & E'); destruct a as [|c' a].
        -- assert (startsWithText (c :: s) search = true)
             by (apply startsWithText_prefix; now exists b).
           congruence.
        -- injection E' as <- ->; apply IH; now exists a, b.
Qed.

Lemma getSubstitution_plain (matched before after t : jsstring) :
  ~ In (ch "$") t -> getSubstitution matched before after t = t.
Proof.
  induction t as [|c t IH]; intros H; [reflexivity|]; cbn [getSubstitution].
  destruct (N.eqb_spec c (ch "$")) as [E|_]; [exfalso; apply H; now left|].
  rewrite IH; [reflexivity|]; intros Hin; apply H; now right.
Qed.

(** X25.  [updateLinkInEditor] leaves the line alone exactly when the old
    link text does not occur in it; otherwise, for a new link text without
    a dollar sign, the line becomes the line with the first occurrence of
    the old link text replaced by the new one. *)
Theorem replacedLine_first_occurrence (line oldLinkText newLinkText : jsstring) :
  (replacedLine line oldLinkText newLinkText = None
   <-> ~ occursIn oldLinkText line)
  /\ (~ In (ch "$") newLinkText ->
      forall replaced,
        replacedLine line oldLinkText newLinkText = Some replaced ->
        exists a b,
          line = a ++ oldLinkText ++ b
          /\ replaced = a ++ newLinkText ++ b
          /\ forall a' b', line = a' ++ oldLinkText ++ b' ->
                           (List.length a <= List.length a')%nat).
Proof.
  unfold replacedLine, includes, replace.
  pose proof (indexOf_first line oldLinkText) as H.
  destruct (indexOf line oldLinkText) as [i|]; split.
  - split; [discriminate|].
    intros Hno; exfalso; apply Hno.
    destruct H as (a & b & E & _); now exists a, b.
  - intros Hd replaced [= <-].
    destruct H as (a & b & -> & <- & Hmin).
    exists a, b; split; [reflexivity|]; split; [|exact Hmin].
    rewrite getSubstitution_plain by assumption.
    rewrite firstn_app, Nat.sub_diag, firstn_all, firstn_O, app_nil_r.
    rewrite <- length_app, (app_assoc a oldLinkText b).
    now rewrite skipn_app, skipn_all, Nat.sub_diag, skipn_O.
  - tauto.
  - intros _ replaced; discriminate.
Qed.

(** ** getFirstHeading *)

(** X11.  [getFirstHeading] returns the text of the first heading of level
    1, whatever comes before it at other levels, and the empty string when
    there is no list of headings or none of level 1. *)
Theorem getFirstHeading_level_one :
  getFirstHeading None = []
  /\ (forall headings,
        Forall (fun h => HeadingCache.level h <> 1%Z) headings ->
        getFirstHeading (Some headings) = [])
  /\ (forall before h after,
        Forall (fun h => HeadingCache.level h <> 1%Z) before ->
        HeadingCache.level h = 1%Z ->
        getFirstHeading (Some (before ++ h :: after)) = HeadingCache.heading h).
Proof.
  split; [reflexivity|]; split.
  - intros headings H; cbn [getFirstHeading].
    induction H as [|h l Hh _ IH]; [reflexivity|]; cbn [firstOfLevelOne].
    destruct (Z.eqb_spec (HeadingCache.level h) 1); [contradiction|exact IH].
  - intros before h after H Hh; cbn [getFirstHeading].
    induction H as [|x l Hx _ IH]; cbn [app firstOfLevelOne].
    + now rewrite Hh.
    + destruct (Z.eqb_spec (HeadingCache.level x) 1); [contradiction|exact IH].
Qed.

(** ** startRenameProcess *)

Lemma reachable_delimiter (settings : PluginSettings) :
  reachable settings ->
  exists value, dupNumberDelimiter settings = sanitizer.delimiter value.
Proof.
  induction 1 as [|c [pattern atStart delimiter always auto all exclude
                       notice jpeg webp q] _ IH].
  - exists (str "-"); reflexivity.
  - destruct c; try exact IH; eexists; reflexivity.
Qed.

(** X13.  With settings made in the settings tab and a delimiter in which
    no hyphen stands between two characters, [generateNewName] returns, the
    name counts as meaningful exactly when its stem has a character that is
    neither one of the delimiter nor white space, and [startRenameProcess]
    renames without asking only for a meaningful name with the auto rename
    on; otherwise it opens the modal, with the stem as suggestion if the
    name is meaningful and with an empty one if not. *)
Theorem startRenameProcess_asks_unless_meaningful (settings : PluginSettings)
  (listed : list jsstring) (file : TFile.t) (parentPath : jsstring)
  (activeFile : ActiveFile.t) (fileCache : option CachedMetadata)
  (autoRename : bool) :
  reachable settings ->
  innerHyphenFree (dupNumberDelimiter settings) = true ->
  exists generated,
    generateNewName settings (Some file) (Some activeFile) fileCache
    = Ok generated
    /\ Generated.isMeaningful generated
       = hasOtherContent (Generated.stem generated) (dupNumberDelimiter settings)
    /\ startRenameProcess settings listed file parentPath (Some activeFile)
         fileCache autoRename
       = if Generated.isMeaningful generated && autoRename then
           match renameFile settings listed (Some file) parentPath
                   (Generated.newName generated) with
           | Throws e => Failed e
           | Returns r => Renamed r
           end
         else ModalOpened (if Generated.isMeaningful generated
                           then Generated.stem generated else []).
Proof.
  intros Hr Hh; destruct (reachable_delimiter _ Hr) as (value & E).
  unfold startRenameProcess, generateNewName.
  destruct (delimiter_class_syntax value) as [H1 H2].
  rewrite E in Hh |- *; rewrite isNameMeaningful_plain by assumption.
  eexists; split; [reflexivity|]; split; reflexivity.
Qed.

(** ** What holds across the functions *)

(** X27.  A name numbered by [deduplicateNewName] is read back with its
    number: when the extension has no syntax character of the pattern
    language and the number is at most 2^53, a listed file (other than the
    renamed one) that carries the name with the number [n] adds [n] to the
    collected numbers. *)
Theorem numbered_name_is_read_back (settings : PluginSettings) (file : TFile.t)
  (newNameStem ext : jsstring) (listed : list jsstring) (p : jsstring) (n : Z) :
  literalExtension ext = true ->
  (0 <= n <= 2 ^ 53)%Z ->
  In p listed ->
  path.basename p = numberedName settings newNameStem ext n ->
  path.basename p <> TFile.name file ->
  exists re,
    newRegExp (dupNameRegexSource settings newNameStem ext) = Ok re
    /\ In (Finite n)
         (dupNameNumbers
            (scanSiblings file (newNameStem ++ str "." ++ ext) re listed)).
Proof.
  intros Hext Hn Hin E Hself.
  exists (Pattern (dupNamePattern settings newNameStem ext)).
  split; [now apply newRegExp_dupName|].
  apply numbered_siblings_collected.
  exists p, (decimal (Z.to_N n)); split; [assumption|]; split.
  - split; [assumption|]; rewrite E; apply numberedName_numbered.
  - rewrite digitsValue_decimal, Z2N.id by lia.
    symmetry; apply roundToDouble_exact; lia.
Qed.

(** X28.  With the pattern the settings tab suggests,
    [docx?|xlsx?|pptx?|zip|rar], [testExcludeExtension] excludes a file
    exactly when its extension contains one of [docx], [doc], [xlsx], [xls],
    [pptx], [ppt], [zip], [rar]: the extension [docm] is excluded as
    well. *)
Theorem testExcludeExtension_placeholder (settings : PluginSettings)
  (file : TFile.t) :
  excludeExtensionPattern settings = excludePlaceholder ->
  exists excluded,
    testExcludeExtension settings file = Ok excluded
    /\ (excluded = true
        <-> exists w,
              In w (map str ["docx"; "doc"; "xlsx"; "xls"; "pptx"; "ppt";
                             "zip"; "rar"]%string)
              /\ occursIn w (TFile.extension file)).
Proof.
  intros E; unfold testExcludeExtension; rewrite E.
  change (isEmpty excludePlaceholder) with false; cbn iota.
  assert (R : exists r, newRegExp excludePlaceholder = Ok (Pattern r)
                        /\ finite r = true
                        /\ words r
                           = map str ["docx"; "doc"; "xlsx"; "xls"; "pptx";
                                      "ppt"; "zip"; "rar"]%string).
  { eexists; split; [vm_compute; reflexivity|]; split; reflexivity. }
  destruct R as (r & -> & F & W).
  eexists; split; [reflexivity|].
  rewrite test_words by assumption; now rewrite W.
Qed.

(** X29.  An attachment that is not a pasted image: for a file created no
    more than a second ago whose name does not start with ["Pasted image "]
    and whose extension is not [md], and a pattern without syntax character
    of the pattern language, the handler of the create event starts the
    rename process when all attachments are handled and the pattern is empty
    or does not occur in the extension, and does nothing otherwise. *)
Theorem onCreate_other_attachment (settings : PluginSettings) (now ctime : Z)
  (file : TFile.t) :
  startsWithText (TFile.name file) PASTED_IMAGE_PREFIX = false ->
  TFile.extension file <> str "md" ->
  (now - ctime <= 1000)%Z ->
  literalExtension (excludeExtensionPattern settings) = true ->
  let excluded :=
    excludeExtensionPattern settings <> []
    /\ occursIn (excludeExtensionPattern settings) (TFile.extension file) in
  (handleAllAttachments settings = true /\ ~ excluded ->
   onCreate settings now (OfTFile file ctime)
   = Ok (Started file (autoRename settings)))
  /\ (handleAllAttachments settings = false \/ excluded ->
      onCreate settings now (OfTFile file ctime) = Ok Ignored).
Proof.
  intros Hp Hm Ht Hl excluded; unfold onCreate.
  destruct (Z.ltb_spec 1000 (now - ctime)); [lia|].
  cbn [isMarkdownFile isPastedImage]; rewrite streq_neq, Hp by assumption.
  assert (T : exists b, testExcludeExtension settings file = Ok b
                        /\ (b = true <-> excluded)).
  { unfold testExcludeExtension, excluded.
    destruct (excludeExtensionPattern settings) as [|c pattern] eqn:E;
      cbn [isEmpty].
    - exists false; split; [reflexivity|]; split; [discriminate|now intros []].
    - rewrite newRegExp_literal by assumption.
      eexists; split; [reflexivity|]; rewrite test_literal.
      split; [intros Hin; split; [discriminate|assumption]|now intros []]. }
  destruct T as (b & -> & Hb).
  destruct (handleAllAttachments settings); split.
  - intros [_ Hno]; destruct b; [exfalso; apply Hno; now apply Hb|reflexivity].
  - intros [Hc|Hc]; [discriminate|].
    apply Hb in Hc; now subst b.
  - intros [Hc _]; discriminate.
  - reflexivity.
Qed.




End PluginProperties.

(** ** createElementTree *)

Section ElementTreeProperties.
Variables HTMLElement DomElementInfo Document : Type.
Variable createEl :
  HTMLElement -> jsstring -> DomElementInfo -> Document -> HTMLElement * Document.

Lemma ElementTreeOptions_rect' (P : ElementTreeOptions DomElementInfo -> Prop) :
  (forall tag info children, Forall P children -> P (Options _ tag info children)) ->
  forall opts, P opts.
Proof.
  intros H; fix IH 1; intros [tag info children]; apply H.
  induction children as [|c cs IHcs]; constructor; [apply IH|exact IHcs].
Qed.

(** X26.  The tree [createElementTree] returns has the shape of the options
    it was made from: one element for each option, with the children in the
    order of the options' children. *)
Theorem createElementTree_mirrors (opts : ElementTreeOptions DomElementInfo) :
  forall rootEl document,
    mirrors _ _ (fst (createElementTree _ _ _ createEl rootEl opts document)) opts.
Proof.
  induction opts as [tag info children IH] using ElementTreeOptions_rect'.
  intros rootEl document; cbn [createElementTree].
  destruct (createEl rootEl tag info document) as [el d1].
  assert (G : forall d,
            Forall2 (mirrors _ _)
              (fst (forEach (createElementTree _ _ _ createEl el) children d))
              children).
  { induction IH as [|c cs Hc _ IHcs]; intros d; cbn [forEach]; [constructor|].
    specialize (Hc el d).
    destruct (createElementTree _ _ _ createEl el c d) as [tree d'].
    specialize (IHcs d').
    destruct (forEach _ cs d') as [trees d'']; now constructor. }
  specialize (G d1); destruct (forEach _ children d1) as [trees d2].
  now constructor.
Qed.

End ElementTreeProperties.

(** * Closed instances

    The statements above hold for every host.  The instances below are
    taken at [asciiHost] (and, where a template is rendered, at
    [fileNameTemplate]); their inputs are ASCII, so no table of the host
    is read. *)

(** C3 as the specification states it does not hold: with the flag off
    the result is [foo.png], not [3-foo.png]. *)
Lemma prefix_policy_example_unnumbered :
  deduplicateNewName (host := asciiHost) prefixSettings
    [str "2-foo.png"] (str "foo.png") pastedImage
  = named "foo.png" "foo" "png"
  /\ named "foo.png" "foo" "png" <> named "3-foo.png" "foo" "png".
Proof. split; [vm_compute; reflexivity|discriminate]. Qed.

(** The rule of the numbering on the specification's example. *)
Lemma next_number_on_example :
  deduplicateNewName (host := asciiHost) DEFAULT_SETTINGS
    [str "foo.png"; str "foo-1.png"; str "foo-3.png"] (str "foo.png")
    pastedImage
  = named "foo-4.png" "foo" "png".
Proof.
  destruct (@next_number_rule asciiHost DEFAULT_SETTINGS
              [str "foo.png"; str "foo-1.png"; str "foo-3.png"] (str "foo.png")
              pastedImage
              (Pattern (dupNamePattern DEFAULT_SETTINGS (str "foo") (str "png"))))
    as (n & Hn & E).
  - vm_compute; reflexivity.
  - left; exists (str "foo.png"); split; [now left|].
    split; [discriminate|reflexivity].
  - vm_compute; reflexivity.
  - change (Forall (finiteBelow (2 ^ 53)) [Finite 1; Finite 3]).
    repeat constructor; eexists; (split; [reflexivity|lia]).
  - change (nextNumber [Finite 1; Finite 3] n) in Hn.
    destruct Hn as [Hin Hall].
    pose proof (Hall 3%Z (or_intror (or_introl eq_refl))) as H3.
    assert (n = 4%Z) as ->.
    { destruct Hin as [H|[H|[]]]; injection H; lia. }
    exact E.
Qed.

(** C9 on a name with two dots. *)
Lemma parseFileName_on_archive :
  parseFileName (host := asciiHost) (str "archive.tar.GZ")
  = {| Parsed.stem := str "archive.tar"; Parsed.extension := str "gz" |}.
Proof.
  apply (proj1 (proj2 (proj2 (proj2
           (@parseFileName_splits_at_last_dot asciiHost))))
           (str "archive.tar") (str "GZ")).
  vm_compute; intuition discriminate.
Defined.

(** C7 on an upper-case PNG with the WebP conversion on. *)
Lemma getActualExtension_on_PNG :
  getActualExtension (host := asciiHost) (str "PNG") webpSettings = str "webp".
Proof.
  apply (proj1 (@getActualExtension_cases asciiHost (str "PNG") webpSettings));
    reflexivity.
Defined.

(** C6 on a delimiter made of characters that are not allowed. *)
Lemma delimiter_on_slashes :
  sanitizer.delimiter (host := asciiHost) (str "//") = str "-".
Proof.
  apply (proj1 (@delimiter_never_empty asciiHost) (str "//")); reflexivity.
Defined.

(** ** Instances of the properties of the rest of the plugin *)

(** X1 on an attachment folder. *)
Lemma basename_of_join_on_folder :
  path.basename (path.join ([str "notes/img/"] ++ [str "foo-1.png"]))
  = str "foo-1.png".
Proof.
  apply basename_of_join; [discriminate|discriminate|].
  vm_compute; intuition discriminate.
Defined.

(** X7 on the pattern [zip] and the extension [gzip]. *)
Lemma testExcludeExtension_on_gzip :
  exists excluded,
    testExcludeExtension (host := asciiHost) zipSettings archive = Ok excluded
    /\ (excluded = true
        <-> excludeExtensionPattern zipSettings <> []
            /\ occursIn (excludeExtensionPattern zipSettings)
                 (TFile.extension archive)).
Proof.
  apply (@testExcludeExtension_literal asciiHost zipSettings archive).
  reflexivity.
Defined.

(** X8 on a pasted image, with an exclusion pattern set. *)
Lemma onCreate_on_pasted_image :
  onCreate (host := asciiHost) zipSettings 1700000000500
    (OfTFile pastedImage 1700000000000)
  = Ok (Started pastedImage false).
Proof.
  apply (@onCreate_pasted_image asciiHost zipSettings 1700000000500
           1700000000000 pastedImage); [reflexivity|discriminate|lia].
Defined.

(** X12 on a PNG pasted into a note, with the WebP conversion on. *)
Lemma generateNewName_on_note :
  let generated :=
    {| Generated.stem := str "My note";
       Generated.newName := str "My note.webp";
       Generated.isMeaningful := true;
       Generated.extension := str "webp" |} in
  Generated.extension generated
  = getActualExtension (host := asciiHost) (TFile.extension pastedImage)
      webpSettings
  /\ Generated.newName generated
     = Generated.stem generated ++ str "." ++ Generated.extension generated
  /\ parseFileName (host := asciiHost) (Generated.newName generated)
     = {| Parsed.stem := Generated.stem generated;
          Parsed.extension := Generated.extension generated |}.
Proof.
  apply (@generateNewName_parses_back asciiHost fileNameTemplate webpSettings
           pastedImage myNote None);
    [reflexivity|vm_compute; intuition discriminate|reflexivity].
Defined.

(** X13 with the default settings. *)
Lemma startRenameProcess_on_note :
  exists generated,
    generateNewName (host := asciiHost) (template := fileNameTemplate)
      DEFAULT_SETTINGS (Some pastedImage) (Some myNote) None
    = Ok generated
    /\ Generated.isMeaningful generated
       = hasOtherContent (Generated.stem generated)
           (dupNumberDelimiter DEFAULT_SETTINGS)
    /\ startRenameProcess (host := asciiHost) (template := fileNameTemplate)
         DEFAULT_SETTINGS [] pastedImage (str "notes") (Some myNote) None true
       = if Generated.isMeaningful generated && true then
           match renameFile (host := asciiHost) DEFAULT_SETTINGS []
                   (Some pastedImage) (str "notes")
                   (Generated.newName generated) with
           | Throws e => Failed e
           | Returns r => Renamed r
           end
         else ModalOpened (if Generated.isMeaningful generated
                           then Generated.stem generated else []).
Proof.
  apply (@startRenameProcess_asks_unless_meaningful asciiHost fileNameTemplate
           DEFAULT_SETTINGS [] pastedImage (str "notes") myNote None true);
    [apply reach_default|reflexivity].
Defined.

(** X15 on a typed extension, with the WebP conversion on: the name keeps
    the extension that was typed. *)
Lemma renameFile_on_typed_extension :
  exists front,
    str "shot.png"
    = front ++ str "."
      ++ (if isEmpty (Parsed.extension
                        (parseFileName (host := asciiHost)
                           (sanitizer.filename (host := asciiHost)
                              (str "shot.png"))))
          then getActualExtension (host := asciiHost)
                 (TFile.extension pastedImage) webpSettings
          else Parsed.extension
                 (parseFileName (host := asciiHost)
                    (sanitizer.filename (host := asciiHost) (str "shot.png")))).
Proof.
  apply (@renameFile_extension asciiHost webpSettings [] pastedImage
           (str "notes") (str "shot.png")
           {| Renaming.newName := str "shot.png";
              Renaming.newPath := str "notes/shot.png";
              Renaming.convertedTo := Some (str "webp");
              Renaming.notice :=
                Some (str "Renamed Pasted image 20240101.png to shot.png") |});
    [reflexivity|vm_compute; intuition discriminate|vm_compute; reflexivity].
Defined.

(** X16 on a stem with a dot. *)
Lemma modal_name_on_version :
  exists obj,
    deduplicateNewName (host := asciiHost) DEFAULT_SETTINGS []
      (sanitizer.filename (host := asciiHost) (str " v1.2 ") ++ str "."
       ++ getActualExtension (host := asciiHost) (TFile.extension pastedImage)
            DEFAULT_SETTINGS) pastedImage
    = Ok obj
    /\ NameObj.stem obj = sanitizer.filename (host := asciiHost) (str " v1.2 ")
    /\ NameObj.extension obj
       = getActualExtension (host := asciiHost) (TFile.extension pastedImage)
           DEFAULT_SETTINGS
    /\ str "v1.2.png" = NameObj.name obj.
Proof.
  apply (@modal_name_is_kept asciiHost DEFAULT_SETTINGS [] pastedImage
           (str "notes") (str " v1.2 ")
           {| Renaming.newName := str "v1.2.png";
              Renaming.newPath := str "notes/v1.2.png";
              Renaming.convertedTo := None;
              Renaming.notice :=
                Some (str "Renamed Pasted image 20240101.png to v1.2.png") |});
    [discriminate|discriminate|reflexivity|vm_compute; reflexivity].
Defined.

(** X17 on a change of the input followed by a click. *)
Lemma modal_on_change_and_click :
  exists stem,
    stem <> []
    /\ str "shot.png"
       = stem ++ str "."
         ++ getActualExtension (host := asciiHost)
              (TFile.extension pastedImage) DEFAULT_SETTINGS
    /\ (stem = [] \/ exists value, stem = sanitizer.filename (host := asciiHost) value).
Proof.
  apply (@modal_submits_named_stems asciiHost DEFAULT_SETTINGS pastedImage
           (str "notes") []
           [Modal.ClickRename; Modal.Change (str "shot"); Modal.ClickRename]
           (str "shot.png")).
  vm_compute; left; reflexivity.
Defined.

(** X18 on 42. *)
Lemma parseInt_numberToString_on_42 :
  parseInt (numberToString (host := asciiHost) (Finite 42))
  = Finite 42.
Proof. apply (@parseInt_numberToString asciiHost 42); lia. Defined.

(** X19 on a taken name. *)
Lemma deduplicateNewName_avoids_on_example :
  exists r,
    deduplicateNewName (host := asciiHost) DEFAULT_SETTINGS [str "img/foo.png"]
      (str "foo.png") pastedImage = Ok r
    /\ forall p, In p [str "img/foo.png"] ->
                 path.basename p <> TFile.name pastedImage ->
                 path.basename p <> NameObj.name r.
Proof.
  destruct (@deduplicateNewName_avoids_siblings asciiHost DEFAULT_SETTINGS
              [str "img/foo.png"] (str "foo.png") pastedImage)
    as [Hreturns Havoids]; [reflexivity| |].
  - intros p ds [<-|[]] (_ & _ & _ & E); vm_compute in E; discriminate.
  - destruct (Hreturns eq_refl) as [r Hr].
    exists r; split; [exact Hr|exact (Havoids r Hr)].
Defined.

(** X20 on a listing of two files. *)
Lemma deduplicateNewName_on_swapped_listing :
  deduplicateNewName (host := asciiHost) DEFAULT_SETTINGS
    [str "foo.png"; str "foo-1.png"] (str "foo.png") pastedImage
  = deduplicateNewName (host := asciiHost) DEFAULT_SETTINGS
      [str "foo-1.png"; str "foo.png"] (str "foo.png") pastedImage.
Proof.
  apply (@deduplicateNewName_order_independent asciiHost); apply perm_swap.
Defined.

(** X21 on a free name. *)
Lemma deduplicateNewName_on_free_name :
  deduplicateNewName (host := asciiHost) DEFAULT_SETTINGS [str "bar.png"]
    (str "foo.png") pastedImage
  = named "foo.png" "foo" "png".
Proof.
  apply (@deduplicateNewName_free_name_literal asciiHost DEFAULT_SETTINGS
           [str "bar.png"] (str "foo.png") pastedImage); [reflexivity| |reflexivity].
  intros (p & [<-|[]] & _ & E); vm_compute in E; discriminate.
Defined.

(** X22 on the default delimiter. *)
Lemma isNameMeaningful_on_hyphens :
  isNameMeaningful (host := asciiHost) (str "- -")
    (sanitizer.delimiter (host := asciiHost) (str "-"))
  = Ok (hasOtherContent (str "- -")
          (sanitizer.delimiter (host := asciiHost) (str "-"))).
Proof.
  apply (@isNameMeaningful_sanitized asciiHost (str "- -") (str "-")).
  reflexivity.
Defined.

(** X23 after both conversions were turned on, one after the other. *)
Lemma conversions_exclusive_on_both :
  pngToJpeg (onChange (host := asciiHost) (PngToJpeg true) webpSettings)
  && pngToWebp (onChange (host := asciiHost) (PngToJpeg true) webpSettings)
  = false.
Proof.
  apply (@conversions_exclusive asciiHost); unfold webpSettings.
  do 2 apply reach_change; apply reach_default.
Defined.

(** X27 on a sibling numbered 7. *)
Lemma numbered_name_on_seven :
  exists re,
    newRegExp (host := asciiHost)
      (dupNameRegexSource DEFAULT_SETTINGS (str "foo") (str "png")) = Ok re
    /\ In (Finite 7)
         (dupNameNumbers
            (scanSiblings pastedImage
               (str "foo" ++ str "." ++ str "png") re [str "img/foo-7.png"])).
Proof.
  apply (@numbered_name_is_read_back asciiHost DEFAULT_SETTINGS pastedImage
           (str "foo") (str "png") [str "img/foo-7.png"] (str "img/foo-7.png") 7);
    [reflexivity|lia|now left|reflexivity|discriminate].
Defined.

(** X28 on a macro-enabled document. *)
Lemma testExcludeExtension_on_docm :
  exists excluded,
    testExcludeExtension (host := asciiHost) officeSettings report = Ok excluded
    /\ (excluded = true
        <-> exists w,
              In w (map str ["docx"; "doc"; "xlsx"; "xls"; "pptx"; "ppt";
                             "zip"; "rar"]%string)
              /\ occursIn w (TFile.extension report)).
Proof.
  apply (@testExcludeExtension_placeholder asciiHost officeSettings report).
  reflexivity.
Defined.

(** X29 on an archive, with all attachments handled and the pattern [zip]. *)
Lemma onCreate_on_archive :
  let excluded :=
    excludeExtensionPattern zipSettings <> []
    /\ occursIn (excludeExtensionPattern zipSettings) (TFile.extension archive) in
  (handleAllAttachments zipSettings = true /\ ~ excluded ->
   onCreate (host := asciiHost) zipSettings 1700000000500
     (OfTFile archive 1700000000000)
   = Ok (Started archive (autoRename zipSettings)))
  /\ (handleAllAttachments zipSettings = false \/ excluded ->
      onCreate (host := asciiHost) zipSettings 1700000000500
        (OfTFile archive 1700000000000) = Ok Ignored).
Proof.
  apply (@onCreate_other_attachment asciiHost zipSettings 1700000000500
           1700000000000 archive); [reflexivity|discriminate|lia|reflexivity].
Defined.

